(** * KathaChitra video composition engine

    A shallow embedding of [backend/services/video_service.py],
    [backend/utils/file_handler.py], the [/generate-video] endpoint of
    [backend/main.py] and the text sanitiser of
    [backend/services/audio_service.py], with the properties of the caption
    synthesiser, the duration probe, the encoder degradation chain, the
    session workspace and its sweep, and the texts handed on.

    Conventions.
    - A Python [str] is a list of Unicode code points ([N]).
    - Python floats are embedded through a small interface of arithmetic
      operations ([NumOps]); it is instantiated with the rationals [Q]
      (exact arithmetic, used for the general theorems) and with the
      primitive binary64 floats (used to replay concrete runs bit for bit).
    - Effectful code runs in a state-and-exception monad over a [World]
      (file system, event trace); everything the outside decides (the
      result of a subprocess, of decoding an image, ...) is read from an
      [Env] of oracles. *)

From Stdlib Require Import ZArith NArith QArith Qminmax Qabs Lqa Lia List Bool Ascii String Floats.
From stdpp Require Import gmap strings list fin_maps.
Import ListNotations.

Set Default Proof Using "Type".
Local Open Scope nat_scope.

(** ** Python strings *)

Module PyStr.

Definition char := N.
Definition str := list char.

(** [str.isspace] on one code point; [re]'s [\s] on [str] patterns uses
    the same table. *)
Definition is_space (c : char) : bool :=
  ((9 <=? c) && (c <=? 13) || (28 <=? c) && (c <=? 32)
   || (c =? 133) || (c =? 160) || (c =? 5760)
   || (8192 <=? c) && (c <=? 8202)
   || (c =? 8232) || (c =? 8233) || (c =? 8239) || (c =? 8287)
   || (c =? 12288))%N.

(** The character class [[.!?]]. *)
Definition is_terminal (c : char) : bool :=
  ((c =? 46) || (c =? 33) || (c =? 63))%N.

Definition SPACE : char := 32%N.

Definition of_string (s : string) : str :=
  map N_of_ascii (list_ascii_of_string s).

(** [cons_word w ws]: [w] is a word in front of [ws] unless it is empty. *)
Definition cons_word (w : str) (ws : list str) : list str :=
  match w with
  | [] => ws
  | _ :: _ => w :: ws
  end.

(** One left-to-right pass of [str.split()]: the characters up to the
    first white space, and the words after it. *)
Fixpoint words_scan (s : str) : str * list str :=
  match s with
  | [] => ([], [])
  | c :: rest =>
      let '(w, ws) := words_scan rest in
      if is_space c then ([], cons_word w ws) else (c :: w, ws)
  end.

(** [s.split()]: the maximal runs of non-white-space characters. *)
Definition split (s : str) : list str :=
  let '(w, ws) := words_scan s in cons_word w ws.

(** [sep.join(ws)] *)
Fixpoint join (sep : str) (ws : list str) : str :=
  match ws with
  | [] => []
  | [w] => w
  | w :: rest => w ++ sep ++ join sep rest
  end.

(** States of the scan for [re.split(r'(?<=[.!?])\s+', s)]: inside a
    piece (remembering whether the previous character is in [[.!?]]), or
    inside a separator that has started. *)
Inductive scan_state := InText (after_terminal : bool) | InSep.

(** Returns the rest of the current piece and the pieces after it.  A
    separator starts at a white-space character that follows a terminal
    character and, [\s+] being greedy, extends over the whole run. *)
Fixpoint re_split_scan (st : scan_state) (s : str) : str * list str :=
  match s with
  | [] => ([], [])
  | c :: rest =>
      match st with
      | InText after_terminal =>
          if after_terminal && is_space c then
            let '(cur, more) := re_split_scan InSep rest in
            ([], cur :: more)
          else
            let '(cur, more) := re_split_scan (InText (is_terminal c)) rest in
            (c :: cur, more)
      | InSep =>
          if is_space c then re_split_scan InSep rest
          else
            let '(cur, more) := re_split_scan (InText (is_terminal c)) rest in
            (c :: cur, more)
      end
  end.

(** [re.split(r'(?<=[.!?])\s+', s)] *)
Definition re_split_sentences (s : str) : list str :=
  let '(cur, more) := re_split_scan (InText false) s in cur :: more.

(** [s.strip()] *)
Fixpoint lstrip (s : str) : str :=
  match s with
  | [] => []
  | c :: rest => if is_space c then lstrip rest else s
  end.

Definition strip (s : str) : str := rev (lstrip (rev (lstrip s))).

(** [range(0, stop, step)] *)
Definition range_step (stop step : nat) : list nat :=
  map (fun k => k * step) (seq 0 ((stop + (step - 1)) / step)).

(** [l[i:j]] for [0 <= i <= j] *)
Definition slice {A} (l : list A) (i j : nat) : list A :=
  firstn (j - i) (skipn i l).

End PyStr.

Import PyStr.

(** ** Numbers

    The arithmetic the services perform on Python [float]s and [int]s. *)

Class NumOps (F : Type) := {
  of_int : Z -> F;            (* an [int] used in float arithmetic *)
  lit : Q -> F;               (* a decimal literal of the source *)
  add : F -> F -> F;
  sub : F -> F -> F;
  mul : F -> F -> F;
  div : F -> F -> F;
  ltb : F -> F -> bool        (* [x < y] *)
}.

(** [x > y] *)
Definition gtb {F} `{NumOps F} (x y : F) : bool := ltb y x.

(** [max(x, y)]: the first argument wins unless the second is greater. *)
Definition py_max {F} `{NumOps F} (x y : F) : F := if gtb y x then y else x.

(** Exact arithmetic. *)
Definition Qltb (x y : Q) : bool := negb (Qle_bool y x).

#[export] Instance Q_num : NumOps Q := {|
  of_int := inject_Z;
  lit q := q;
  add := Qplus; sub := Qminus; mul := Qmult; div := Qdiv;
  ltb := Qltb |}.

(** IEEE 754 binary64, round to nearest even: CPython's [float].  [of_int]
    is exact below [2^53]; a literal is the quotient of two exactly
    represented integers, correctly rounded. *)
Definition float_of_Z (z : Z) : float :=
  match z with
  | Z0 => PrimFloat.zero
  | Zpos p => PrimFloat.of_uint63 (Uint63.of_Z (Zpos p))
  | Zneg p => PrimFloat.opp (PrimFloat.of_uint63 (Uint63.of_Z (Zpos p)))
  end.

#[export] Instance float_num : NumOps float := {|
  of_int := float_of_Z;
  lit q := PrimFloat.div (float_of_Z (Qnum q)) (float_of_Z (Zpos (Qden q)));
  add := PrimFloat.add; sub := PrimFloat.sub;
  mul := PrimFloat.mul; div := PrimFloat.div;
  ltb := PrimFloat.ltb |}.

(** ** The caption timing synthesiser

    The computation of [VideoService._create_subtitle_file] between the
    sentence split and the write of the file. *)

Module Captions.
Section Synth.
Context {F : Type} {num : NumOps F}.

(** The chunks of one sentence,
    [for i in range(0, len(words), 8): chunk_words = words[i:i + 8]],
    each kept [if chunk_words] and joined by single spaces. *)
Definition sentence_chunks (sentence : str) : list str :=
  let words := split sentence in
  flat_map
    (fun i =>
       let chunk_words := slice words i (i + 8) in
       match chunk_words with
       | [] => []
       | _ :: _ => [join [SPACE] chunk_words]
       end)
    (range_step (length words) 8).

(** [segments] *)
Definition caption_segments (story_text : str) : list str :=
  flat_map sentence_chunks (re_split_sentences story_text).

Definition words_per_second : F := lit (5 # 2).

(** [max(word_count / words_per_second, 1.5)] *)
Definition segment_duration (segment : str) : F :=
  let word_count := length (split segment) in
  py_max (div (of_int (Z.of_nat word_count)) words_per_second) (lit (3 # 2)).

(** The loop over [segments] that fills [segment_times], started with
    [current_time]. *)
Fixpoint segment_times_from (current_time : F) (segments : list str)
  : list (F * F) :=
  match segments with
  | [] => []
  | segment :: rest =>
      let d := segment_duration segment in
      (current_time, add current_time d)
        :: segment_times_from (add current_time (add d (lit (1 # 5)))) rest
  end.

Definition provisional_times (segments : list str) : list (F * F) :=
  segment_times_from (lit (1 # 2)) segments.

(** [segment_times[-1][1] > duration - 1] (false on an empty list) *)
Definition overruns (duration : F) (segment_times : list (F * F)) : bool :=
  match last (snd <$> segment_times) with
  | Some last_end => gtb last_end (sub duration (of_int 1))
  | None => false
  end.

(** The rescaling step. *)
Definition fit_times (duration : F) (segment_times : list (F * F))
  : list (F * F) :=
  match last (snd <$> segment_times) with
  | Some last_end =>
      if gtb last_end (sub duration (of_int 1)) then
        let scale := div (sub duration (of_int 1)) last_end in
        map (fun '(s, e) => (mul s scale, mul e scale)) segment_times
      else segment_times
  | None => segment_times
  end.

(** A caption segment: text, start, end. *)
Record CaptionSegment := {
  seg_text : str;
  seg_start : F;
  seg_end : F }.

(** The caption track: [zip(segments, segment_times)]. *)
Definition synthesize (story_text : str) (duration : F)
  : list CaptionSegment :=
  let segments := caption_segments story_text in
  let segment_times := fit_times duration (provisional_times segments) in
  map (fun '(t, (s, e)) => {| seg_text := t; seg_start := s; seg_end := e |})
      (combine segments segment_times).

End Synth.
Arguments CaptionSegment F : clear implicits.
End Captions.

Import Captions.

(** ** Exceptions, files and the outside world *)

(** The exceptions the modelled calls raise; all but the last derive from
    [Exception] directly, and [HTTPException] does too. *)
Inductive exn :=
| TypeError | ValueError | BinasciiError | UnidentifiedImageError
| ImportError | RuntimeError | OSError | FileNotFoundError
| TimeoutExpired | RecursionError
| HTTPException (status_code : Z) (detail : string).

Inductive Result (A : Type) :=
| Ok (a : A)
| Raise (e : exn).
Arguments Ok {A} a.
Arguments Raise {A} e.

(** [d / name] on [pathlib.Path] *)
Definition joinpath (d name : string) : string := d +:+ "/" +:+ name.
Infix "</>" := joinpath (at level 40, left associativity).

(** [p] is [dir] or lies below it. *)
Definition under (dir p : string) : bool :=
  String.eqb dir p || String.prefix (dir +:+ "/") p.

Record Image := { img_size : Z * Z }.

(** The filters of the [-vf] chain. *)
Inductive Filter :=
| Scale (w h : Z)
| Pad (w h : Z)
| Zoompan (w h fps : Z)
| Subtitles (srt : string).

Definition is_subtitles (f : Filter) : bool :=
  match f with Subtitles _ => true | _ => false end.

Section Model.
Context {F : Type} {num : NumOps F}.

(** One encoder command line ([cmd]): the inputs, the audio options when
    an audio input is present ([-c:a aac], [-shortest], and [-b:a] in the
    full command), the [-vf] chain (no [-vf] when empty), [-t] when there
    is no audio, and the [timeout] handed to [subprocess.run].  The video
    options ([-y -loop 1 -c:v libx264 -tune stillimage -pix_fmt yuv420p
    -movflags +faststart]) are the same in every command. *)
Record EncodePlan := {
  plan_image : string;
  plan_audio : option string;
  plan_audio_bitrate : option string;
  plan_filters : list Filter;
  plan_t : option F;
  plan_timeout : Z;
  plan_output : string }.

(** What is printed. *)
Inductive message :=
| Failed_to_save_image (e : exn)
| Failed_to_save_story_image
| Creating_video (duration : F) (captions : bool)
| Video_created (size : N)
| Video_creation_failed (e : exn)
| Created_subtitles (segments : nat) (duration : F)
| Subtitle_creation_failed (e : exn)
| Could_not_get_audio_duration (e : exn)
| Running_FFmpeg (captions : bool)
| FFmpeg_error
| Retrying_without_captions
| FFmpeg_video_creation_failed (e : exn)
| Simple_video_creation_failed (e : exn)
| Failed_to_cleanup_session_directory (e : exn)
| No_TTS_engine_available
| Generating_narration
| Creating_video_stage
| Video_error (e : exn).

Inductive event :=
| Ran_ffprobe (audio_path : string)
| Ran_ffmpeg (plan : EncodePlan)
| Wrote_srt (path : string) (track : list (CaptionSegment F))
| Printed (m : message).

(** The directories, the regular files with their sizes in bytes, and
    what has happened so far (oldest first). *)
Record World := {
  dirs : gset string;
  files : gmap string N;
  trace : list event }.

Definition ffmpeg_runs (t : list event) : list EncodePlan :=
  flat_map (fun ev => match ev with Ran_ffmpeg plan => [plan] | _ => [] end) t.

Definition ffprobe_runs (t : list event) : list string :=
  flat_map (fun ev => match ev with Ran_ffprobe a => [a] | _ => [] end) t.

(** Results of the calls that leave the program. *)
Inductive probe_result :=
| Probe_completed (returncode : Z) (stdout : str)
| Probe_raises (e : exn).

(** [written]: the size of the output file the encoder leaves, if it
    leaves one. *)
Inductive encode_result :=
| Encode_completed (returncode : Z) (written : option N)
| Encode_timeout (written : option N)
| Encode_raises (e : exn).

Inductive save_result :=
| Saved (size : N)
| Save_raises (e : exn) (partial : option N).

Inductive rmtree_result :=
| Removed
| Rmtree_raises (e : exn) (gone : gset string).

Record Env := {
  uuid_uuid4 : World -> string;
  Path_mkdir : string -> option exn;
  (** the file the TTS engines leave at the narration path *)
  tts_output : str -> string -> string -> option N;
  import_module : string -> option exn;
  base64_b64decode : string -> Result (list N);
  Image_open : list N -> Result Image;
  Image_save : Image -> string -> save_result;
  get_ffmpeg_exe : Result string;
  (** [subprocess.run] of the probe and of the encoder; the encoder's
      result may depend on the commands run before it *)
  run_ffprobe : string -> probe_result;
  run_ffmpeg : list EncodePlan -> EncodePlan -> encode_result;
  (** [float(s)], [None] for [ValueError] *)
  py_float : str -> option F;
  (** writing the caption file: its size, or the error *)
  write_srt : string -> list (CaptionSegment F) -> Result N;
  shutil_rmtree : World -> string -> rmtree_result }.

(** *** The state and exception monad *)

Definition M (A : Type) : Type := World -> Result A * World.

Definition ret {A} (a : A) : M A := fun w => (Ok a, w).

Definition bind {A B} (m : M A) (k : A -> M B) : M B :=
  fun w =>
    match m w with
    | (Ok a, w') => k a w'
    | (Raise e, w') => (Raise e, w')
    end.

Definition raise {A} (e : exn) : M A := fun w => (Raise e, w).

(** [try: body / except Exception as e: handler e] *)
Definition try_except {A} (body : M A) (handler : exn -> M A) : M A :=
  fun w =>
    match body w with
    | (Ok a, w') => (Ok a, w')
    | (Raise e, w') => handler e w'
    end.

Definition of_result {A} (r : Result A) : M A := fun w => (r, w).

Definition of_error (o : option exn) : M unit :=
  fun w => match o with Some e => (Raise e, w) | None => (Ok tt, w) end.

Definition log (ev : event) : M unit :=
  fun w => (Ok tt, {| dirs := dirs w; files := files w; trace := trace w ++ [ev] |}).

Definition print (m : message) : M unit := log (Printed m).

Definition set_file (p : string) (size : N) (w : World) : World :=
  {| dirs := dirs w; files := <[p := size]> (files w); trace := trace w |}.

Definition set_file_opt (p : string) (size : option N) (w : World) : World :=
  match size with Some n => set_file p n w | None => w end.

Definition path_exists (w : World) (p : string) : bool :=
  bool_decide (p ∈ dirs w) || bool_decide (is_Some (files w !! p)).

(** [p.exists()] *)
Definition exists_ (p : string) : M bool :=
  fun w => (Ok (path_exists w p), w).

(** [p.stat().st_size] of a regular file *)
Definition st_size (p : string) : M N :=
  fun w => match files w !! p with
           | Some n => (Ok n, w)
           | None => (Raise FileNotFoundError, w)
           end.

End Model.

Arguments EncodePlan F : clear implicits.
Arguments message F : clear implicits.
Arguments event F : clear implicits.
Arguments World F : clear implicits.
Arguments Env F : clear implicits.
Arguments encode_result : clear implicits.
Arguments M F A : clear implicits.

Declare Scope py_scope.
Delimit Scope py_scope with py.
Notation "x <- m ;; k" := (bind m (fun x => k))
  (at level 100, m at next level, right associativity) : py_scope.
Notation "m ;;; k" := (bind m (fun _ => k))
  (at level 100, right associativity) : py_scope.

Local Open Scope py_scope.

(** ** The services *)

Section Services.
Context {F : Type} {num : NumOps F} (env : Env F).

#[local] Abbreviation M := (M F).

(** *** [config.py] *)

Definition TEMP_DIR : string := "/tmp/kathachitra".
Definition IMAGE_WIDTH : Z := 1024.
Definition IMAGE_HEIGHT : Z := 576.

(** *** [utils/file_handler.py]: [TempFileHandler] *)

Definition base_dir : string := TEMP_DIR.

(** [session_dir.mkdir(parents=True, exist_ok=True)] *)
Definition mkdir (p : string) : M unit :=
  fun w =>
    match Path_mkdir env p with
    | Some e => (Raise e, w)
    | None => (Ok tt, {| dirs := {[p]} ∪ dirs w; files := files w; trace := trace w |})
    end.

Definition create_session_dir : M string :=
  session_id <- (fun w => (Ok (uuid_uuid4 env w), w)) ;;
  let session_dir := base_dir </> session_id in
  mkdir session_dir ;;;
  ret session_dir.

(** [shutil.rmtree(p)]: on success [p] and everything below it is gone;
    on failure the paths in [gone] that lie below [p] are. *)
Definition rmtree (p : string) : M unit :=
  fun w =>
    match shutil_rmtree env w p with
    | Removed =>
        (Ok tt,
         {| dirs := filter (fun q => under p q = false) (dirs w);
            files := filter (fun kv => under p kv.1 = false) (files w);
            trace := trace w |})
    | Rmtree_raises e gone =>
        (Raise e,
         {| dirs := filter (fun q => ¬ (under p q = true ∧ q ≠ p ∧ q ∈ gone)) (dirs w);
            files := filter (fun kv => ¬ (under p kv.1 = true ∧ kv.1 ∈ gone)) (files w);
            trace := trace w |})
    end.

Definition cleanup_session (session_dir : string) : M unit :=
  try_except
    (there <- exists_ session_dir ;;
     if there then rmtree session_dir else ret tt)
    (fun e => print (Failed_to_cleanup_session_directory e)).

(** *** [services/video_service.py]: [VideoService] *)

Definition fps : Z := 24.
Definition video_size : Z * Z := (IMAGE_WIDTH, IMAGE_HEIGHT).

Definition import (module : string) : M unit := of_error (import_module env module).

(** [img.save(str(output_path), 'PNG')] *)
Definition save (img : Image) (output_path : string) : M unit :=
  fun w =>
    match Image_save env img output_path with
    | Saved n => (Ok tt, set_file output_path n w)
    | Save_raises e partial => (Raise e, set_file_opt output_path partial w)
    end.

Definition resize (img : Image) (size : Z * Z) : Image := {| img_size := size |}.

Definition _save_base64_image (image_base64 : option string) (output_path : string)
  : M bool :=
  try_except
    (import "PIL" ;;;
     image_data <- of_result (match image_base64 with
                              | Some b => base64_b64decode env b
                              | None => Raise TypeError
                              end) ;;
     img <- of_result (Image_open env image_data) ;;
     let img := if bool_decide (img_size img ≠ video_size)
                then resize img video_size else img in
     save img output_path ;;;
     ret true)
    (fun e => print (Failed_to_save_image e) ;;; ret false).

(** [subprocess.run(cmd, capture_output=True, text=True)] of the probe *)
Definition subprocess_run_ffprobe (audio_path : string) : M (Z * str) :=
  log (Ran_ffprobe audio_path) ;;;
  match run_ffprobe env audio_path with
  | Probe_completed returncode stdout => ret (returncode, stdout)
  | Probe_raises e => raise e
  end.

(** [float(s)] *)
Definition float_of (s : str) : M F :=
  match py_float env s with
  | Some x => ret x
  | None => raise ValueError
  end.

(** [Some d]: the [try] block returned [d]; [None]: control left it
    without a [return]. *)
Definition _get_audio_duration (audio_path : string) : M (option F) :=
  returned <-
    try_except
      (import "imageio_ffmpeg" ;;;
       ffprobe_exe <- of_result (get_ffmpeg_exe env) ;;
       result <- subprocess_run_ffprobe audio_path ;;
       let '(returncode, stdout) := result in
       if (returncode =? 0)%Z && negb (bool_decide (strip stdout = [])) then
         d <- float_of (strip stdout) ;; ret (Some d)
       else ret None)
      (fun e => print (Could_not_get_audio_duration e) ;;; ret None) ;;
  match returned with
  | Some d => ret (Some d)
  | None =>
      (* Fallback: estimate from file size *)
      try_except
        (size <- st_size audio_path ;;
         ret (Some (div (of_int (Z.of_N size)) (of_int 16000))))
        (fun _ => ret None)
  end.

(** The [with open(subtitle_path, 'w')] block. *)
Definition write_captions (subtitle_path : string) (track : list (CaptionSegment F))
  : M unit :=
  fun w =>
    match write_srt env subtitle_path track with
    | Ok n =>
        (Ok tt, {| dirs := dirs w; files := <[subtitle_path := n]> (files w);
                   trace := trace w ++ [Wrote_srt subtitle_path track] |})
    | Raise e => (Raise e, w)
    end.

Definition _create_subtitle_file (story_text : str) (duration : F) (session_dir : string)
  : M (option string) :=
  try_except
    (let subtitle_path := session_dir </> "captions.srt" in
     let segments := caption_segments story_text in
     if (length segments =? 0)%nat then ret None
     else
       write_captions subtitle_path (synthesize story_text duration) ;;;
       print (Created_subtitles (length segments) duration) ;;;
       ret (Some subtitle_path))
    (fun e => print (Subtitle_creation_failed e) ;;; ret None).

(** [audio_path and audio_path.exists()], [subtitle_path and
    subtitle_path.exists()]: a [Path] is always true. *)
Definition present (p : option string) : M bool :=
  match p with
  | Some q => exists_ q
  | None => ret false
  end.

(** [cmd] of [_create_video_ffmpeg]; [burn] is the subtitle file when the
    caption filter is appended, [with_audio] the outcome of the audio test. *)
Definition ffmpeg_cmd (image_path : string) (audio_path : option string)
    (with_audio : bool) (burn : option string) (output_path : string)
    (duration : F) : EncodePlan F :=
  let filters :=
    [Scale video_size.1 video_size.2;
     Pad video_size.1 video_size.2;
     Zoompan video_size.1 video_size.2 fps]
    ++ match burn with Some srt => [Subtitles srt] | None => [] end in
  if with_audio then
    {| plan_image := image_path; plan_audio := audio_path;
       plan_audio_bitrate := Some "192k"; plan_filters := filters;
       plan_t := None; plan_timeout := 300; plan_output := output_path |}
  else
    {| plan_image := image_path; plan_audio := None;
       plan_audio_bitrate := None; plan_filters := filters;
       plan_t := Some duration; plan_timeout := 300; plan_output := output_path |}.

(** [cmd] of [_create_simple_video] *)
Definition simple_cmd (image_path : string) (audio_path : option string)
    (with_audio : bool) (output_path : string) (duration : F) : EncodePlan F :=
  if with_audio then
    {| plan_image := image_path; plan_audio := audio_path;
       plan_audio_bitrate := None; plan_filters := [];
       plan_t := None; plan_timeout := 300; plan_output := output_path |}
  else
    {| plan_image := image_path; plan_audio := None;
       plan_audio_bitrate := None; plan_filters := [];
       plan_t := Some duration; plan_timeout := 300; plan_output := output_path |}.

(** [subprocess.run(cmd, capture_output=True, text=True, timeout=300)]:
    the return code, or [TimeoutExpired]. *)
Definition subprocess_run_ffmpeg (cmd : EncodePlan F) : M Z :=
  fun w =>
    let w' := {| dirs := dirs w; files := files w;
                 trace := trace w ++ [Ran_ffmpeg cmd] |} in
    match run_ffmpeg env (ffmpeg_runs (trace w)) cmd with
    | Encode_completed returncode written =>
        (Ok returncode, set_file_opt (plan_output cmd) written w')
    | Encode_timeout written =>
        (Raise TimeoutExpired, set_file_opt (plan_output cmd) written w')
    | Encode_raises e => (Raise e, w')
    end.

Definition _create_simple_video (image_path : string) (audio_path : option string)
    (output_path : string) (duration : F) : M bool :=
  try_except
    (import "imageio_ffmpeg" ;;;
     ffmpeg_exe <- of_result (get_ffmpeg_exe env) ;;
     with_audio <- present audio_path ;;
     let cmd := simple_cmd image_path audio_path with_audio output_path duration in
     returncode <- subprocess_run_ffmpeg cmd ;;
     made <- exists_ output_path ;;
     ret ((returncode =? 0)%Z && made))
    (fun e => print (Simple_video_creation_failed e) ;;; ret false).

(** [depth] bounds the nesting of the recursive call; the call made from
    [create_story_video] recurses once at most (see
    [_create_video_ffmpeg_depth]). *)
Fixpoint _create_video_ffmpeg_rec (depth : nat) (image_path : string)
    (audio_path subtitle_path : option string) (output_path : string)
    (duration : F) : M bool :=
  match depth with
  | O => raise RecursionError
  | S depth' =>
      try_except
        (import "imageio_ffmpeg" ;;;
         ffmpeg_exe <- of_result (get_ffmpeg_exe env) ;;
         burn <- present subtitle_path ;;
         with_audio <- present audio_path ;;
         let cmd := ffmpeg_cmd image_path audio_path with_audio
                      (if burn then subtitle_path else None) output_path duration in
         print (Running_FFmpeg (bool_decide (is_Some subtitle_path))) ;;;
         returncode <- subprocess_run_ffmpeg cmd ;;
         made <- exists_ output_path ;;
         if (returncode =? 0)%Z && made then ret true
         else
           print FFmpeg_error ;;;
           match subtitle_path with
           | Some _ =>
               print Retrying_without_captions ;;;
               _create_video_ffmpeg_rec depth' image_path audio_path None
                 output_path duration
           | None =>
               _create_simple_video image_path audio_path output_path duration
           end)
        (fun e => print (FFmpeg_video_creation_failed e) ;;; ret false)
  end.

Definition _create_video_ffmpeg := _create_video_ffmpeg_rec 2.

(** Lines 66-73 of [create_story_video]: the duration of the video. *)
Definition video_duration (audio_path : option string) : M F :=
  with_audio <- present audio_path ;;
  match audio_path, with_audio with
  | Some audio, true =>
      probed <- _get_audio_duration audio ;;
      let duration :=
        match probed with
        | None => of_int 30
        | Some d => if ltb d (of_int 5) then of_int 30 else d
        end in
      ret (add duration (of_int 2))
  | _, _ => ret (of_int 30)
  end.

Definition create_story_video (image_base64 : option string)
    (audio_path : option string) (story_text : str) (title : str)
    (session_dir : string) (enable_captions : bool) : M (option string) :=
  try_except
    (let image_path := session_dir </> "story_image.png" in
     _save_base64_image image_base64 image_path ;;;
     saved <- exists_ image_path ;;
     if negb saved then
       print Failed_to_save_story_image ;;; ret None
     else
       duration <- video_duration audio_path ;;
       print (Creating_video duration enable_captions) ;;;
       subtitle_path <-
         (if enable_captions && negb (bool_decide (story_text = []))
          then _create_subtitle_file story_text duration session_dir
          else ret None) ;;
       let output_path := session_dir </> "story_video.mp4" in
       success <- _create_video_ffmpeg image_path audio_path subtitle_path
                    output_path duration ;;
       made <- (if success then exists_ output_path else ret false) ;;
       if success && made then
         size <- st_size output_path ;;
         print (Video_created size) ;;;
         ret (Some output_path)
       else ret None)
    (fun e => print (Video_creation_failed e) ;;; ret None).

(** *** [services/audio_service.py]: [AudioService.generate_full_narration]

    The two TTS engines are taken together: [tts_output] is the file
    they leave behind; either reports success when its file exists and is
    not empty. *)
Definition generate_full_narration (story_text : str) (language : string)
    (session_dir : string) (voice_style : string) : M (option string) :=
  let output_path := session_dir </> "story_narration.mp3" in
  match tts_output env story_text language voice_style with
  | Some size =>
      (fun w => (Ok tt, set_file output_path size w)) ;;;
      if (0 <? size)%N then ret (Some output_path)
      else print No_TTS_engine_available ;;; ret None
  | None => print No_TTS_engine_available ;;; ret None
  end.

(** *** [main.py]: the [/generate-video] endpoint *)

Record VideoGenerateRequest := {
  title : str;
  culture : string;
  language : string;
  story_text : str;
  video_image : option string;
  moral : option str;
  enable_captions : bool;
  voice_style : string }.

(** The streamed file and the task handed to [background_tasks]; the
    [Content-Disposition] header built from the title is left out. *)
Record StreamingResponse := {
  body_path : string;
  background_cleanup : string }.

Definition generate_video (request : VideoGenerateRequest) : M StreamingResponse :=
  if bool_decide (story_text request = []) then
    raise (HTTPException 400 "Story text required")
  else
    session_dir <- create_session_dir ;;
    try_except
      (print Generating_narration ;;;
       audio_path <- generate_full_narration (story_text request)
                       (language request) session_dir (voice_style request) ;;
       print Creating_video_stage ;;;
       video_path <- create_story_video (video_image request) audio_path
                       (story_text request) (title request) session_dir
                       (enable_captions request) ;;
       made <- present video_path ;;
       match video_path, made with
       | Some p, true =>
           ret {| body_path := p; background_cleanup := session_dir |}
       | _, _ => raise (HTTPException 500 "Failed to create video")
       end)
      (fun e =>
         match e with
         | HTTPException _ _ =>
             cleanup_session session_dir ;;; raise e
         | _ =>
             cleanup_session session_dir ;;;
             print (Video_error e) ;;;
             raise (HTTPException 500 "Video generation failed")
         end).

End Services.

(** ** Vocabulary of the properties *)

(** A word: non-empty and free of white space. *)
Definition is_word (w : str) : Prop :=
  w <> [] /\ Forall (fun c => is_space c = false) w.

(** Each interval is non-empty and starts after the previous one ended. *)
Fixpoint chain (lo : Q) (times : list (Q * Q)) : Prop :=
  match times with
  | [] => True
  | (s, e) :: rest => (lo < s /\ s < e /\ chain e rest)%Q
  end.

(** A computation that cannot raise. *)
Definition total {F A} (m : M F A) : Prop :=
  forall w, exists a w', m w = (Ok a, w').

(** The media-inspection tool is unavailable (the module, the executable
    or the process cannot be had) or fails (non-zero exit, no output,
    output that is not a number). *)
Definition inspection_fails {F} (env : Env F) (audio_path : string) : Prop :=
  is_Some (import_module env "imageio_ffmpeg")
  \/ (exists e, get_ffmpeg_exe env = Raise e)
  \/ (exists e, run_ffprobe env audio_path = Probe_raises e)
  \/ (exists returncode stdout,
        run_ffprobe env audio_path = Probe_completed returncode stdout
        /\ (returncode <> 0%Z \/ strip stdout = []
            \/ py_float env (strip stdout) = None)).

(** ** The degradation chain, in the words of the specification

    A state machine over tiers, attempted in order; each attempt runs one
    encoder command; [advances] says after which failures the next tier is
    tried. *)

Inductive Tier := TierA | TierB | TierC.

Inductive attempt_status :=
| Succeeded
| Failed_exit          (* completed: non-zero exit, or no output file *)
| Failed_timeout
| Failed_raise (e : exn).

Definition is_succeeded (st : attempt_status) : bool :=
  match st with Succeeded => true | _ => false end.

(** The chain of the specification: a time-out advances like a failed exit. *)
Definition advances_as_specified (st : attempt_status) : bool :=
  match st with Failed_exit | Failed_timeout => true | _ => false end.

(** The chain of the code: only a completed run that failed advances. *)
Definition advances_on_exit (st : attempt_status) : bool :=
  match st with Failed_exit => true | _ => false end.

Section Chain.
Context {F : Type} {num : NumOps F} (env : Env F).
Variables (image_path : string) (audio_path subtitle_path : option string)
          (output_path : string) (duration : F).

Definition has (w : World F) (p : option string) : bool :=
  match p with Some q => path_exists w q | None => false end.

(** Tier A: scale, pad, pan and zoom, and the captions when the caption
    file is there.  Tier B: Tier A without the caption overlay.  Tier C:
    no filter at all. *)
Definition tier_plan (t : Tier) (w : World F) : EncodePlan F :=
  match t with
  | TierA =>
      ffmpeg_cmd image_path audio_path (has w audio_path)
        (if has w subtitle_path then subtitle_path else None)
        output_path duration
  | TierB =>
      ffmpeg_cmd image_path audio_path (has w audio_path) None
        output_path duration
  | TierC =>
      simple_cmd image_path audio_path (has w audio_path)
        output_path duration
  end.

(** One attempt: run the command, then look at the exit code and at the
    output file. *)
Definition attempt (cmd : EncodePlan F) (w : World F) : attempt_status * World F :=
  match subprocess_run_ffmpeg env cmd w with
  | (Ok returncode, w') =>
      (if (returncode =? 0)%Z && path_exists w' output_path
       then Succeeded else Failed_exit, w')
  | (Raise TimeoutExpired, w') => (Failed_timeout, w')
  | (Raise e, w') => (Failed_raise e, w')
  end.

Fixpoint degradation_chain (advances : attempt_status -> bool)
    (tiers : list Tier) (w : World F) : bool * World F :=
  match tiers with
  | [] => (false, w)
  | t :: rest =>
      let '(st, w') := attempt (tier_plan t w) w in
      if is_succeeded st then (true, w')
      else if advances st then degradation_chain advances rest w'
      else (false, w')
  end.

(** The tiers an invocation starts from. *)
Definition tiers_from (subtitle_path : option string) : list Tier :=
  match subtitle_path with
  | Some _ => [TierA; TierB; TierC]
  | None => [TierB; TierC]
  end.

End Chain.

(** What the encoder can see of a world: the files and the commands run. *)
Definition encoder_view {F} (w : World F) : World F :=
  {| dirs := dirs w; files := files w;
     trace := Ran_ffmpeg <$> ffmpeg_runs (trace w) |}.

(** The encoder is installed. *)
Definition encoder_available {F} (env : Env F) : Prop :=
  import_module env "imageio_ffmpeg" = None
  /\ exists exe, get_ffmpeg_exe env = Ok exe.


(** The same subprocesses have been run in both worlds. *)
Definition same_runs {F} (w w' : World F) : Prop :=
  ffprobe_runs (trace w') = ffprobe_runs (trace w)
  /\ ffmpeg_runs (trace w') = ffmpeg_runs (trace w).

(** ** Sample environments and worlds *)

(** Everything outside works; the probe has no inspection tool to run. *)
Definition env_no_tool {F} : Env F := {|
  uuid_uuid4 _ := "0000";
  Path_mkdir _ := None;
  tts_output _ _ _ := Some 480000%N;
  import_module _ := None;
  base64_b64decode _ := Ok [];
  Image_open _ := Ok {| img_size := (1024, 576)%Z |};
  Image_save _ _ := Saved 1000;
  get_ffmpeg_exe := Ok "ffmpeg";
  run_ffprobe _ := Probe_raises FileNotFoundError;
  run_ffmpeg _ _ := Encode_completed 0 (Some 5000%N);
  py_float _ := None;
  write_srt _ _ := Ok 100%N;
  shutil_rmtree _ _ := Removed |}.

Definition empty_world {F} : World F :=
  {| dirs := ∅; files := ∅; trace := [] |}.

(** A session directory holding a narration of [size] bytes. *)
Definition narrated_world {F} (size : N) : World F :=
  {| dirs := {["/tmp/kathachitra/0000"]};
     files := {["/tmp/kathachitra/0000/story_narration.mp3" := size]};
     trace := [] |}.

(** The first encoder run times out; later runs succeed. *)
Definition env_first_run_times_out {F} : Env F := {|
  uuid_uuid4 _ := "0000";
  Path_mkdir _ := None;
  tts_output _ _ _ := Some 480000%N;
  import_module _ := None;
  base64_b64decode _ := Ok [];
  Image_open _ := Ok {| img_size := (1024, 576)%Z |};
  Image_save _ _ := Saved 1000;
  get_ffmpeg_exe := Ok "ffmpeg";
  run_ffprobe _ := Probe_raises FileNotFoundError;
  run_ffmpeg runs _ :=
    match runs with
    | [] => Encode_timeout None
    | _ :: _ => Encode_completed 0 (Some 5000%N)
    end;
  py_float _ := None;
  write_srt _ _ := Ok 100%N;
  shutil_rmtree _ _ := Removed |}.

(** A session directory with the image, the narration and the captions. *)
Definition session_world {F} : World F :=
  {| dirs := {["/tmp/kathachitra/0000"]};
     files := {["/tmp/kathachitra/0000/story_image.png" := 1000%N;
                "/tmp/kathachitra/0000/story_narration.mp3" := 480000%N;
                "/tmp/kathachitra/0000/captions.srt" := 100%N]};
     trace := [] |}.

(** ** Sample texts *)

Definition fox : str :=
  of_string "Once upon a time there was a very small fox who lived in the big woods. It ran!  Fast? Yes.".

(** 120 words in one paragraph without a sentence break. *)
Definition paragraph120 : str := join [SPACE] (repeat (of_string "w") 120).

(** 120 words in one paragraph of twelve sentences of ten words. *)
Definition paragraph120_sentences : str :=
  join [SPACE] (repeat (of_string "w w w w w w w w w w.") 12).

(** A chunk of eight words. *)
Definition eight_words : str := of_string "w w w w w w w w".

(** ** Further vocabulary *)

(** The piece ends with a character of [[.!?]]. *)
Definition ends_with_terminal (piece : str) : Prop :=
  exists c, last piece = Some c /\ is_terminal c = true.

(** [P] holds of every element but the last one. *)
Fixpoint all_but_last {A} (P : A -> Prop) (l : list A) : Prop :=
  match l with
  | [] => True
  | x :: rest =>
      match rest with
      | [] => True
      | _ :: _ => P x /\ all_but_last P rest
      end
  end.

(** A run of white space, at least one character long. *)
Definition is_gap (sep : str) : Prop :=
  sep <> [] /\ Forall (fun c => is_space c = true) sep.

(** The pieces put back around the separators: [p0 s0 p1 s1 ... pn]. *)
Fixpoint weave (pieces seps : list str) : str :=
  match pieces with
  | [] => []
  | p :: ps =>
      match seps with
      | [] => p ++ concat ps
      | s :: ss => p ++ s ++ weave ps ss
      end
  end.

(** The inspection tool answers [12.5] for every file. *)
Definition env_probe_works : Env Q := {|
  uuid_uuid4 _ := "0000";
  Path_mkdir _ := None;
  tts_output _ _ _ := Some 480000%N;
  import_module _ := None;
  base64_b64decode _ := Ok [];
  Image_open _ := Ok {| img_size := (1024, 576)%Z |};
  Image_save _ _ := Saved 1000;
  get_ffmpeg_exe := Ok "ffmpeg";
  run_ffprobe _ := Probe_completed 0 (of_string "12.5
");
  run_ffmpeg _ _ := Encode_completed 0 (Some 5000%N);
  py_float s := if bool_decide (s = of_string "12.5") then Some (25 # 2) else None;
  write_srt _ _ := Ok 100%N;
  shutil_rmtree _ _ := Removed |}.

(** Every run of [m] takes a world to one related to it by [R]. *)
Definition keeps {F A} (R : World F -> World F -> Prop) (m : M F A) : Prop :=
  forall w r w', m w = (r, w') -> R w w'.

(** The trace has grown by events that satisfy [P]. *)
Definition adds {F} (P : event F -> Prop) (w w' : World F) : Prop :=
  exists evs, trace w' = trace w ++ evs /\ Forall P evs.

(** No path outside [dir] has changed. *)
Definition touches_only {F} (dir : string) (w w' : World F) : Prop :=
  forall p, under dir p = false ->
            files w' !! p = files w !! p /\ (p ∈ dirs w' <-> p ∈ dirs w).

(** The encoder cannot be had: its module or its executable is missing. *)
Definition encoder_missing {F} (env : Env F) : Prop :=
  is_Some (import_module env "imageio_ffmpeg")
  \/ exists e, get_ffmpeg_exe env = Raise e.

(** What every encoder command of an invocation looks like: the given
    image and output, the time-out of 300 seconds; either the given audio
    as second input or else an explicit [-t duration]; filters at the
    canonical frame size, and a caption filter only for the given file. *)
Definition cmd_ok {F} (image_path : string) (audio_path subtitle_path : option string)
    (output_path : string) (duration : F) (p : EncodePlan F) : Prop :=
  plan_image p = image_path
  /\ plan_output p = output_path
  /\ plan_timeout p = 300%Z
  /\ ((plan_audio p = audio_path /\ audio_path <> None /\ plan_t p = None)
      \/ (plan_audio p = None /\ plan_audio_bitrate p = None
          /\ plan_t p = Some duration))
  /\ Forall (fun f =>
               match f with
               | Scale w h | Pad w h => (w, h) = (1024, 576)%Z
               | Zoompan w h r => (w, h) = (1024, 576)%Z /\ r = 24%Z
               | Subtitles srt => subtitle_path = Some srt
               end) (plan_filters p).

(** The events of an encoder invocation: prints and encoder runs. *)
Definition encoder_event {F} (P : EncodePlan F -> Prop) (ev : event F) : Prop :=
  match ev with
  | Ran_ffmpeg p => P p
  | Printed _ => True
  | _ => False
  end.

(** The executable of the encoder cannot be found. *)
Definition env_no_encoder {F} : Env F := {|
  uuid_uuid4 _ := "0000";
  Path_mkdir _ := None;
  tts_output _ _ _ := Some 480000%N;
  import_module _ := None;
  base64_b64decode _ := Ok [];
  Image_open _ := Ok {| img_size := (1024, 576)%Z |};
  Image_save _ _ := Saved 1000;
  get_ffmpeg_exe := Raise RuntimeError;
  run_ffprobe _ := Probe_raises FileNotFoundError;
  run_ffmpeg _ _ := Encode_completed 0 (Some 5000%N);
  py_float _ := None;
  write_srt _ _ := Ok 100%N;
  shutil_rmtree _ _ := Removed |}.

(** The events of a composition: prints; a probe of the given audio; an
    encoder command on the image and the output of the session, with a
    caption filter only when captions are on; the caption file of the
    session, holding the synthesised track for a duration that satisfies
    [D], written only when captions are on. *)
Definition story_video_event {F} {num : NumOps F} (D : F -> Prop)
    (audio_path : option string) (story_text : str) (session_dir : string)
    (enable_captions : bool) (ev : event F) : Prop :=
  match ev with
  | Printed _ => True
  | Ran_ffprobe a => audio_path = Some a
  | Ran_ffmpeg p =>
      exists d, D d
        /\ cmd_ok (session_dir </> "story_image.png") audio_path
             (if enable_captions && negb (bool_decide (story_text = []))
              then Some (session_dir </> "captions.srt") else None)
             (session_dir </> "story_video.mp4") d p
  | Wrote_srt path track =>
      enable_captions = true /\ story_text <> []
      /\ path = session_dir </> "captions.srt"
      /\ exists d, D d /\ track = synthesize story_text d
  end.


(** No directory has appeared or disappeared. *)
Definition same_dirs {F} (w w' : World F) : Prop := dirs w' = dirs w.

(** ** [utils/file_handler.py]: the [session] context manager *)

(** [try: body / finally: cleanup] *)
Definition try_finally {F A} (body : M F A) (cleanup : M F unit) : M F A :=
  fun w =>
    let '(r, w1) := body w in
    match cleanup w1 with
    | (Ok _, w2) => (r, w2)
    | (Raise e, w2) => (Raise e, w2)
    end.

(** [with temp_file_handler.session() as session_dir: body session_dir] *)
Definition with_session {F A} (env : Env F) (body : string -> M F A) : M F A :=
  (session_dir <- create_session_dir env ;;
   try_finally (body session_dir) (cleanup_session env session_dir))%py.

(** A request for the story of the fox, with an image payload. *)
Definition fox_request : VideoGenerateRequest :=
  {| title := of_string "Fox"; culture := "Norse"; language := "English";
     story_text := fox; video_image := Some "aW1hZ2U="; moral := None;
     enable_captions := true; voice_style := "storyteller" |}.

(** ** [utils/file_handler.py]: the sweep of old session directories *)

(** What the sweep reads from the host: the clock, the listing of the base
    directory (taken once, before the loop) and the modification times. *)
Record Host (F : Type) := {
  time_time : F;
  Path_iterdir : string -> Result (list string);
  stat_st_mtime : string -> Result F }.
Arguments time_time {F} h.
Arguments Path_iterdir {F} h p.
Arguments stat_st_mtime {F} h p.

Definition MAX_TEMP_FILE_AGE : Z := 300.

Section Sweep.
Context {F : Type} {num : NumOps F} (env : Env F) (host : Host F).

(** [item.is_dir()] *)
Definition is_dir (p : string) : M F bool :=
  fun w => (Ok (bool_decide (p ∈ dirs w)), w).

(** The body of [for item in self.base_dir.iterdir()]. *)
Fixpoint sweep (current_time max_age_seconds : F) (items : list string)
  : M F unit :=
  match items with
  | [] => ret tt
  | item :: rest =>
      (isdir <- is_dir item ;;
       if isdir then
         mtime <- of_result (stat_st_mtime host item) ;;
         if gtb (sub current_time mtime) max_age_seconds
         then rmtree env item else ret tt
       else ret tt) ;;;
      sweep current_time max_age_seconds rest
  end.

(** [cleanup_old_files].  The function returns nothing; the result here is
    the exception whose warning it prints, if any, as the messages of the
    trace have no constructor for that warning. *)
Definition cleanup_old_files (max_age_seconds : option Z) : M F (option exn) :=
  let max_age_seconds :=
    match max_age_seconds with
    | None => MAX_TEMP_FILE_AGE
    | Some s => s
    end in
  let current_time := time_time host in
  try_except
    (items <- of_result (Path_iterdir host base_dir) ;;
     sweep current_time (of_int max_age_seconds) items ;;;
     ret None)
    (fun e => ret (Some e)).

End Sweep.

(** The limit in force. *)
Definition age_limit (max_age_seconds : option Z) : Z :=
  match max_age_seconds with
  | None => MAX_TEMP_FILE_AGE
  | Some s => s
  end.

(** [item] was last modified more than [limit] seconds ago. *)
Definition expired {F} `{NumOps F} (host : Host F) (limit : Z) (item : string)
  : Prop :=
  exists mtime, stat_st_mtime host item = Ok mtime
                /\ gtb (sub (time_time host) mtime) (of_int limit) = true.

(** [q] is, or lies below, a listed directory of [w] that has expired. *)
Definition doomed {F} `{NumOps F} (host : Host F) (limit : Z) (w : World F)
    (items : list string) (q : string) : Prop :=
  exists item, In item items /\ item ∈ dirs w /\ expired host limit item
               /\ under item q = true.

(** No listed item lies below another one. *)
Definition independent (items : list string) : Prop :=
  forall a b, In a items -> In b items -> a <> b -> under a b = false.

(** Two sessions, one last modified 900 seconds ago, one 100 seconds ago. *)
Definition two_sessions_host : Host Q := {|
  time_time := 1000%Q;
  Path_iterdir _ := Ok ["/tmp/kathachitra/old"; "/tmp/kathachitra/new"]%string;
  stat_st_mtime p :=
    if String.eqb p "/tmp/kathachitra/old" then Ok 100%Q else Ok 900%Q |}.

(** Two sessions, both last modified 900 seconds ago. *)
Definition two_old_sessions_host : Host Q := {|
  time_time := 1000%Q;
  Path_iterdir _ := Ok ["/tmp/kathachitra/old"; "/tmp/kathachitra/new"]%string;
  stat_st_mtime _ := Ok 100%Q |}.

Definition two_sessions_world : World Q :=
  {| dirs := {["/tmp/kathachitra/old"; "/tmp/kathachitra/new"]};
     files := <["/tmp/kathachitra/old/story_video.mp4" := 5000%N]>
                {["/tmp/kathachitra/new/story_video.mp4" := 6000%N]};
     trace := [] |}.

(** As [env_no_tool], but the directory [old] cannot be removed. *)
Definition env_locked_session {F} : Env F := {|
  uuid_uuid4 _ := "0000";
  Path_mkdir _ := None;
  tts_output _ _ _ := Some 480000%N;
  import_module _ := None;
  base64_b64decode _ := Ok [];
  Image_open _ := Ok {| img_size := (1024, 576)%Z |};
  Image_save _ _ := Saved 1000;
  get_ffmpeg_exe := Ok "ffmpeg";
  run_ffprobe _ := Probe_raises FileNotFoundError;
  run_ffmpeg _ _ := Encode_completed 0 (Some 5000%N);
  py_float _ := None;
  write_srt _ _ := Ok 100%N;
  shutil_rmtree _ p :=
    if String.eqb p "/tmp/kathachitra/old" then Rmtree_raises OSError ∅
    else Removed |}.

(** ** [main.py]: the file name offered for the download *)

(** [c.isalnum()] for an ASCII character [c]. *)
Definition ascii_isalnum (c : char) : bool :=
  ((48 <=? c) && (c <=? 57) || (65 <=? c) && (c <=? 90)
   || (97 <=? c) && (c <=? 122))%N.

(** [c.isascii() and (c.isalnum() or c in " -_")] *)
Definition title_char (c : char) : bool :=
  (c <? 128)%N && (ascii_isalnum c || existsb (N.eqb c) (of_string " -_")).

(** The [safe_title] of [generate_video]. *)
Definition safe_title (title : str) : str :=
  match firstn 50 (List.filter title_char title) with
  | [] => of_string "cultural_story"
  | s => s
  end.

(** A digit, an ASCII letter, a space, a hyphen or an underscore. *)
Definition plain_char (c : char) : Prop :=
  (48 <= c <= 57 \/ 65 <= c <= 90 \/ 97 <= c <= 122
   \/ c = 32 \/ c = 45 \/ c = 95)%N.

(** ** [services/audio_service.py]: the text handed to the speech engines *)

(** The code points of a Python [str] lie below [0x110000]. *)
Definition code_point (c : char) : Prop := (c < 1114112)%N.

Definition is_surrogate (c : char) : bool := ((55296 <=? c) && (c <=? 57343))%N.

(** The bytes of one character under [.encode('utf-8', errors='ignore')]:
    a surrogate cannot be encoded and is left out. *)
Definition utf8_encode_char (c : char) : list N :=
  (if c <? 128 then [c]
   else if c <? 2048 then [192 + c / 64; 128 + c mod 64]
   else if is_surrogate c then []
   else if c <? 65536 then
     [224 + c / 4096; 128 + (c / 64) mod 64; 128 + c mod 64]
   else
     [240 + c / 262144; 128 + (c / 4096) mod 64; 128 + (c / 64) mod 64;
      128 + c mod 64])%N.

Definition utf8_encode_ignore (s : str) : list N := flat_map utf8_encode_char s.

Definition is_continuation (b : N) : bool := ((128 <=? b) && (b <=? 191))%N.

(** The second byte of a three-byte sequence: [E0] wants [A0..BF] (no
    overlong form), [ED] wants [80..9F] (no surrogate). *)
Definition second_of_three (b b1 : N) : bool :=
  (is_continuation b1
   && negb ((b =? 224) && (b1 <? 160)) && negb ((b =? 237) && (160 <=? b1)))%N.

(** The second byte of a four-byte sequence: [F0] wants [90..BF], [F4]
    wants [80..8F]. *)
Definition second_of_four (b b1 : N) : bool :=
  (is_continuation b1
   && negb ((b =? 240) && (b1 <? 144)) && negb ((b =? 244) && (144 <=? b1)))%N.

(** [.decode('utf-8', errors='ignore')]: an ill-formed sequence is left
    out up to the byte that breaks it, a sequence cut off by the end of
    the data is left out as a whole. *)
Fixpoint utf8_decode_ignore (bs : list N) : str :=
  match bs with
  | [] => []
  | b :: rest =>
      (if b <? 128 then b :: utf8_decode_ignore rest
       else if (194 <=? b) && (b <=? 223) then
         match rest with
         | [] => []
         | b1 :: rest1 =>
             if is_continuation b1 then
               ((b - 192) * 64 + (b1 - 128)) :: utf8_decode_ignore rest1
             else utf8_decode_ignore rest
         end
       else if (224 <=? b) && (b <=? 239) then
         match rest with
         | [] => []
         | b1 :: rest1 =>
             if second_of_three b b1 then
               match rest1 with
               | [] => []
               | b2 :: rest2 =>
                   if is_continuation b2 then
                     ((b - 224) * 4096 + (b1 - 128) * 64 + (b2 - 128))
                       :: utf8_decode_ignore rest2
                   else utf8_decode_ignore rest1
               end
             else utf8_decode_ignore rest
         end
       else if (240 <=? b) && (b <=? 244) then
         match rest with
         | [] => []
         | b1 :: rest1 =>
             if second_of_four b b1 then
               match rest1 with
               | [] => []
               | b2 :: rest2 =>
                   if is_continuation b2 then
                     match rest2 with
                     | [] => []
                     | b3 :: rest3 =>
                         if is_continuation b3 then
                           ((b - 240) * 262144 + (b1 - 128) * 4096
                            + (b2 - 128) * 64 + (b3 - 128))
                             :: utf8_decode_ignore rest3
                         else utf8_decode_ignore rest2
                     end
                   else utf8_decode_ignore rest1
               end
             else utf8_decode_ignore rest
         end
       else utf8_decode_ignore rest)%N
  end.

(** The table of [_sanitize_text], in its order: typographic quotes,
    dashes, the ellipsis, the no-break space and the soft hyphen. *)
Definition replacements : list (char * str) :=
  [(8216, of_string "'"); (8217, of_string "'");
   (8220, [34]); (8221, [34]);
   (8211, of_string "-"); (8212, of_string "-");
   (8230, of_string "...");
   (160, of_string " ");
   (173, [])]%N.

(** [text.replace(old, new)] for a one-character [old] *)
Definition replace_char (old : char) (new : str) (text : str) : str :=
  flat_map (fun c => if (c =? old)%N then new else [c]) text.

(** [m.group().encode(...).decode(...) if any(ord(c) > 127 ...) else m.group()] *)
Definition reencode (run : str) : str :=
  if existsb (fun c => (127 <? c)%N) run
  then utf8_decode_ignore (utf8_encode_ignore run)
  else run.

(** [re.sub(r'[^\x00-\x7F]+', f, text)], scanning with the run of
    non-ASCII characters read so far: [f] is applied to every maximal
    run. *)
Fixpoint re_sub_non_ascii (f : str -> str) (run text : str) : str :=
  match text with
  | [] => match run with [] => [] | _ => f run end
  | c :: rest =>
      if (c <=? 127)%N then
        match run with [] => [] | _ => f run end
          ++ c :: re_sub_non_ascii f [] rest
      else re_sub_non_ascii f (run ++ [c]) rest
  end.

Definition _sanitize_text (text : str) : str :=
  let text :=
    fold_left (fun text r => replace_char r.1 r.2 text) replacements text in
  re_sub_non_ascii reencode [] text.

(** What the table gives for [c], if it lists it. *)
Definition replacement_of (c : char) : option str :=
  snd <$> List.find (fun r => (c =? r.1)%N) replacements.

(** What becomes of one character. *)
Definition sanitized_char (c : char) : str :=
  match replacement_of c with
  | Some new => new
  | None => if is_surrogate c then [] else [c]
  end.

(** [c] is not in the table and is not a surrogate. *)
Definition clean_char (c : char) : Prop :=
  replacement_of c = None /\ is_surrogate c = false.

(** ** A payload that is not base64 *)




(** * Properties *)

(** ** The text operations on small inputs *)

Example split_example :
  split (of_string "  a  b ") = [of_string "a"; of_string "b"].
Proof. reflexivity. Qed.

Example strip_example : strip (of_string " 12.5  ") = of_string "12.5".
Proof. reflexivity. Qed.

(** A separator at the end leaves an empty last piece, as [re.split] does;
    white space that does not follow [.], [!] or [?] does not separate. *)
Example re_split_example :
  re_split_sentences (of_string "Hi there.  Yes!  ")
  = [of_string "Hi there."; of_string "Yes!"; []].
Proof. reflexivity. Qed.

Example range_step_example : range_step 20 8 = [0; 8; 16].
Proof. reflexivity. Qed.

Example fox_segments :
  caption_segments fox
  = [of_string "Once upon a time there was a very";
     of_string "small fox who lived in the big woods.";
     of_string "It ran!"; of_string "Fast?"; of_string "Yes."].
Proof. reflexivity. Qed.

(** In 30 seconds the captions of [fox] fit as they are: 8 words take 3.2
    seconds, 1 or 2 words the minimum of 1.5; gaps of 0.2. *)
Example fox_times :
  Forall2 (fun g t => seg_start g == fst t /\ seg_end g == snd t)%Q
    (synthesize (F:=Q) fox 30%Q)
    [(0.5, 3.7); (3.9, 7.1); (7.3, 8.8); (9, 10.5); (10.7, 12.2)]%Q.
Proof. repeat constructor. Qed.


(** ** Words survive the sentence split and the chunking *)

Section Words.

Lemma cons_word_app w ws ws' :
  cons_word w (ws ++ ws') = cons_word w ws ++ ws'.
Proof. destruct w; reflexivity. Qed.

Lemma split_cons c s :
  split (c :: s) = if is_space c then split s
                   else (c :: fst (words_scan s)) :: snd (words_scan s).
Proof.
  unfold split. simpl. destruct (words_scan s) as [w ws].
  destruct (is_space c); reflexivity.
Qed.

Lemma words_scan_spec s :
  Forall (fun c => is_space c = false) (fst (words_scan s))
  /\ Forall is_word (snd (words_scan s)).
Proof.
  induction s as [|c s [IHw IHws]]; simpl.
  - split; constructor.
  - destruct (words_scan s) as [w ws]; simpl in *.
    destruct (is_space c) eqn:Hc; simpl.
    + split; [constructor|].
      destruct w; simpl; [assumption|].
      constructor; [|assumption]. split; [discriminate|assumption].
    + split; [constructor|]; assumption.
Qed.

Lemma split_words s : Forall is_word (split s).
Proof.
  unfold split. pose proof (words_scan_spec s) as [Hw Hws].
  destruct (words_scan s) as [w ws]; simpl in *.
  destruct w; simpl; [assumption|].
  constructor; [|assumption]. split; [discriminate|assumption].
Qed.

Lemma words_scan_word_app w s :
  Forall (fun c => is_space c = false) w ->
  words_scan (w ++ s) = (w ++ fst (words_scan s), snd (words_scan s)).
Proof.
  induction 1 as [|c w Hc _ IH]; simpl.
  - destruct (words_scan s); reflexivity.
  - rewrite IH, Hc. reflexivity.
Qed.

Lemma is_space_SPACE : is_space SPACE = true.
Proof. reflexivity. Qed.

(** Splitting a chunk that was joined by single spaces gives the chunk's
    words back. *)
Lemma split_join ws : Forall is_word ws -> split (join [SPACE] ws) = ws.
Proof.
  induction 1 as [|w ws [Hne Hw] Hws IH]; [reflexivity|].
  destruct ws as [|w' ws].
  - simpl. unfold split.
    rewrite <- (app_nil_r w) at 1. rewrite (words_scan_word_app w [] Hw).
    simpl. rewrite app_nil_r. destruct w; [contradiction|reflexivity].
  - change (join [SPACE] (w :: w' :: ws))
      with (w ++ SPACE :: join [SPACE] (w' :: ws)).
    unfold split at 1. rewrite (words_scan_word_app w _ Hw).
    cbn [words_scan]. rewrite is_space_SPACE.
    fold (split (join [SPACE] (w' :: ws))) in *.
    destruct (words_scan (join [SPACE] (w' :: ws))) as [a b] eqn:E.
    unfold split in IH. rewrite E in IH. simpl fst. simpl snd.
    rewrite app_nil_r, IH. destruct w; [contradiction|reflexivity].
Qed.

(** The sentence split cuts the text at white space only. *)
Lemma re_split_scan_words s : forall st,
  match st with
  | InText _ =>
      words_scan s =
      (fst (words_scan (fst (re_split_scan st s))),
       snd (words_scan (fst (re_split_scan st s)))
         ++ concat (map split (snd (re_split_scan st s))))
  | InSep =>
      split s =
      split (fst (re_split_scan st s))
        ++ concat (map split (snd (re_split_scan st s)))
  end.
Proof.
  induction s as [|c s IH]; intros [p|]; try reflexivity.
  - cbn [re_split_scan].
    destruct (p && is_space c) eqn:Hp.
    + apply andb_true_iff in Hp as [_ Hc].
      specialize (IH InSep). cbn beta iota in IH.
      destruct (re_split_scan InSep s) as [cur more].
      cbn [fst snd words_scan map concat]. rewrite Hc.
      cbn [fst snd app] in *. unfold split at 1 in IH.
      destruct (words_scan s) as [w ws]. rewrite IH. reflexivity.
    + specialize (IH (InText (is_terminal c))). cbn beta iota in IH.
      destruct (re_split_scan (InText (is_terminal c)) s) as [cur more].
      cbn [fst snd words_scan] in *. rewrite IH.
      destruct (words_scan cur) as [w ws]. cbn [fst snd].
      destruct (is_space c); cbn [fst snd]; [|reflexivity].
      rewrite cons_word_app. reflexivity.
  - cbn [re_split_scan]. rewrite split_cons.
    destruct (is_space c) eqn:Hc.
    + apply (IH InSep).
    + specialize (IH (InText (is_terminal c))). cbn beta iota in IH.
      destruct (re_split_scan (InText (is_terminal c)) s) as [cur more].
      cbn [fst snd] in *. rewrite split_cons, Hc, IH. reflexivity.
Qed.

Lemma re_split_sentences_words s :
  concat (map split (re_split_sentences s)) = split s.
Proof.
  unfold re_split_sentences.
  pose proof (re_split_scan_words s (InText false)) as H. cbn beta iota in H.
  destruct (re_split_scan (InText false) s) as [cur more].
  cbn [fst snd map concat] in *. unfold split at 1 3. rewrite H.
  destruct (words_scan cur) as [w ws]. cbn [fst snd].
  symmetry. apply cons_word_app.
Qed.

End Words.

Section Chunks.

Lemma slice_step {A} (l : list A) j k :
  slice l (j * k) (j * k + k) = take k (drop (j * k) l).
Proof. unfold slice. f_equal. lia. Qed.

(** The slices [l[0:k]], [l[k:2k]], ... put side by side. *)
Lemma slices_concat {A} (l : list A) k n :
  concat (map (fun i => slice l i (i + k)) (map (fun j => j * k) (seq 0 n)))
  = take (n * k) l.
Proof.
  induction n as [|n IH]; [reflexivity|].
  rewrite seq_S, !map_app, concat_app, IH. cbn [map concat Nat.add].
  rewrite app_nil_r, slice_step, take_take_drop. f_equal. lia.
Qed.

Lemma range_step_covers {A} (l : list A) :
  concat (map (fun i => slice l i (i + 8)) (range_step (length l) 8)) = l.
Proof.
  unfold range_step. rewrite slices_concat. apply take_ge.
  pose proof (Nat.div_mod_eq (length l + (8 - 1)) 8) as H.
  pose proof (Nat.mod_upper_bound (length l + (8 - 1)) 8). lia.
Qed.

Lemma slice_words (ws : list str) i j :
  Forall is_word ws -> Forall is_word (slice ws i j).
Proof. intros H. unfold slice. apply Forall_take, Forall_drop, H. Qed.

(** The words of the chunks of a sentence are the words of the sentence. *)
Lemma sentence_chunks_words sentence :
  concat (map split (sentence_chunks sentence)) = split sentence.
Proof.
  unfold sentence_chunks.
  rewrite <- (range_step_covers (split sentence)) at 2.
  induction (range_step (length (split sentence)) 8) as [|i idx IH];
    [reflexivity|].
  cbn [flat_map map concat]. rewrite map_app, concat_app, IH. f_equal.
  pose proof (slice_words (split sentence) i (i + 8) (split_words sentence)) as Hw.
  destruct (slice (split sentence) i (i + 8)) as [|w ws] eqn:E; [reflexivity|].
  cbn [map concat]. rewrite app_nil_r. apply split_join, Hw.
Qed.

Lemma caption_segments_words story_text :
  concat (map split (caption_segments story_text)) = split story_text.
Proof.
  unfold caption_segments.
  rewrite <- re_split_sentences_words.
  induction (re_split_sentences story_text) as [|s ss IH]; [reflexivity|].
  cbn [flat_map map concat]. rewrite map_app, concat_app, IH.
  f_equal. apply sentence_chunks_words.
Qed.

(** Every segment holds between one and eight words. *)
Lemma sentence_chunks_sizes sentence :
  Forall (fun seg => 1 <= length (split seg) <= 8) (sentence_chunks sentence).
Proof.
  unfold sentence_chunks.
  induction (range_step (length (split sentence)) 8) as [|i idx IH];
    [constructor|].
  cbn [flat_map]. apply Forall_app. split; [|exact IH].
  pose proof (slice_words (split sentence) i (i + 8) (split_words sentence)) as Hw.
  assert (length (slice (split sentence) i (i + 8)) <= 8) as Hlen.
  { unfold slice. rewrite length_take. lia. }
  destruct (slice (split sentence) i (i + 8)) as [|w ws] eqn:E; [constructor|].
  constructor; [|constructor]. rewrite (split_join _ Hw). simpl in *. lia.
Qed.

Lemma caption_segments_sizes story_text :
  Forall (fun seg => 1 <= length (split seg) <= 8) (caption_segments story_text).
Proof.
  unfold caption_segments.
  induction (re_split_sentences story_text) as [|s ss IH]; [constructor|].
  cbn [flat_map]. apply Forall_app. split; [apply sentence_chunks_sizes|exact IH].
Qed.

(** No word, no segment; and conversely. *)
Lemma caption_segments_nil story_text :
  caption_segments story_text = [] <-> split story_text = [].
Proof.
  rewrite <- caption_segments_words. split.
  - intros ->. reflexivity.
  - intros H. pose proof (caption_segments_sizes story_text) as Hs.
    destruct (caption_segments story_text) as [|seg segs]; [reflexivity|].
    apply Forall_cons in Hs as [Hseg _]. cbn [map concat] in H.
    destruct (split seg); [simpl in Hseg; lia|discriminate].
Qed.

End Chunks.

(** ** Shape of the caption track (any arithmetic) *)

Section Track.
Context {F : Type} {num : NumOps F}.

Lemma length_segment_times_from (c : F) segments :
  length (segment_times_from c segments) = length segments.
Proof.
  revert c. induction segments as [|g gs IH]; intros c; simpl; [|rewrite IH]; reflexivity.
Qed.

Lemma length_fit_times (duration : F) times :
  length (fit_times duration times) = length times.
Proof.
  unfold fit_times. destruct (last (snd <$> times)); [|reflexivity].
  destruct (gtb _ _); [apply length_map|reflexivity].
Qed.

Lemma synthesize_texts story_text (duration : F) :
  map seg_text (synthesize story_text duration) = caption_segments story_text.
Proof.
  unfold synthesize. rewrite map_map.
  assert (length (fit_times duration (provisional_times (caption_segments story_text)))
          = length (caption_segments story_text)) as Hlen.
  { rewrite length_fit_times. apply length_segment_times_from. }
  revert Hlen. generalize (fit_times duration (provisional_times (caption_segments story_text))).
  induction (caption_segments story_text) as [|g gs IH]; intros [|[s e] ts] Hlen;
    try discriminate; [reflexivity|].
  simpl. f_equal. apply IH. simpl in Hlen. lia.
Qed.

Lemma synthesize_times story_text (duration : F) :
  map (fun g => (seg_start g, seg_end g)) (synthesize story_text duration)
  = fit_times duration (provisional_times (caption_segments story_text)).
Proof.
  unfold synthesize. rewrite map_map.
  assert (length (fit_times duration (provisional_times (caption_segments story_text)))
          = length (caption_segments story_text)) as Hlen.
  { rewrite length_fit_times. apply length_segment_times_from. }
  revert Hlen. generalize (fit_times duration (provisional_times (caption_segments story_text))).
  induction (caption_segments story_text) as [|g gs IH]; intros [|[s e] ts] Hlen;
    try discriminate; [reflexivity|].
  simpl. f_equal. apply IH. simpl in Hlen. lia.
Qed.

Lemma length_synthesize story_text (duration : F) :
  length (synthesize story_text duration) = length (caption_segments story_text).
Proof. rewrite <- (synthesize_texts story_text duration). symmetry. apply length_map. Qed.

End Track.

(** ** Ordering of the caption track in exact arithmetic *)

Section Ordering.
Local Open Scope Q_scope.

Lemma Qltb_lt x y : Qltb x y = true <-> x < y.
Proof.
  unfold Qltb. rewrite negb_true_iff, <- not_true_iff_false, Qle_bool_iff.
  split; [apply Qnot_le_lt|apply Qlt_not_le].
Qed.

Lemma Qltb_ge x y : Qltb x y = false <-> y <= x.
Proof.
  unfold Qltb. rewrite negb_false_iff. apply Qle_bool_iff.
Qed.

Lemma py_max_lower (x : Q) : 3 # 2 <= py_max x (3 # 2).
Proof.
  unfold py_max, gtb. cbn [ltb Q_num].
  destruct (Qltb x (3 # 2)) eqn:E; [lra|]. apply Qltb_ge in E. exact E.
Qed.

Lemma segment_duration_lower (segment : str) :
  3 # 2 <= segment_duration (F:=Q) segment.
Proof. apply py_max_lower. Qed.

Lemma chain_segment_times_from lo c segments :
  lo < c -> chain lo (segment_times_from (F:=Q) c segments).
Proof.
  revert lo c. induction segments as [|g gs IH]; intros lo c Hc; [exact I|].
  cbn [segment_times_from chain add Q_num lit].
  pose proof (segment_duration_lower g) as Hd.
  split; [exact Hc|]. split; [lra|]. apply IH. lra.
Qed.

Lemma chain_scale k lo times :
  0 < k -> chain lo times ->
  chain (lo * k) (map (fun '(s, e) => (s * k, e * k)) times).
Proof.
  intros Hk. revert lo. induction times as [|[s e] ts IH]; intros lo; [trivial|].
  cbn [map chain]. intros (H1 & H2 & H3).
  split; [nra|]. split; [nra|]. apply IH, H3.
Qed.

Lemma chain_weaken lo lo' times : lo' <= lo -> chain lo times -> chain lo' times.
Proof. destruct times as [|[s e] ts]; [trivial|]. simpl. intros ? (?&?&?). repeat split; trivial; lra. Qed.

Lemma chain_last lo times last_end :
  chain lo times -> last (snd <$> times) = Some last_end -> lo < last_end.
Proof.
  revert lo. induction times as [|[s e] ts IH]; intros lo; [discriminate|].
  cbn [chain]. intros (H1 & H2 & H3). destruct ts as [|t ts].
  - simpl. intros [= <-]. lra.
  - change (last (snd <$> (s, e) :: t :: ts)) with (last (snd <$> t :: ts)).
    intros Hl. specialize (IH e H3 Hl). lra.
Qed.

Lemma chain_lookup lo times i s e :
  chain lo times -> times !! i = Some (s, e) -> lo < s /\ s < e.
Proof.
  revert lo i. induction times as [|[s' e'] ts IH]; intros lo i; [discriminate|].
  cbn [chain]. intros (H1 & H2 & H3). destruct i as [|i]; simpl.
  - intros [= <- <-]. split; assumption.
  - intros Hi. destruct (IH e' i H3 Hi). split; lra.
Qed.

Lemma chain_adjacent lo times i s1 e1 s2 e2 :
  chain lo times ->
  times !! i = Some (s1, e1) -> times !! (S i) = Some (s2, e2) ->
  e1 < s2.
Proof.
  revert lo i. induction times as [|[s' e'] ts IH]; intros lo i; [discriminate|].
  cbn [chain]. intros (H1 & H2 & H3). destruct i as [|i]; simpl.
  - intros [= <- <-] Hi. apply (chain_lookup _ _ _ _ _ H3 Hi).
  - apply (IH e' i H3).
Qed.

Lemma last_map_scale k times last_end :
  last (snd <$> times) = Some last_end ->
  last (snd <$> map (fun '(s, e) => (s * k, e * k)) times) = Some (last_end * k).
Proof.
  induction times as [|[s e] ts IH]; [discriminate|].
  destruct ts as [|t ts].
  - simpl. intros [= <-]. reflexivity.
  - change (last (snd <$> (s, e) :: t :: ts)) with (last (snd <$> t :: ts)).
    intros Hl. specialize (IH Hl). destruct t as [s' e'].
    exact IH.
Qed.

(** After the rescaling step the intervals are still ordered, provided
    the factor is positive, that is, [1 < duration]. *)
Lemma chain_fit_times duration times :
  1 < duration -> chain 0 times ->
  chain 0 (fit_times (F:=Q) duration times).
Proof.
  intros Hd Hc. unfold fit_times.
  destruct (last (snd <$> times)) as [last_end|] eqn:El; [|exact Hc].
  destruct (gtb last_end (sub duration (of_int 1))) eqn:Eg; [|exact Hc].
  pose proof (chain_last _ _ _ Hc El) as Hpos.
  cbn [sub div mul of_int Q_num].
  apply (chain_weaken (0 * ((duration - inject_Z 1) / last_end)));
    [lra|].
  apply chain_scale; [|exact Hc].
  apply Qlt_shift_div_l; [exact Hpos|]. change (inject_Z 1) with 1. lra.
Qed.

(** When the rescaling step runs, the last end lands on [duration - 1]. *)
Lemma fit_times_last duration times last_end :
  chain 0 times ->
  overruns (F:=Q) duration times = true ->
  last (snd <$> fit_times (F:=Q) duration times) = Some last_end ->
  last_end == duration - 1.
Proof.
  intros Hc. unfold overruns, fit_times.
  destruct (last (snd <$> times)) as [e|] eqn:El; [|discriminate].
  intros ->. cbn [sub div mul of_int Q_num].
  rewrite (last_map_scale _ _ _ El). intros [= <-].
  pose proof (chain_last _ _ _ Hc El) as Hpos.
  change (inject_Z 1) with 1. field. lra.
Qed.

Lemma chain_provisional segments : chain 0 (provisional_times (F:=Q) segments).
Proof. apply chain_segment_times_from. reflexivity. Qed.

End Ordering.


(** ** The monad's exception handlers *)

Section Handlers.
Context {F : Type} {num : NumOps F}.

Lemma total_ret {A} (a : A) : total (F:=F) (ret a).
Proof. intros w. exists a, w. reflexivity. Qed.

Lemma total_print (m : message F) : total (print m).
Proof. intros w. eexists _, _. reflexivity. Qed.

Lemma total_bind {A B} (m : M F A) (k : A -> M F B) :
  total m -> (forall a, total (k a)) -> total (bind m k).
Proof.
  intros Hm Hk w. destruct (Hm w) as (a & w1 & E). unfold bind. rewrite E. apply Hk.
Qed.

(** A [try] whose handler cannot raise cannot raise. *)
Lemma total_try_except {A} (body : M F A) (handler : exn -> M F A) :
  (forall e, total (handler e)) -> total (try_except body handler).
Proof.
  intros Hh w. unfold try_except.
  destruct (body w) as [[a|e] w1]; [exists a, w1; reflexivity|apply Hh].
Qed.

Lemma total_exists_ (p : string) : total (exists_ (F:=F) p).
Proof. intros w. eexists _, _. reflexivity. Qed.

End Handlers.


(** ** The session workspace *)

Section Workspace.
Context {F : Type} {num : NumOps F} (env : Env F).

Lemma under_refl p : under p p = true.
Proof. unfold under. rewrite String.eqb_refl. reflexivity. Qed.

Lemma cleanup_session_total session_dir : total (cleanup_session env session_dir).
Proof. apply total_try_except. intros e. apply total_print. Qed.

(** Destroying what does not exist changes nothing. *)
Lemma cleanup_session_absent session_dir (w : World F) :
  session_dir ∉ dirs w -> files w !! session_dir = None ->
  cleanup_session env session_dir w = (Ok tt, w).
Proof.
  intros Hd Hf. unfold cleanup_session, try_except, bind, exists_, path_exists.
  rewrite (bool_decide_eq_false_2 _ Hd).
  rewrite bool_decide_eq_false_2; [reflexivity|].
  rewrite Hf. intros [? [=]].
Qed.

(** A successful removal leaves nothing at the place of the workspace. *)
Lemma rmtree_removed p (w w' : World F) :
  shutil_rmtree env w p = Removed ->
  rmtree env p w = (Ok tt, w') ->
  (p ∉ dirs w') ∧ (files w' !! p = None).
Proof.
  unfold rmtree. intros ->. intros [= <-]. cbn [dirs files]. split.
  - rewrite elem_of_filter, under_refl. intros [[=] _].
  - apply map_lookup_filter_None_2. right. intros x _. cbn. rewrite under_refl.
    discriminate.
Qed.

(** Whatever the removal does, it does below the workspace. *)
Lemma rmtree_local p q r (w w' : World F) :
  rmtree env p w = (r, w') -> under p q = false ->
  (q ∈ dirs w' <-> q ∈ dirs w) /\ files w' !! q = files w !! q /\ trace w' = trace w.
Proof.
  unfold rmtree. intros E Hq.
  destruct (shutil_rmtree env w p) as [|e gone]; injection E as <- <-; cbn [dirs files trace].
  - split; [|split; [|reflexivity]].
    + rewrite elem_of_filter. tauto.
    + destruct (files w !! q) as [n|] eqn:Eq.
      * apply map_lookup_filter_Some_2; [exact Eq|exact Hq].
      * apply map_lookup_filter_None_2. left. exact Eq.
  - split; [|split; [|reflexivity]].
    + rewrite elem_of_filter. split; [tauto|]. intros H. split; [|exact H].
      rewrite Hq. intros [[=] _].
    + destruct (files w !! q) as [n|] eqn:Eq.
      * apply map_lookup_filter_Some_2; [exact Eq|]. cbn. rewrite Hq. intros [[=] _].
      * apply map_lookup_filter_None_2. left. exact Eq.
Qed.

End Workspace.

(** C8.  Destroying a workspace never raises: called twice on the same
    workspace, both calls return normally; on a workspace that does not
    exist (never created, or already removed by a first call that
    succeeded) it changes nothing; a failure of the removal is printed, not
    propagated; and nothing outside the workspace is touched. *)
Theorem cleanup_session_idempotent {F : Type} {num : NumOps F}
    (env : Env F) (session_dir : string) (w : World F) :
  exists w1 w2,
    cleanup_session env session_dir w = (Ok tt, w1)
    /\ cleanup_session env session_dir w1 = (Ok tt, w2)
    /\ ((session_dir ∉ dirs w) /\ files w !! session_dir = None -> w1 = w)
    /\ (shutil_rmtree env w session_dir = Removed -> w2 = w1)
    /\ (forall e gone,
          (session_dir ∈ dirs w) \/ is_Some (files w !! session_dir) ->
          shutil_rmtree env w session_dir = Rmtree_raises e gone ->
          trace w1 = trace w ++ [Printed (Failed_to_cleanup_session_directory e)])
    /\ (forall q, under session_dir q = false ->
          (q ∈ dirs w1 <-> q ∈ dirs w) /\ files w1 !! q = files w !! q).
Proof.
  destruct (cleanup_session_total env session_dir w) as ([] & w1 & E1).
  destruct (cleanup_session_total env session_dir w1) as ([] & w2 & E2).
  exists w1, w2. split; [exact E1|]. split; [exact E2|].
  assert (forall v : World F,
             (session_dir ∉ dirs v) -> files v !! session_dir = None ->
             forall v', cleanup_session env session_dir v = (Ok tt, v') -> v' = v) as Habsent.
  { intros v Hd Hf v' E. rewrite (cleanup_session_absent env _ _ Hd Hf) in E. congruence. }
  split; [intros [Hd Hf]; exact (Habsent w Hd Hf w1 E1)|].
  revert E1. unfold cleanup_session at 1, try_except, bind, exists_, path_exists.
  destruct (bool_decide (session_dir ∈ dirs w)
            || bool_decide (is_Some (files w !! session_dir))) eqn:Ex.
  - destruct (rmtree env session_dir w) as [[[]|e] w'] eqn:Erm.
    + intros [= ->]. split; [|split].
      * intros Hrm. destruct (rmtree_removed env _ _ _ Hrm Erm) as [Hd Hf].
        exact (Habsent w1 Hd Hf w2 E2).
      * intros e gone _ Hrm. unfold rmtree in Erm. rewrite Hrm in Erm. discriminate.
      * intros q Hq. destruct (rmtree_local env _ _ _ _ _ Erm Hq) as (H1 & H2 & _).
        split; assumption.
    + unfold print, log. intros [= <-]. cbn [dirs files trace]. split; [|split].
      * intros Hrm. unfold rmtree in Erm. rewrite Hrm in Erm. discriminate.
      * intros e' gone _ Hrm. unfold rmtree in Erm. rewrite Hrm in Erm.
        injection Erm as <- <-. reflexivity.
      * intros q Hq. destruct (rmtree_local env _ _ _ _ _ Erm Hq) as (H1 & H2 & _).
        split; assumption.
  - intros [= <-]. apply orb_false_iff in Ex as [Hd Hf].
    apply bool_decide_eq_false in Hd, Hf.
    split; [|split].
    + intros _. apply (Habsent w Hd); [|exact E2].
      destruct (files w !! session_dir); [exfalso; apply Hf; eauto|reflexivity].
    + intros e gone [Hin|Hin]; contradiction.
    + intros q _. split; reflexivity.
Qed.

(** ** Reading a run backwards *)

Section Inversion.
Context {F : Type} {num : NumOps F}.

Lemma bind_Ok {A B} (m : M F A) (k : A -> M F B) w b w' :
  bind m k w = (Ok b, w') ->
  exists a w1, m w = (Ok a, w1) /\ k a w1 = (Ok b, w').
Proof.
  unfold bind. destruct (m w) as [[a|e] w1]; [|discriminate].
  intros H. exists a, w1. split; [reflexivity|exact H].
Qed.

Lemma try_except_result {A} (body : M F A) (handler : exn -> M F A) w r w' :
  try_except body handler w = (r, w') ->
  (exists a, body w = (Ok a, w') /\ r = Ok a)
  \/ (exists e w1, body w = (Raise e, w1) /\ handler e w1 = (r, w')).
Proof.
  unfold try_except. destruct (body w) as [[a|e] w1].
  - intros [= <- <-]. left. exists a. split; reflexivity.
  - intros H. right. exists e, w1. split; [reflexivity|exact H].
Qed.

Lemma ret_Ok {A} (a b : A) (w w' : World F) :
  ret a w = (Ok b, w') -> a = b /\ w = w'.
Proof. intros [= -> ->]. split; reflexivity. Qed.

Lemma print_Ok (m : message F) u (w w' : World F) :
  print m w = (Ok u, w') ->
  dirs w' = dirs w /\ files w' = files w /\ trace w' = trace w ++ [Printed m].
Proof. intros [= _ <-]. cbn. repeat split; reflexivity. Qed.

Lemma st_size_Ok p n (w w' : World F) :
  st_size p w = (Ok n, w') -> w' = w /\ files w !! p = Some n.
Proof.
  unfold st_size. destruct (files w !! p); [|discriminate].
  intros [= <- <-]. split; reflexivity.
Qed.

End Inversion.

(** ** The composition never raises *)

Section Composition.
Context {F : Type} {num : NumOps F} (env : Env F).

Lemma create_story_video_total image_base64 audio_path story_text title
    session_dir enable_captions :
  total (create_story_video env image_base64 audio_path story_text title
           session_dir enable_captions).
Proof.
  apply total_try_except. intros e.
  apply total_bind; [apply total_print|intros _; apply total_ret].
Qed.

End Composition.

(** C10.  [create_story_video] returns normally on every input and in
    every environment: its result is [None] or the path of the output
    video, and it is the path only when the output file exists. *)
Theorem create_story_video_never_raises {F : Type} {num : NumOps F}
    (env : Env F) (image_base64 audio_path : option string)
    (story_text title : str) (session_dir : string) (enable_captions : bool)
    (w : World F) :
  exists v w',
    create_story_video env image_base64 audio_path story_text title
      session_dir enable_captions w = (Ok v, w')
    /\ (v = None
        \/ v = Some (session_dir </> "story_video.mp4")
           /\ is_Some (files w' !! (session_dir </> "story_video.mp4"))).
Proof.
  destruct (create_story_video_total env image_base64 audio_path story_text
              title session_dir enable_captions w) as (v & w' & E).
  exists v, w'. split; [exact E|].
  destruct v as [p|]; [right|left; reflexivity].
  apply try_except_result in E as [(a & E & [= <-])|(e & w1 & _ & E)].
  - apply bind_Ok in E as (_ & w1 & _ & E).
    apply bind_Ok in E as (saved & w2 & _ & E).
    destruct (negb saved).
    { apply bind_Ok in E as (_ & ? & _ & [= ]). }
    apply bind_Ok in E as (duration & w3 & _ & E).
    apply bind_Ok in E as (_ & w4 & _ & E).
    apply bind_Ok in E as (subtitle_path & w5 & _ & E).
    apply bind_Ok in E as (success & w6 & _ & E).
    apply bind_Ok in E as (made & w7 & _ & E).
    destruct (success && made); [|discriminate].
    apply bind_Ok in E as (size & w8 & Hsize & E).
    apply bind_Ok in E as (u & w9 & Hprint & E).
    apply ret_Ok in E as [[= <-] <-].
    apply st_size_Ok in Hsize as [-> Hsize].
    apply print_Ok in Hprint as (_ & -> & _).
    split; [reflexivity|]. rewrite Hsize. eauto.
  - apply bind_Ok in E as (_ & ? & _ & [=]).
Qed.

(** ** Running a computation forwards *)

Section Forward.
Context {F : Type} {num : NumOps F}.

Lemma bind_run_Ok {A B} (m : M F A) (k : A -> M F B) w a w1 :
  m w = (Ok a, w1) -> bind m k w = k a w1.
Proof. unfold bind. intros ->. reflexivity. Qed.

Lemma bind_run_Raise {A B} (m : M F A) (k : A -> M F B) w e w1 :
  m w = (Raise e, w1) -> bind m k w = (Raise e, w1).
Proof. unfold bind. intros ->. reflexivity. Qed.

Lemma try_except_run_Ok {A} (body : M F A) handler w a w1 :
  body w = (Ok a, w1) -> try_except body handler w = (Ok a, w1).
Proof. unfold try_except. intros ->. reflexivity. Qed.


End Forward.

(** ** The duration probe *)

Section Probe.
Context {F : Type} {num : NumOps F} (env : Env F).

(** With the inspection tool failing, the [try] block of
    [_get_audio_duration] is left without a [return]. *)
Lemma inspection_block_falls_through audio_path (w : World F) :
  inspection_fails env audio_path ->
  exists w1,
    try_except
      (import env "imageio_ffmpeg" ;;;
       ffprobe_exe <- of_result (get_ffmpeg_exe env) ;;
       result <- subprocess_run_ffprobe env audio_path ;;
       let '(returncode, stdout) := result in
       if (returncode =? 0)%Z && negb (bool_decide (strip stdout = [])) then
         d <- float_of env (strip stdout) ;; ret (Some d)
       else ret None)
      (fun e => print (Could_not_get_audio_duration e) ;;; ret None) w
    = (Ok None, w1)
    /\ files w1 = files w /\ dirs w1 = dirs w.
Proof.
  intros Hfail.
  assert (forall (r : Result (option F)) (v : World F),
             r = Ok None -> files v = files w -> dirs v = dirs w ->
             exists w1, (r, v) = (Ok None, w1) /\ files w1 = files w /\ dirs w1 = dirs w)
    as Hdone by (intros r v -> ? ?; exists v; repeat split; assumption).
  unfold try_except, import, of_error, of_result, subprocess_run_ffprobe, float_of.
  destruct (import_module env "imageio_ffmpeg") as [e0|] eqn:Eimp;
    [apply Hdone; reflexivity|].
  destruct (get_ffmpeg_exe env) as [exe|e1] eqn:Eexe;
    [|apply Hdone; reflexivity].
  destruct (run_ffprobe env audio_path) as [rc out|e2] eqn:Erun;
    [|apply Hdone; reflexivity].
  cbv beta iota zeta delta [bind log ret print raise].
  destruct ((rc =? 0)%Z && negb (bool_decide (strip out = []))) eqn:Egood;
    [|apply Hdone; reflexivity].
  destruct (py_float env (strip out)) as [d|] eqn:Efloat;
    [|apply Hdone; reflexivity].
  exfalso. apply andb_true_iff in Egood as [Hrc Hout].
  apply Z.eqb_eq in Hrc. apply negb_true_iff, bool_decide_eq_false in Hout.
  destruct Hfail as [[e He]|[[e He]|[[e He]|(rc' & out' & He & Hbad)]]];
    try congruence.
  assert (rc' = rc /\ out' = out) as [-> ->] by (split; congruence).
  destruct Hbad as [Hbad|[Hbad|Hbad]]; congruence.
Qed.

Lemma get_audio_duration_fallback audio_path size (w : World F) :
  files w !! audio_path = Some size ->
  inspection_fails env audio_path ->
  exists w',
    _get_audio_duration env audio_path w
    = (Ok (Some (div (of_int (Z.of_N size)) (of_int 16000))), w')
    /\ files w' = files w /\ dirs w' = dirs w.
Proof.
  intros Hsize Hfail.
  destruct (inspection_block_falls_through audio_path w Hfail) as (w1 & E & Hf & Hd).
  exists w1. unfold _get_audio_duration. rewrite (bind_run_Ok _ _ _ _ _ E).
  unfold try_except, bind, st_size. rewrite Hf, Hsize. repeat split; assumption.
Qed.

(** The probe never raises. *)
Lemma get_audio_duration_total audio_path : total (_get_audio_duration env audio_path).
Proof.
  unfold _get_audio_duration. apply total_bind.
  - apply total_try_except. intros e.
    apply total_bind; [apply total_print|intros _; apply total_ret].
  - intros [d|]; [apply total_ret|].
    apply total_try_except. intros _. apply total_ret.
Qed.

End Probe.

(** C5.  With the inspection tool unavailable or failing, the probe of an
    audio file of [size] bytes returns [size / 16000]; for 480,000 bytes
    that quotient is 30.0 exactly, in binary64 as in exact arithmetic. *)
Theorem probe_fallback_estimate :
  (forall (F : Type) (num : NumOps F) (env : Env F) (audio_path : string)
          (size : N) (w : World F),
      files w !! audio_path = Some size ->
      inspection_fails env audio_path ->
      exists w', _get_audio_duration env audio_path w
                 = (Ok (Some (div (of_int (Z.of_N size)) (of_int 16000))), w'))
  /\ div (F:=float) (of_int (Z.of_N 480000)) (of_int 16000) = 30%float
  /\ (div (F:=Q) (of_int (Z.of_N 480000)) (of_int 16000) == 30)%Q.
Proof.
  split; [|split; reflexivity].
  intros F num env audio_path size w Hsize Hfail.
  destruct (get_audio_duration_fallback env audio_path size w Hsize Hfail)
    as (w' & E & _).
  exists w'. exact E.
Qed.

(** Witness of C5: a narration of 480,000 bytes, no inspection tool. *)
Lemma probe_fallback_estimate_witness :
  exists w',
    _get_audio_duration (F:=float) env_no_tool
      "/tmp/kathachitra/0000/story_narration.mp3" (narrated_world 480000)
    = (Ok (Some 30%float), w').
Proof.
  apply (proj1 probe_fallback_estimate float float_num env_no_tool
           "/tmp/kathachitra/0000/story_narration.mp3" 480000%N
           (narrated_world 480000)).
  - vm_compute. reflexivity.
  - right. right. left. exists FileNotFoundError. reflexivity.
Defined.

(** ** The duration of the video *)

Section Duration.
Context {F : Type} {num : NumOps F} (env : Env F).

Lemma video_duration_no_audio audio_path (w : World F) :
  match audio_path with Some a => path_exists w a | None => false end = false ->
  video_duration env audio_path w = (Ok (of_int 30), w).
Proof.
  unfold video_duration, bind, present, exists_, ret.
  destruct audio_path as [a|]; [|reflexivity].
  intros ->. reflexivity.
Qed.

Lemma video_duration_audio a probed (w w' : World F) :
  path_exists w a = true ->
  _get_audio_duration env a w = (Ok probed, w') ->
  video_duration env (Some a) w
  = (Ok (add (match probed with
              | None => of_int 30
              | Some d => if ltb d (of_int 5) then of_int 30 else d
              end) (of_int 2)), w').
Proof.
  intros Hex E. unfold video_duration, bind, present, exists_, ret.
  rewrite Hex, E. reflexivity.
Qed.

End Duration.

(** C3, as the code has it.  Without an audio file the duration is 30.
    With one, the probe's value [d] gives [d + 2] when [5 <= d]; when the
    probe returns nothing or a value below 5, the default 30 is padded like
    a probed value and the duration is 32. *)
Theorem video_duration_policy (env : Env Q) (audio_path : option string) (w : World Q) :
  exists d w',
    video_duration env audio_path w = (Ok d, w')
    /\ match audio_path with
       | Some a =>
           if path_exists w a then
             exists probed,
               _get_audio_duration env a w = (Ok probed, w')
               /\ match probed with
                  | Some p => (5 <= p -> d == p + 2)%Q /\ (p < 5 -> d == 32)%Q
                  | None => (d == 32)%Q
                  end
           else (d == 30)%Q
       | None => (d == 30)%Q
       end.
Proof.
  destruct audio_path as [a|].
  - destruct (path_exists w a) eqn:Hex.
    + destruct (get_audio_duration_total env a w) as (probed & w' & E).
      eexists _, w'. split; [apply (video_duration_audio env a probed w w' Hex E)|].
      exists probed. split; [exact E|].
      destruct probed as [p|]; [|reflexivity].
      cbn [ltb add of_int Q_num].
      destruct (Qltb p (inject_Z 5)) eqn:Elt.
      * apply Qltb_lt in Elt. change (inject_Z 5) with 5%Q in Elt.
        split; [intros H; lra|intros _; reflexivity].
      * apply Qltb_ge in Elt. change (inject_Z 5) with 5%Q in Elt.
        change (inject_Z 2) with 2%Q.
        split; [intros _; reflexivity|intros H; lra].
    + exists (of_int 30), w. split.
      * apply video_duration_no_audio. exact Hex.
      * reflexivity.
  - exists (of_int 30), w. split; [apply video_duration_no_audio|]; reflexivity.
Qed.

(** C3 as stated fails: a narration of 16,000 bytes and no inspection tool
    give a probed value of 1 second, below the floor of 5, and the duration
    is 32 seconds, not 30. *)
Lemma video_duration_default_is_padded :
  exists w',
    _get_audio_duration (F:=Q) env_no_tool
      "/tmp/kathachitra/0000/story_narration.mp3" (narrated_world 16000)
    = (Ok (Some (16000 / 16000)%Q), w')
    /\ (16000 / 16000 < 5)%Q
    /\ video_duration (F:=Q) env_no_tool
         (Some "/tmp/kathachitra/0000/story_narration.mp3") (narrated_world 16000)
       = (Ok (30 + 2)%Q, w')
    /\ ~ (30 + 2 == 30)%Q.
Proof.
  eexists. split; [vm_compute; reflexivity|].
  split; [reflexivity|]. split; [vm_compute; reflexivity|]. intros H. discriminate H.
Qed.

(** ** The caption track *)

(** C9.  The words of the segments of the caption track, in order, are the
    words of the story text: the sentence split and the chunking drop,
    duplicate and reorder nothing. *)
Theorem caption_words_preserved {F : Type} {num : NumOps F}
    (story_text : str) (duration : F) :
  concat (map (fun g => split (seg_text g)) (synthesize story_text duration))
  = split story_text.
Proof.
  rewrite <- (map_map seg_text split), synthesize_texts.
  apply caption_segments_words.
Qed.

(** C4, as the code has it.  The track has a segment exactly when the text
    has a word.  A text without a word (empty, or white space only) gives
    no segment, and [_create_subtitle_file] then returns [None] without
    raising, printing or writing anything. *)
Theorem synthesize_empty_iff_no_word {F : Type} {num : NumOps F}
    (env : Env F) (story_text : str) (duration : F) (session_dir : string)
    (w : World F) :
  (synthesize story_text duration = [] <-> split story_text = [])
  /\ split [] = []
  /\ (split story_text = [] ->
      _create_subtitle_file env story_text duration session_dir w = (Ok None, w)).
Proof.
  assert (synthesize story_text duration = [] <-> caption_segments story_text = [])
    as Hlen.
  { pose proof (length_synthesize story_text duration) as H.
    split; intros E; rewrite E in H; simpl in H.
    - destruct (caption_segments story_text); [reflexivity|discriminate].
    - destruct (synthesize story_text duration); [reflexivity|discriminate]. }
  split; [rewrite Hlen; apply caption_segments_nil|].
  split; [reflexivity|].
  intros Hno. apply caption_segments_nil in Hno.
  unfold _create_subtitle_file, try_except. rewrite Hno. reflexivity.
Qed.

(** C4 as stated fails: a text of one space is not empty and gives no
    segment. *)
Lemma synthesize_blank_text :
  of_string " " <> [] /\ synthesize (F:=Q) (of_string " ") 30%Q = [].
Proof. split; [discriminate|reflexivity]. Qed.

(** C1, as the code has it, in exact arithmetic: for a duration above one
    second every segment starts before it ends, starts are strictly
    increasing, a segment ends before the next one starts, and when the
    rescaling step runs the last segment ends at most at [duration - 1]. *)
Theorem caption_track_ordered (story_text : str) (duration : Q) :
  (1 < duration)%Q ->
  let track := synthesize story_text duration in
  Forall (fun g => seg_start g < seg_end g)%Q track
  /\ (forall i a b,
        track !! i = Some a -> track !! (S i) = Some b ->
        (seg_start a < seg_start b /\ seg_end a <= seg_start b)%Q)
  /\ (overruns duration (provisional_times (caption_segments story_text)) = true ->
      forall g, last track = Some g -> (seg_end g <= duration - 1)%Q).
Proof.
  intros Hd track.
  pose proof (synthesize_times story_text duration) as Ht. fold track in Ht.
  pose proof (chain_fit_times duration _ Hd
                (chain_provisional (caption_segments story_text))) as Hc.
  rewrite <- Ht in Hc.
  assert (forall i g, track !! i = Some g ->
            map (fun g => (seg_start g, seg_end g)) track !! i
            = Some (seg_start g, seg_end g)) as Hl.
  { intros i g Hg. change (map ?f ?l) with (f <$> l).
    rewrite list_lookup_fmap, Hg. reflexivity. }
  split; [|split].
  - apply Forall_lookup. intros i g Hg.
    apply (chain_lookup _ _ _ _ _ Hc (Hl i g Hg)).
  - intros i a b Ha Hb.
    pose proof (chain_lookup _ _ _ _ _ Hc (Hl i a Ha)) as [_ H1].
    pose proof (chain_adjacent _ _ _ _ _ _ _ Hc (Hl i a Ha) (Hl (S i) b Hb)) as H2.
    split; lra.
  - intros Hover g Hg.
    assert (last (snd <$> fit_times duration
                    (provisional_times (caption_segments story_text)))
            = Some (seg_end g)) as Hlast.
    { rewrite <- Ht. change (map ?f ?l) with (f <$> l).
      rewrite <- list_fmap_compose, fmap_last, Hg. reflexivity. }
    pose proof (fit_times_last duration _ _
                  (chain_provisional (caption_segments story_text)) Hover Hlast) as E.
    rewrite E. apply Qle_refl.
Qed.

(** Witness of C1. *)
Lemma caption_track_ordered_witness :
  let track := synthesize (F:=Q) fox 30%Q in
  Forall (fun g => seg_start g < seg_end g)%Q track
  /\ (forall i a b,
        track !! i = Some a -> track !! (S i) = Some b ->
        (seg_start a < seg_start b /\ seg_end a <= seg_start b)%Q)
  /\ (overruns 30%Q (provisional_times (caption_segments fox)) = true ->
      forall g, last track = Some g -> (seg_end g <= 30 - 1)%Q).
Proof. apply (caption_track_ordered fox 30%Q). reflexivity. Defined.

(** C1 as stated fails: with a duration of one second, which is positive,
    the rescaling factor is zero and the segment of a one-word text starts
    and ends at zero; the same happens in binary64. *)
Lemma caption_track_collapses :
  (0 < 1)%Q
  /\ (exists g, synthesize (F:=Q) (of_string "a") 1%Q = [g]
                /\ ~ (seg_start g < seg_end g)%Q)
  /\ map (fun g => (seg_start g, seg_end g))
       (synthesize (F:=float) (of_string "a") 1%float)
     = [(0%float, 0%float)].
Proof.
  split; [reflexivity|]. split; [|reflexivity].
  eexists. split; [reflexivity|]. cbn [seg_start seg_end]. vm_compute.
  intros H. discriminate H.
Qed.

(** ** The 120-word paragraph *)

Section Paragraph.

(** The timings depend on the segments through their word counts only. *)
Lemma segment_times_from_counts (c : Q) segments segments' :
  map (fun g => length (split g)) segments
  = map (fun g => length (split g)) segments' ->
  segment_times_from c segments = segment_times_from c segments'.
Proof.
  revert c segments'.
  induction segments as [|g gs IH]; intros c [|g' gs'] H; try discriminate;
    [reflexivity|].
  injection H as Hg Hgs. cbn [segment_times_from]. unfold segment_duration.
  rewrite Hg. f_equal. apply IH, Hgs.
Qed.

(** Full chunks have eight words each. *)
Lemma full_chunks_counts (words : list str) (idx : list nat) :
  Forall is_word words ->
  Forall (fun i => i + 8 <= length words) idx ->
  map (fun g => length (split g))
    (flat_map
       (fun i =>
          match slice words i (i + 8) with
          | [] => []
          | _ :: _ => [join [SPACE] (slice words i (i + 8))]
          end) idx)
  = repeat 8 (length idx).
Proof.
  intros Hw. induction 1 as [|i idx Hi _ IH]; [reflexivity|].
  cbn [flat_map length repeat]. rewrite map_app, IH. clear IH.
  pose proof (slice_words words i (i + 8) Hw) as Hs.
  assert (length (slice words i (i + 8)) = 8) as Hlen.
  { unfold slice. rewrite length_take, length_drop. lia. }
  destruct (slice words i (i + 8)) as [|x xs] eqn:E; [discriminate|].
  cbn [map app]. rewrite (split_join _ Hs), Hlen. reflexivity.
Qed.

Lemma one_sentence_chunks story_text :
  length (split story_text) = 120 ->
  length (re_split_sentences story_text) = 1 ->
  map (fun g => length (split g)) (caption_segments story_text) = repeat 8 15.
Proof.
  intros Hwords Hone. unfold caption_segments.
  pose proof (re_split_sentences_words story_text) as Hsame.
  destruct (re_split_sentences story_text) as [|s [|? ?]]; try discriminate.
  cbn [map concat flat_map] in *. rewrite !app_nil_r in *.
  unfold sentence_chunks. rewrite Hsame.
  rewrite (full_chunks_counts (split story_text)
             (range_step (length (split story_text)) 8)).
  - rewrite Hwords. reflexivity.
  - apply split_words.
  - rewrite Hwords. vm_compute. repeat constructor.
Qed.

End Paragraph.

(** C6, as the code has it, in exact arithmetic: a text of 120 words
    without a sentence break and a duration of 30 seconds give 15 segments
    of 8 words; the provisional timings run to 51.3 seconds, so the
    rescaling step runs, and it moves the first start from 0.5 to
    0.5 * 29 / 51.3 = 145/513 (about 0.283) and the last end to 29. *)
Theorem paragraph_of_120_words (story_text : str) :
  length (split story_text) = 120 ->
  length (re_split_sentences story_text) = 1 ->
  let track := synthesize (F:=Q) story_text 30%Q in
  length track = 15
  /\ Forall (fun g => length (split (seg_text g)) = 8) track
  /\ overruns 30%Q (provisional_times (caption_segments story_text)) = true
  /\ (exists g, head track = Some g /\ (seg_start g == 145 # 513)%Q)
  /\ (exists g, last track = Some g /\ (seg_end g == 29)%Q).
Proof.
  intros Hwords Hone track.
  pose proof (one_sentence_chunks story_text Hwords Hone) as Hcounts.
  assert (provisional_times (F:=Q) (caption_segments story_text)
          = provisional_times (repeat eight_words 15)) as Hprov.
  { apply segment_times_from_counts. rewrite Hcounts. reflexivity. }
  pose proof (synthesize_times (F:=Q) story_text 30%Q) as Ht.
  fold track in Ht. rewrite Hprov in Ht.
  assert (length track = 15) as Hlen.
  { unfold track. rewrite length_synthesize.
    rewrite <- (length_map (fun g => length (split g))), Hcounts. reflexivity. }
  split; [exact Hlen|]. split; [|split; [|split]].
  - pose proof (synthesize_texts (F:=Q) story_text 30%Q) as Htexts. fold track in Htexts.
    apply Forall_forall. intros g Hg.
    assert (In (length (split (seg_text g))) (repeat 8 15)) as Hin.
    { rewrite <- Hcounts, <- Htexts, map_map. apply in_map_iff. exists g.
      split; [reflexivity|apply list_elem_of_In, Hg]. }
    apply repeat_spec in Hin. exact Hin.
  - rewrite Hprov. reflexivity.
  - destruct track as [|g track']; [discriminate|]. exists g. split; [reflexivity|].
    cbn [map] in Ht.
    assert (head ((seg_start g, seg_end g)
                    :: map (fun g => (seg_start g, seg_end g)) track')
            = Some (seg_start g, seg_end g)) as Hhead by reflexivity.
    rewrite Ht in Hhead. revert Hhead. generalize (seg_start g) (seg_end g).
    intros s e. vm_compute. intros [= <- _]. reflexivity.
  - destruct (last track) as [g|] eqn:El.
    + exists g. split; [reflexivity|].
      assert (last (snd <$> map (fun g => (seg_start g, seg_end g)) track)
              = Some (seg_end g)) as Hlast.
      { change (map ?f ?l) with (f <$> l).
        rewrite <- list_fmap_compose, fmap_last, El. reflexivity. }
      rewrite Ht in Hlast. revert Hlast. generalize (seg_end g).
      intros e. vm_compute. intros [= <-]. reflexivity.
    + apply last_None in El. rewrite El in Hlen. discriminate.
Qed.

(** Witness of C6. *)
Lemma paragraph_of_120_words_witness :
  let track := synthesize (F:=Q) paragraph120 30%Q in
  length track = 15
  /\ Forall (fun g => length (split (seg_text g)) = 8) track
  /\ overruns 30%Q (provisional_times (caption_segments paragraph120)) = true
  /\ (exists g, head track = Some g /\ (seg_start g == 145 # 513)%Q)
  /\ (exists g, last track = Some g /\ (seg_end g == 29)%Q).
Proof.
  apply (paragraph_of_120_words paragraph120); vm_compute; reflexivity.
Defined.

(** C6 as stated fails twice.  For 120 words without a sentence break the
    first caption starts at 145/513 seconds, not within a tenth of a second
    of 0.5 (in binary64 it is below 0.3125 as well).  For 120 words in twelve
    sentences of ten words there are 24 segments, not 15. *)
Lemma paragraph_first_start_is_rescaled :
  length (split paragraph120) = 120
  /\ (exists g, head (synthesize (F:=Q) paragraph120 30%Q) = Some g
                /\ (seg_start g == 145 # 513)%Q
                /\ ~ (Qabs (seg_start g - (1 # 2)) <= 1 # 10)%Q)
  /\ ((fun g => PrimFloat.ltb (seg_start g) 0.3125) <$>
        head (synthesize (F:=float) paragraph120 30%float))
     = Some true
  /\ length (split paragraph120_sentences) = 120
  /\ length (synthesize (F:=Q) paragraph120_sentences 30%Q) = 24.
Proof.
  split; [vm_compute; reflexivity|]. split; [|split; [|split]].
  - eexists. split; [vm_compute; reflexivity|]. cbn [seg_start].
    split; [reflexivity|]. vm_compute. intros H. apply H. reflexivity.
  - vm_compute. reflexivity.
  - vm_compute. reflexivity.
  - vm_compute. reflexivity.
Qed.

(** ** The encoder degradation chain *)

Section Encoder.
Context {F : Type} {num : NumOps F} (env : Env F).

Lemma ffmpeg_runs_app (t t' : list (event F)) :
  ffmpeg_runs (t ++ t') = ffmpeg_runs t ++ ffmpeg_runs t'.
Proof. apply flat_map_app. Qed.

Lemma ffmpeg_runs_view (l : list (EncodePlan F)) :
  ffmpeg_runs (Ran_ffmpeg <$> l) = l.
Proof. induction l as [|c l IH]; [reflexivity|]. simpl. f_equal. exact IH. Qed.

Lemma encoder_view_print m (w : World F) :
  encoder_view {| dirs := dirs w; files := files w; trace := trace w ++ [Printed m] |}
  = encoder_view w.
Proof.
  unfold encoder_view. cbn [dirs files trace].
  rewrite ffmpeg_runs_app. cbn [ffmpeg_runs flat_map]. rewrite app_nil_r. reflexivity.
Qed.

Lemma encoder_view_retry (w : World F) :
  encoder_view
    {| dirs := dirs w; files := files w;
       trace := (trace w ++ [Printed FFmpeg_error])
                  ++ [Printed Retrying_without_captions] |}
  = encoder_view w.
Proof.
  unfold encoder_view. cbn [dirs files trace].
  rewrite !ffmpeg_runs_app. cbn [ffmpeg_runs flat_map]. rewrite !app_nil_r.
  reflexivity.
Qed.

Lemma path_exists_view (w : World F) p :
  path_exists (encoder_view w) p = path_exists w p.
Proof. reflexivity. Qed.

Lemma has_view (w : World F) p : has (encoder_view w) p = has w p.
Proof. destruct p; reflexivity. Qed.

(** Running a command commutes with taking the encoder's view. *)
Lemma run_view cmd (w : World F) :
  subprocess_run_ffmpeg env cmd (encoder_view w)
  = (fst (subprocess_run_ffmpeg env cmd w),
     encoder_view (snd (subprocess_run_ffmpeg env cmd w))).
Proof.
  unfold subprocess_run_ffmpeg, encoder_view. cbn [dirs files trace].
  rewrite ffmpeg_runs_view.
  destruct (run_ffmpeg env (ffmpeg_runs (trace w)) cmd) as [rc [n|]|[n|]|e];
    cbn [fst snd set_file_opt set_file dirs files trace];
    rewrite ffmpeg_runs_app, fmap_app; reflexivity.
Qed.

Lemma attempt_view out cmd (w : World F) :
  attempt env out cmd (encoder_view w)
  = (fst (attempt env out cmd w), encoder_view (snd (attempt env out cmd w))).
Proof.
  unfold attempt. rewrite run_view.
  destruct (subprocess_run_ffmpeg env cmd w) as [[rc|e] w']; cbn [fst snd].
  - rewrite path_exists_view. reflexivity.
  - destruct e; reflexivity.
Qed.

End Encoder.

Section Tiers.
Context {F : Type} {num : NumOps F} (env : Env F).
Variables (image_path : string) (audio_path : option string)
          (output_path : string) (duration : F).

Lemma present_has p (w : World F) : present p w = (Ok (has w p), w).
Proof. destruct p; reflexivity. Qed.

Lemma tier_plan_view subtitle_path t (w : World F) :
  tier_plan image_path audio_path subtitle_path output_path duration t
    (encoder_view w)
  = tier_plan image_path audio_path subtitle_path output_path duration t w.
Proof. unfold tier_plan. rewrite !has_view. reflexivity. Qed.

(** An attempt seen from the encoder is the attempt made after a print. *)
Lemma attempt_after_print m cmd (w : World F) :
  attempt env output_path cmd (encoder_view w)
  = ((attempt env output_path cmd
        {| dirs := dirs w; files := files w; trace := trace w ++ [Printed m] |}).1,
     encoder_view
       (attempt env output_path cmd
          {| dirs := dirs w; files := files w; trace := trace w ++ [Printed m] |}).2).
Proof. rewrite <- (encoder_view_print m w). apply attempt_view. Qed.

Lemma chain_cons subtitle_path advances t rest (w : World F) :
  degradation_chain env image_path audio_path subtitle_path output_path
    duration advances (t :: rest) w
  = (let '(st, w') :=
       attempt env output_path
         (tier_plan image_path audio_path subtitle_path output_path duration t w) w in
     if is_succeeded st then (true, w')
     else if advances st
          then degradation_chain env image_path audio_path subtitle_path
                 output_path duration advances rest w'
          else (false, w')).
Proof. reflexivity. Qed.

(** Tier C is one attempt. *)
Lemma simple_video_attempt subtitle_path (w : World F) :
  encoder_available env ->
  exists w',
    _create_simple_video env image_path audio_path output_path duration w
    = (Ok (degradation_chain env image_path audio_path subtitle_path
             output_path duration advances_on_exit [TierC] (encoder_view w)).1, w')
    /\ encoder_view w'
       = (degradation_chain env image_path audio_path subtitle_path
            output_path duration advances_on_exit [TierC] (encoder_view w)).2.
Proof.
  intros [Himp [exe Hexe]].
  unfold _create_simple_video, try_except, import, of_error, of_result.
  rewrite Himp, Hexe. cbv beta iota zeta delta [bind].
  rewrite present_has.
  cbn [degradation_chain]. rewrite tier_plan_view, attempt_view.
  unfold attempt, tier_plan.
  destruct (subprocess_run_ffmpeg env
              (simple_cmd image_path audio_path (has w audio_path) output_path duration) w)
    as [[rc|e] w1] eqn:Erun.
  - unfold exists_, ret. cbn [fst snd].
    exists w1. destruct ((rc =? 0)%Z && path_exists w1 output_path); split; reflexivity.
  - unfold print, log, ret. eexists. rewrite encoder_view_print.
    destruct e; split; reflexivity.
Qed.

(** Without a caption file the invocation is Tier B, then Tier C. *)
Lemma ffmpeg_without_captions subtitle_path depth (w : World F) :
  encoder_available env ->
  exists w',
    _create_video_ffmpeg_rec env (S depth) image_path audio_path None
      output_path duration w
    = (Ok (degradation_chain env image_path audio_path subtitle_path
             output_path duration advances_on_exit [TierB; TierC]
             (encoder_view w)).1, w')
    /\ encoder_view w'
       = (degradation_chain env image_path audio_path subtitle_path
            output_path duration advances_on_exit [TierB; TierC]
            (encoder_view w)).2.
Proof.
  intros Havail. pose proof Havail as [Himp [exe Hexe]].
  cbn [_create_video_ffmpeg_rec].
  unfold try_except, import, of_error, of_result.
  rewrite Himp, Hexe. cbv beta iota zeta delta [bind].
  rewrite !present_has. cbn [has].
  unfold print at 1, log at 1. cbn [dirs files trace].
  rewrite chain_cons, tier_plan_view.
  rewrite (attempt_after_print (Running_FFmpeg (bool_decide (is_Some (@None string))))).
  cbn [tier_plan].
  set (w1 := {| dirs := dirs w; files := files w;
                trace := trace w ++ [Printed (Running_FFmpeg (bool_decide (is_Some (@None string))))] |}).
  destruct (attempt env output_path
              (ffmpeg_cmd image_path audio_path (has w audio_path) None output_path duration) w1)
    as [st v] eqn:Eatt.
  unfold attempt in Eatt. cbn [fst snd].
  destruct (subprocess_run_ffmpeg env
              (ffmpeg_cmd image_path audio_path (has w audio_path) None output_path duration) w1)
    as [[rc|e] w2] eqn:Erun.
  - unfold exists_ at 1. injection Eatt as <- <-.
    destruct ((rc =? 0)%Z && path_exists w2 output_path) eqn:Egood.
    + unfold ret. exists w2. split; reflexivity.
    + cbn [is_succeeded advances_on_exit].
      unfold print at 1, log at 1.
      destruct (simple_video_attempt subtitle_path
                  {| dirs := dirs w2; files := files w2;
                     trace := trace w2 ++ [Printed FFmpeg_error] |} Havail)
        as (w' & E & Hview).
      rewrite encoder_view_print in E, Hview.
      exists w'. rewrite E. split; [reflexivity|exact Hview].
  - unfold print, log, ret. eexists. rewrite encoder_view_print.
    destruct e; injection Eatt as <- <-; split; reflexivity.
Qed.

(** With a caption file the invocation is Tier A, then the invocation
    without captions. *)
Lemma ffmpeg_with_captions srt depth (w : World F) :
  encoder_available env ->
  exists w',
    _create_video_ffmpeg_rec env (S (S depth)) image_path audio_path (Some srt)
      output_path duration w
    = (Ok (degradation_chain env image_path audio_path (Some srt)
             output_path duration advances_on_exit [TierA; TierB; TierC]
             (encoder_view w)).1, w')
    /\ encoder_view w'
       = (degradation_chain env image_path audio_path (Some srt)
            output_path duration advances_on_exit [TierA; TierB; TierC]
            (encoder_view w)).2.
Proof.
  intros Havail. pose proof Havail as [Himp [exe Hexe]].
  remember (S depth) as inner eqn:Hinner.
  cbn [_create_video_ffmpeg_rec].
  unfold try_except at 1, import at 1, of_error at 1, of_result at 1.
  rewrite Himp, Hexe. cbv beta iota zeta delta [bind].
  rewrite !present_has.
  unfold print at 1, log at 1. cbn [dirs files trace].
  rewrite chain_cons, tier_plan_view.
  rewrite (attempt_after_print (Running_FFmpeg (bool_decide (is_Some (Some srt))))).
  cbn [tier_plan].
  set (w1 := {| dirs := dirs w; files := files w;
                trace := trace w ++ [Printed (Running_FFmpeg (bool_decide (is_Some (Some srt))))] |}).
  set (cmd := ffmpeg_cmd image_path audio_path (has w audio_path)
                (if has w (Some srt) then Some srt else None) output_path duration).
  destruct (attempt env output_path cmd w1) as [st v] eqn:Eatt.
  unfold attempt in Eatt. cbn [fst snd].
  destruct (subprocess_run_ffmpeg env cmd w1) as [[rc|e] w2] eqn:Erun.
  - unfold exists_ at 1. injection Eatt as <- <-.
    destruct ((rc =? 0)%Z && path_exists w2 output_path) eqn:Egood.
    + unfold ret. exists w2. split; reflexivity.
    + cbn [is_succeeded advances_on_exit].
      unfold print at 1 2, log at 1 2. cbn [dirs files trace].
      destruct (ffmpeg_without_captions (Some srt) depth
                  {| dirs := dirs w2; files := files w2;
                     trace := (trace w2 ++ [Printed FFmpeg_error])
                                ++ [Printed Retrying_without_captions] |} Havail)
        as (w' & E & Hview).
      rewrite encoder_view_retry in E, Hview.
      subst inner. exists w'. rewrite E. split; [reflexivity|exact Hview].
  - unfold print, log, ret. eexists. rewrite encoder_view_print.
    destruct e; injection Eatt as <- <-; split; reflexivity.
Qed.

(** The recursion is one call deep: any bound from two on gives the
    result of [_create_video_ffmpeg]. *)
Lemma _create_video_ffmpeg_depth depth subtitle_path :
  _create_video_ffmpeg_rec env (S (S depth)) image_path audio_path subtitle_path
    output_path duration
  = _create_video_ffmpeg env image_path audio_path subtitle_path
      output_path duration.
Proof. destruct subtitle_path; reflexivity. Qed.

End Tiers.

(** C2, as the code has it.  With the encoder installed, an invocation runs
    the tiers in order (A, B, C with a caption file; B, C without),
    advancing after a run that completed with a non-zero exit code or
    without leaving the output file, and returning failure only after
    Tier C when every run failed so; a run that times out (or cannot be
    started) ends the invocation with failure at once, whatever the tier.
    Tier B is Tier A minus the caption filter, Tier C has no filter, and
    every run has the time-out of 300 seconds. *)
Theorem encoder_degradation {F : Type} {num : NumOps F} (env : Env F)
    (image_path : string) (audio_path subtitle_path : option string)
    (output_path : string) (duration : F) (w : World F) :
  encoder_available env ->
  (exists w',
     _create_video_ffmpeg env image_path audio_path subtitle_path output_path
       duration w
     = (Ok (degradation_chain env image_path audio_path subtitle_path
              output_path duration advances_on_exit (tiers_from subtitle_path)
              (encoder_view w)).1, w')
     /\ encoder_view w'
        = (degradation_chain env image_path audio_path subtitle_path
             output_path duration advances_on_exit (tiers_from subtitle_path)
             (encoder_view w)).2)
  /\ (forall t v,
        plan_timeout (tier_plan image_path audio_path subtitle_path output_path
                        duration t v) = 300%Z)
  /\ (forall v,
        plan_filters (tier_plan image_path audio_path subtitle_path output_path
                        duration TierB v)
        = filter (fun f => is_subtitles f = false)
            (plan_filters (tier_plan image_path audio_path subtitle_path
                             output_path duration TierA v))
        /\ plan_filters (tier_plan image_path audio_path subtitle_path output_path
                           duration TierC v) = []).
Proof.
  intros Havail. split; [|split].
  - destruct subtitle_path as [srt|].
    + apply (ffmpeg_with_captions env image_path audio_path output_path duration
               srt 0 w Havail).
    + apply (ffmpeg_without_captions env image_path audio_path output_path
               duration None 1 w Havail).
  - intros t v. unfold tier_plan, ffmpeg_cmd, simple_cmd.
    destruct t, (has v audio_path); reflexivity.
  - intros v. unfold tier_plan, ffmpeg_cmd, simple_cmd.
    destruct (has v audio_path), (has v subtitle_path), subtitle_path;
      split; reflexivity.
Qed.

(** Witness of C2. *)
Lemma encoder_degradation_witness :
  exists w',
    _create_video_ffmpeg (F:=Q) env_no_tool
      "/tmp/kathachitra/0000/story_image.png"
      (Some "/tmp/kathachitra/0000/story_narration.mp3")
      (Some "/tmp/kathachitra/0000/captions.srt")
      "/tmp/kathachitra/0000/story_video.mp4" 32%Q session_world
    = (Ok true, w').
Proof.
  destruct (encoder_degradation (F:=Q) env_no_tool
              "/tmp/kathachitra/0000/story_image.png"
              (Some "/tmp/kathachitra/0000/story_narration.mp3")
              (Some "/tmp/kathachitra/0000/captions.srt")
              "/tmp/kathachitra/0000/story_video.mp4" 32%Q session_world)
    as [(w' & E & _) _].
  - split; [reflexivity|]. exists "ffmpeg"%string. reflexivity.
  - exists w'. exact E.
Defined.

(** C2 as stated fails: when the run of Tier A times out, the invocation
    returns failure after that one run, although the chain of the
    specification would go on to Tier B and succeed there. *)
Lemma timeout_ends_the_chain :
  let run :=
    _create_video_ffmpeg (F:=Q) env_first_run_times_out
      "/tmp/kathachitra/0000/story_image.png"
      (Some "/tmp/kathachitra/0000/story_narration.mp3")
      (Some "/tmp/kathachitra/0000/captions.srt")
      "/tmp/kathachitra/0000/story_video.mp4" 32%Q session_world in
  let specified :=
    degradation_chain (F:=Q) env_first_run_times_out
      "/tmp/kathachitra/0000/story_image.png"
      (Some "/tmp/kathachitra/0000/story_narration.mp3")
      (Some "/tmp/kathachitra/0000/captions.srt")
      "/tmp/kathachitra/0000/story_video.mp4" 32%Q
      advances_as_specified [TierA; TierB; TierC] (encoder_view session_world) in
  run.1 = Ok false
  /\ length (ffmpeg_runs (trace run.2)) = 1
  /\ specified.1 = true
  /\ length (ffmpeg_runs (trace specified.2)) = 2.
Proof. vm_compute. repeat split; reflexivity. Qed.

(** ** An image that cannot be decoded *)

Section BadImage.
Context {F : Type} {num : NumOps F} (env : Env F).

Lemma same_runs_print m (w : World F) :
  same_runs w {| dirs := dirs w; files := files w; trace := trace w ++ [Printed m] |}.
Proof.
  unfold same_runs, ffprobe_runs, ffmpeg_runs. cbn [trace].
  rewrite !flat_map_app. cbn [flat_map]. rewrite !app_nil_r. split; reflexivity.
Qed.

Lemma same_runs_refl (w : World F) : same_runs w w.
Proof. split; reflexivity. Qed.




End BadImage.

Section Paths.




End Paths.

Section Endpoint.
Context {F : Type} {num : NumOps F} (env : Env F).

(** The narration touches one file and runs no subprocess. *)
Lemma narration_effect story_text language session_dir voice_style (w : World F) :
  exists r w',
    generate_full_narration env story_text language session_dir voice_style w
    = (Ok r, w')
    /\ dirs w' = dirs w
    /\ (forall p, p <> session_dir </> "story_narration.mp3" ->
                  files w' !! p = files w !! p)
    /\ same_runs w w'.
Proof.
  unfold generate_full_narration.
  destruct (tts_output env story_text language voice_style) as [size|].
  - cbv beta iota zeta delta [bind]. destruct (0 <? size)%N.
    + eexists _, _. split; [reflexivity|]. unfold set_file. cbn [dirs files trace].
      split; [reflexivity|]. split; [|split; reflexivity].
      intros p Hp. apply lookup_insert_ne. congruence.
    + eexists _, _. split; [reflexivity|]. unfold set_file. cbn [dirs files trace].
      split; [reflexivity|]. split.
      * intros p Hp. apply lookup_insert_ne. congruence.
      * unfold same_runs, ffprobe_runs, ffmpeg_runs. cbn [trace].
        rewrite !flat_map_app. cbn [flat_map]. rewrite !app_nil_r. split; reflexivity.
  - eexists _, _. split; [reflexivity|]. cbn [dirs files trace].
    split; [reflexivity|]. split; [reflexivity|]. apply same_runs_print.
Qed.

End Endpoint.




(** * Further properties *)

(** ** Sentences and segments *)

Section Sentences.

Lemma last_cons_ends c piece :
  (piece = [] /\ is_terminal c = true) \/ ends_with_terminal piece ->
  ends_with_terminal (c :: piece).
Proof.
  intros [[-> Hc]|(x & Hx & Ht)].
  - exists c. split; [reflexivity|exact Hc].
  - exists x. split; [|exact Ht]. destruct piece; [discriminate|exact Hx].
Qed.

(** What the scan returns: a piece that is followed by another one ends
    with a terminal character (or is empty right after one). *)
Lemma re_split_scan_ends s : forall st,
  let '(cur, more) := re_split_scan st s in
  (more <> [] ->
   match st with
   | InText p => (cur = [] /\ p = true) \/ ends_with_terminal cur
   | InSep => ends_with_terminal cur
   end)
  /\ all_but_last ends_with_terminal more.
Proof.
  induction s as [|c s IH]; intros st.
  - destruct st; cbn; split; try exact I; intros H; contradiction.
  - destruct st as [p|]; cbn [re_split_scan].
    + destruct (p && is_space c) eqn:Hp.
      * apply andb_true_iff in Hp as [-> _].
        specialize (IH InSep). destruct (re_split_scan InSep s) as [cur more].
        destruct IH as [IH1 IH2]. split; [intros _; left; split; reflexivity|].
        cbn [all_but_last]. destruct more as [|m ms]; [exact I|].
        split; [apply IH1; discriminate|exact IH2].
      * specialize (IH (InText (is_terminal c))).
        destruct (re_split_scan (InText (is_terminal c)) s) as [cur more].
        destruct IH as [IH1 IH2]. split; [|exact IH2].
        intros Hm. right. apply last_cons_ends, IH1, Hm.
    + destruct (is_space c) eqn:Hc.
      * apply (IH InSep).
      * specialize (IH (InText (is_terminal c))).
        destruct (re_split_scan (InText (is_terminal c)) s) as [cur more].
        destruct IH as [IH1 IH2]. split; [|exact IH2].
        intros Hm. apply last_cons_ends, IH1, Hm.
Qed.

(** The text is the pieces with runs of white space between them. *)
Lemma re_split_scan_weave s : forall st,
  let '(cur, more) := re_split_scan st s in
  exists seps,
    length seps = length more /\ Forall is_gap seps
    /\ match st with
       | InText _ =>
           s = cur ++ match seps, more with
                      | sep :: ss, m :: ms => sep ++ weave (m :: ms) ss
                      | _, _ => []
                      end
       | InSep =>
           exists lead, Forall (fun c => is_space c = true) lead
                        /\ s = lead ++ weave (cur :: more) seps
       end.
Proof.
  induction s as [|c s IH]; intros st.
  - destruct st; cbn; exists []; repeat split; try constructor.
    exists []. split; [constructor|reflexivity].
  - destruct st as [p|]; cbn [re_split_scan].
    + destruct (p && is_space c) eqn:Hp.
      * apply andb_true_iff in Hp as [_ Hc].
        specialize (IH InSep). destruct (re_split_scan InSep s) as [cur more].
        destruct IH as (seps & Hlen & Hgaps & lead & Hlead & ->).
        exists ((c :: lead) :: seps). split; [cbn; rewrite Hlen; reflexivity|].
        split; [constructor; [split; [discriminate|constructor; assumption]|exact Hgaps]|].
        reflexivity.
      * specialize (IH (InText (is_terminal c))).
        destruct (re_split_scan (InText (is_terminal c)) s) as [cur more].
        destruct IH as (seps & Hlen & Hgaps & ->).
        exists seps. split; [exact Hlen|]. split; [exact Hgaps|]. reflexivity.
    + destruct (is_space c) eqn:Hc.
      * specialize (IH InSep). destruct (re_split_scan InSep s) as [cur more].
        destruct IH as (seps & Hlen & Hgaps & lead & Hlead & ->).
        exists seps. split; [exact Hlen|]. split; [exact Hgaps|].
        exists (c :: lead). split; [constructor; assumption|reflexivity].
      * specialize (IH (InText (is_terminal c))).
        destruct (re_split_scan (InText (is_terminal c)) s) as [cur more].
        destruct IH as (seps & Hlen & Hgaps & ->).
        exists seps. split; [exact Hlen|]. split; [exact Hgaps|].
        exists []. split; [constructor|].
        destruct seps as [|sep ss], more as [|m ms]; try discriminate; cbn.
        -- rewrite app_nil_r. reflexivity.
        -- reflexivity.
Qed.

End Sentences.

(** X1.  The sentence split loses nothing but white space, and it cuts at
    sentence ends only: the text is the pieces woven with as many runs of
    white space as there are cuts, and every piece but the last ends with
    [.], [!] or [?]. *)
Theorem re_split_sentences_pieces (story_text : str) :
  (exists seps,
      S (length seps) = length (re_split_sentences story_text)
      /\ Forall is_gap seps
      /\ story_text = weave (re_split_sentences story_text) seps)
  /\ all_but_last ends_with_terminal (re_split_sentences story_text).
Proof.
  unfold re_split_sentences.
  pose proof (re_split_scan_weave story_text (InText false)) as Hw.
  pose proof (re_split_scan_ends story_text (InText false)) as He.
  destruct (re_split_scan (InText false) story_text) as [cur more].
  destruct Hw as (seps & Hlen & Hgaps & Hs). destruct He as [He1 He2]. split.
  - exists seps. split; [cbn; rewrite Hlen; reflexivity|]. split; [exact Hgaps|].
    rewrite Hs at 1.
    destruct seps as [|sep ss], more as [|m ms]; try discriminate; cbn.
    + reflexivity.
    + reflexivity.
  - cbn [all_but_last]. destruct more as [|m ms]; [exact I|].
    split; [|exact He2].
    destruct (He1 ltac:(discriminate)) as [[_ [=]]|H]. exact H.
Qed.

Section Segments.

(** A segment is a chunk of one to eight words joined by single spaces. *)
Lemma sentence_chunks_shape sentence :
  Forall (fun seg => exists ws, Forall is_word ws
                                /\ 1 <= length ws <= 8
                                /\ seg = join [SPACE] ws)
         (sentence_chunks sentence).
Proof.
  unfold sentence_chunks.
  induction (range_step (length (split sentence)) 8) as [|i idx IH];
    [constructor|].
  cbn [flat_map]. apply Forall_app. split; [|exact IH].
  pose proof (slice_words (split sentence) i (i + 8) (split_words sentence)) as Hw.
  assert (length (slice (split sentence) i (i + 8)) <= 8) as Hlen.
  { unfold slice. rewrite length_take. lia. }
  destruct (slice (split sentence) i (i + 8)) as [|w ws] eqn:E; [constructor|].
  constructor; [|constructor]. exists (w :: ws).
  split; [exact Hw|]. split; [cbn [length] in *; lia|reflexivity].
Qed.

Lemma caption_segments_shape story_text :
  Forall (fun seg => exists ws, Forall is_word ws
                                /\ 1 <= length ws <= 8
                                /\ seg = join [SPACE] ws)
         (caption_segments story_text).
Proof.
  unfold caption_segments.
  induction (re_split_sentences story_text) as [|s ss IH]; [constructor|].
  cbn [flat_map]. apply Forall_app. split; [apply sentence_chunks_shape|exact IH].
Qed.

(** The indices of [range(0, n, 8)] lie below [n]. *)
Lemma range_step_lt n i : In i (range_step n 8) -> i < n.
Proof.
  unfold range_step. rewrite in_map_iff. intros (k & <- & Hk).
  apply in_seq in Hk.
  pose proof (Nat.div_mod_eq (n + (8 - 1)) 8) as H.
  pose proof (Nat.mod_upper_bound (n + (8 - 1)) 8). lia.
Qed.

Lemma length_range_step n : length (range_step n 8) = (n + 7) / 8.
Proof. unfold range_step. rewrite length_map, length_seq. reflexivity. Qed.

(** A sentence of [n] words gives [ceil (n / 8)] segments. *)
Lemma length_sentence_chunks sentence :
  length (sentence_chunks sentence) = (length (split sentence) + 7) / 8.
Proof.
  unfold sentence_chunks. rewrite <- length_range_step.
  pose proof (range_step_lt (length (split sentence))) as Hlt.
  induction (range_step (length (split sentence)) 8) as [|i idx IH];
    [reflexivity|].
  cbn [flat_map]. rewrite length_app, IH by (intros j Hj; apply Hlt; right; exact Hj).
  assert (length (slice (split sentence) i (i + 8)) <> 0) as Hne.
  { unfold slice. rewrite length_take, length_drop.
    specialize (Hlt i (or_introl eq_refl)). lia. }
  destruct (slice (split sentence) i (i + 8)); [contradiction|reflexivity].
Qed.

Lemma Forall_of_map {A B} (P : B -> Prop) (f : A -> B) (l : list A) :
  Forall P (map f l) -> Forall (fun x => P (f x)) l.
Proof.
  induction l as [|x l IH]; [constructor|].
  cbn [map]. intros H. apply Forall_cons in H as [Hx Hl].
  constructor; [exact Hx|exact (IH Hl)].
Qed.

End Segments.

(** X2.  Every segment of the caption track holds between one and eight
    words and is exactly those words joined by single spaces: it has no
    leading, trailing or doubled white space and no line break. *)
Theorem caption_segment_shape {F : Type} {num : NumOps F}
    (story_text : str) (duration : F) :
  Forall (fun g => 1 <= length (split (seg_text g)) <= 8
                   /\ join [SPACE] (split (seg_text g)) = seg_text g)
         (synthesize story_text duration).
Proof.
  pose proof (caption_segments_shape story_text) as H.
  rewrite <- (synthesize_texts story_text duration) in H.
  apply Forall_of_map in H. eapply Forall_impl; [exact H|].
  intros g (ws & Hws & Hlen & ->). rewrite (split_join ws Hws).
  split; [exact Hlen|reflexivity].
Qed.

(** X3.  The number of caption segments is the sum, over the sentence
    pieces, of the number of words of the piece divided by eight and
    rounded up. *)
Theorem caption_segment_count {F : Type} {num : NumOps F}
    (story_text : str) (duration : F) :
  length (synthesize story_text duration)
  = list_sum (map (fun piece => (length (split piece) + 7) / 8)
                  (re_split_sentences story_text)).
Proof.
  rewrite length_synthesize. unfold caption_segments.
  induction (re_split_sentences story_text) as [|s ss IH]; [reflexivity|].
  cbn [flat_map map list_sum]. rewrite length_app, IH, length_sentence_chunks.
  reflexivity.
Qed.

(** ** Timing of the caption track *)

Section Timing.
Local Open Scope Q_scope.



End Timing.



Section Provisional.
Context {F : Type} {num : NumOps F}.

(** The [i]-th interval of the loop: it lasts as long as its segment
    takes, and the next one starts a gap later. *)
Lemma segment_times_from_lookup (c : F) segments i seg s e :
  segments !! i = Some seg ->
  segment_times_from c segments !! i = Some (s, e) ->
  e = add s (segment_duration seg)
  /\ forall s' e', segment_times_from c segments !! (S i) = Some (s', e') ->
                   s' = add s (add (segment_duration seg) (lit (1 # 5))).
Proof.
  revert c i. induction segments as [|g gs IH]; intros c i; [discriminate|].
  destruct i as [|i]; cbn [segment_times_from lookup list_lookup].
  - intros [= <-] [= <- <-]. split; [reflexivity|].
    destruct gs as [|g' gs]; [discriminate|].
    cbn [segment_times_from lookup list_lookup]. intros s' e' [= <- _]. reflexivity.
  - apply IH.
Qed.

End Provisional.

(** X5.  When the provisional timings fit (the rescaling step does not
    run), in any arithmetic: the first caption starts at 0.5; every caption
    lasts [max(words / 2.5, 1.5)]; and the next caption starts 0.2 after
    the previous one ended, computed as
    [start + (duration_of_segment + 0.2)]. *)
Theorem caption_track_unscaled {F : Type} {num : NumOps F}
    (story_text : str) (duration : F) :
  overruns duration (provisional_times (caption_segments story_text)) = false ->
  let track := synthesize story_text duration in
  (forall g, head track = Some g -> seg_start g = lit (1 # 2))
  /\ (forall i g, track !! i = Some g ->
        seg_end g = add (seg_start g) (segment_duration (seg_text g))
        /\ forall g', track !! (S i) = Some g' ->
             seg_start g' =
             add (seg_start g) (add (segment_duration (seg_text g)) (lit (1 # 5)))).
Proof.
  intros Hfit track.
  pose proof (synthesize_times story_text duration) as Ht. fold track in Ht.
  pose proof (synthesize_texts story_text duration) as Hx. fold track in Hx.
  assert (fit_times duration (provisional_times (caption_segments story_text))
          = provisional_times (caption_segments story_text)) as Hsame.
  { revert Hfit. unfold overruns, fit_times.
    destruct (last _); [intros ->|]; reflexivity. }
  rewrite Hsame in Ht.
  assert (forall i g, track !! i = Some g ->
            caption_segments story_text !! i = Some (seg_text g)
            /\ provisional_times (caption_segments story_text) !! i
               = Some (seg_start g, seg_end g)) as Hl.
  { intros i g Hg. split.
    - rewrite <- Hx. change (map ?f ?l) with (f <$> l).
      rewrite list_lookup_fmap, Hg. reflexivity.
    - rewrite <- Ht. change (map ?f ?l) with (f <$> l).
      rewrite list_lookup_fmap, Hg. reflexivity. }
  split.
  - intros g Hg. destruct track as [|g0 tr] eqn:Etr; [discriminate|].
    injection Hg as ->. revert Ht. unfold provisional_times.
    destruct (caption_segments story_text); [discriminate|].
    cbn [map segment_times_from]. intros [= -> _ _]. reflexivity.
  - intros i g Hg. destruct (Hl i g Hg) as [Hseg Htime].
    destruct (segment_times_from_lookup _ _ _ _ _ _ Hseg Htime) as [He Hnext].
    split; [exact He|]. intros g' Hg'.
    destruct (Hl (S i) g' Hg') as [_ Htime'].
    exact (Hnext _ _ Htime').
Qed.

(** Witness of X5, in binary64. *)
Lemma caption_track_unscaled_witness :
  let track := synthesize (F:=float) fox 30%float in
  (forall g, head track = Some g -> seg_start g = lit (1 # 2))
  /\ (forall i g, track !! i = Some g ->
        seg_end g = add (seg_start g) (segment_duration (seg_text g))
        /\ forall g', track !! (S i) = Some g' ->
             seg_start g' =
             add (seg_start g) (add (segment_duration (seg_text g)) (lit (1 # 5)))).
Proof. apply (caption_track_unscaled fox 30%float). vm_compute. reflexivity. Defined.

(** ** More on the duration probe *)

(** X6.  When the inspection tool runs, exits with 0 and prints a number,
    the probe returns that number, whatever the size of the file; it has
    run the tool once and changed no file. *)
Theorem probe_primary_path {F : Type} {num : NumOps F} (env : Env F)
    (audio_path : string) (stdout : str) (d : F) (w : World F) :
  encoder_available env ->
  run_ffprobe env audio_path = Probe_completed 0 stdout ->
  strip stdout <> [] ->
  py_float env (strip stdout) = Some d ->
  _get_audio_duration env audio_path w
  = (Ok (Some d),
     {| dirs := dirs w; files := files w;
        trace := trace w ++ [Ran_ffprobe audio_path] |}).
Proof.
  intros [Himp [exe Hexe]] Hrun Hout Hfloat.
  unfold _get_audio_duration, try_except, import, of_error, of_result,
    subprocess_run_ffprobe, float_of.
  rewrite Himp, Hexe, Hrun. cbv beta iota zeta delta [bind log ret].
  rewrite (bool_decide_eq_false_2 _ Hout). cbn [Z.eqb andb negb].
  rewrite Hfloat. reflexivity.
Qed.

(** Witness of X6. *)
Lemma probe_primary_path_witness :
  _get_audio_duration env_probe_works
    "/tmp/kathachitra/0000/story_narration.mp3" (narrated_world 480000)
  = (Ok (Some (25 # 2)),
     {| dirs := dirs (narrated_world (F:=Q) 480000);
        files := files (narrated_world (F:=Q) 480000);
        trace := [Ran_ffprobe "/tmp/kathachitra/0000/story_narration.mp3"] |}).
Proof.
  apply (probe_primary_path env_probe_works
           "/tmp/kathachitra/0000/story_narration.mp3"
           (of_string "12.5
") (25 # 2) (narrated_world 480000)).
  - split; [reflexivity|]. exists "ffmpeg"%string. reflexivity.
  - reflexivity.
  - discriminate.
  - reflexivity.
Defined.

(** X7.  The probe returns nothing exactly when the inspection fails and
    the size of the file cannot be read either; it never raises. *)
Theorem probe_returns_nothing {F : Type} {num : NumOps F} (env : Env F)
    (audio_path : string) (w : World F) :
  exists r w',
    _get_audio_duration env audio_path w = (Ok r, w')
    /\ (r = None <-> inspection_fails env audio_path
                     /\ files w !! audio_path = None).
Proof.
  destruct (files w !! audio_path) as [size|] eqn:Hsize.
  - (* the size can be read *)
    destruct (get_audio_duration_total env audio_path w) as (r & w' & E).
    exists r, w'. split; [exact E|]. split; [|intros [_ [=]]].
    intros ->. exfalso. revert E.
    unfold _get_audio_duration. intros E.
    apply bind_Ok in E as ([d|] & w1 & E1 & E2).
    + apply ret_Ok in E2 as [[=] _].
    + apply try_except_result in E2 as [(a & E2 & [= <-])|(e & w2 & E2 & _)].
      * apply bind_Ok in E2 as (n & w2 & _ & E2). apply ret_Ok in E2 as [[=] _].
      * revert E2. unfold bind, st_size.
        assert (files w1 = files w) as ->.
        { revert E1. clear. unfold try_except, import, of_error, of_result,
            subprocess_run_ffprobe, float_of.
          cbv beta iota zeta delta [bind log ret print raise].
          destruct (import_module env "imageio_ffmpeg"); [intros [= <-]; reflexivity|].
          destruct (get_ffmpeg_exe env); [|intros [= <-]; reflexivity].
          destruct (run_ffprobe env audio_path) as [rc out|]; [|intros [= <-]; reflexivity].
          destruct ((rc =? 0)%Z && negb (bool_decide (strip out = [])));
            [|intros [= <-]; reflexivity].
          destruct (py_float env (strip out)); [discriminate|].
          intros [= <-]. reflexivity. }
        rewrite Hsize. discriminate.
  - (* the size cannot be read *)
    destruct (get_audio_duration_total env audio_path w) as (r & w' & E).
    exists r, w'. split; [exact E|]. split.
    + intros ->. split; [|reflexivity]. revert E.
      unfold _get_audio_duration, try_except, import, of_error, of_result,
        subprocess_run_ffprobe, float_of, inspection_fails.
      cbv beta iota zeta delta [bind log ret print raise].
      destruct (import_module env "imageio_ffmpeg") as [e|]; [intros _; left; eauto|].
      destruct (get_ffmpeg_exe env) as [exe|e]; [|intros _; right; left; eauto].
      destruct (run_ffprobe env audio_path) as [rc out|e];
        [|intros _; right; right; left; eauto].
      intros E. right. right. right. exists rc, out. split; [reflexivity|].
      destruct (rc =? 0)%Z eqn:Hrc; [|left; apply Z.eqb_neq, Hrc].
      right. destruct (bool_decide (strip out = [])) eqn:Hout;
        [left; apply bool_decide_eq_true in Hout; exact Hout|].
      right. cbn [andb negb] in E.
      destruct (py_float env (strip out)); [discriminate|reflexivity].
    + intros [Hfail _].
      destruct (inspection_block_falls_through env audio_path w Hfail)
        as (w1 & E1 & Hf & _).
      revert E. unfold _get_audio_duration. rewrite (bind_run_Ok _ _ _ _ _ E1).
      unfold try_except, bind, st_size. rewrite Hf, Hsize.
      intros [= <- _]. reflexivity.
Qed.

(** X8.  In exact arithmetic the duration of the video is at least seven
    seconds in every environment, so the rescaling factor of the captions
    is positive whenever [create_story_video] asks for captions. *)
Theorem video_duration_at_least_7 (env : Env Q) (audio_path : option string)
    (w : World Q) :
  exists d w',
    video_duration env audio_path w = (Ok d, w') /\ (7 <= d)%Q.
Proof.
  destruct (match audio_path with Some a => path_exists w a | None => false end)
    eqn:Hex.
  - destruct audio_path as [a|]; [|discriminate].
    destruct (get_audio_duration_total env a w) as (probed & w' & E).
    eexists _, w'. split; [apply (video_duration_audio env a probed w w' Hex E)|].
    destruct probed as [p|]; [|apply Qle_bool_iff; reflexivity].
    cbn [ltb add of_int Q_num]. destruct (Qltb p (inject_Z 5)) eqn:Elt.
    + apply Qle_bool_iff. reflexivity.
    + apply Qltb_ge in Elt. change (inject_Z 5) with 5%Q in Elt.
      change (inject_Z 2) with 2%Q. lra.
  - exists (of_int 30), w. split; [apply video_duration_no_audio, Hex|].
    apply Qle_bool_iff. reflexivity.
Qed.

(** ** What a computation leaves behind *)

Section Keeps.
Context {F : Type} {num : NumOps F}.
Context (R : World F -> World F -> Prop) (Rrefl : forall w, R w w)
        (Rtrans : forall w1 w2 w3, R w1 w2 -> R w2 w3 -> R w1 w3).

Lemma keeps_ret {A} (a : A) : keeps R (ret a).
Proof using Rrefl. intros w r w' [= _ <-]. apply Rrefl. Qed.

Lemma keeps_raise {A} e : keeps R (raise (A:=A) e).
Proof using Rrefl. intros w r w' [= _ <-]. apply Rrefl. Qed.

Lemma keeps_of_result {A} (x : Result A) : keeps R (of_result x).
Proof using Rrefl. intros w r w' [= _ <-]. apply Rrefl. Qed.

Lemma keeps_of_error o : keeps R (of_error o).
Proof using Rrefl. intros w r w'. unfold of_error. destruct o; intros [= _ <-]; apply Rrefl. Qed.

Lemma keeps_exists_ p : keeps R (exists_ p).
Proof using Rrefl. intros w r w' [= _ <-]. apply Rrefl. Qed.

Lemma keeps_st_size p : keeps R (st_size p).
Proof using Rrefl.
  intros w r w'. unfold st_size. destruct (files w !! p); intros [= _ <-]; apply Rrefl.
Qed.

Lemma keeps_present p : keeps R (present p).
Proof using Rrefl. destruct p; [apply keeps_exists_|apply keeps_ret]. Qed.

(** Sequencing, with what is known of the value passed on. *)
Lemma keeps_bind_post {A B} (Q : A -> Prop) (m : M F A) (k : A -> M F B) :
  (forall w a w', m w = (Ok a, w') -> Q a) ->
  keeps R m -> (forall a, Q a -> keeps R (k a)) -> keeps R (bind m k).
Proof using Rtrans.
  intros Hq Hm Hk w r w'. unfold bind.
  destruct (m w) as [[a|e] w1] eqn:E.
  - intros Ek. apply (Rtrans _ w1); [apply (Hm _ _ _ E)|].
    apply (Hk a (Hq _ _ _ E) _ _ _ Ek).
  - intros [= _ <-]. apply (Hm _ _ _ E).
Qed.

Lemma keeps_bind {A B} (m : M F A) (k : A -> M F B) :
  keeps R m -> (forall a, keeps R (k a)) -> keeps R (bind m k).
Proof using Rtrans.
  intros Hm Hk. apply (keeps_bind_post (fun _ => True)); auto.
Qed.

Lemma keeps_try_except {A} (body : M F A) handler :
  keeps R body -> (forall e, keeps R (handler e)) ->
  keeps R (try_except body handler).
Proof using Rtrans.
  intros Hb Hh w r w'. unfold try_except.
  destruct (body w) as [[a|e] w1] eqn:E.
  - intros [= _ <-]. apply (Hb _ _ _ E).
  - intros Eh. apply (Rtrans _ w1); [apply (Hb _ _ _ E)|apply (Hh _ _ _ _ Eh)].
Qed.

End Keeps.

Section Adds.
Context {F : Type} {num : NumOps F} (P : event F -> Prop).

Lemma adds_refl (w : World F) : adds P w w.
Proof. exists []. split; [symmetry; apply app_nil_r|constructor]. Qed.

Lemma adds_trans (w1 w2 w3 : World F) : adds P w1 w2 -> adds P w2 w3 -> adds P w1 w3.
Proof.
  intros (e1 & H1 & P1) (e2 & H2 & P2). exists (e1 ++ e2).
  split; [rewrite H2, H1, app_assoc; reflexivity|apply Forall_app; split; assumption].
Qed.

Lemma adds_log ev : P ev -> keeps (adds P) (log ev).
Proof.
  intros Hev w r w' [= _ <-]. exists [ev]. split; [reflexivity|].
  constructor; [exact Hev|constructor].
Qed.



End Adds.

Section Touches.
Context {F : Type} {num : NumOps F} (dir : string).

Lemma touches_refl (w : World F) : touches_only dir w w.
Proof. intros p _. split; reflexivity. Qed.

Lemma touches_trans (w1 w2 w3 : World F) :
  touches_only dir w1 w2 -> touches_only dir w2 w3 -> touches_only dir w1 w3.
Proof.
  intros H1 H2 p Hp. destruct (H1 p Hp) as [F1 D1], (H2 p Hp) as [F2 D2].
  split; [congruence|tauto].
Qed.

Lemma touches_log (ev : event F) : keeps (touches_only dir) (log ev).
Proof. intros w r w' [= _ <-] p _. split; reflexivity. Qed.

Lemma touches_set_file q n (w : World F) :
  under dir q = true -> touches_only dir w (set_file q n w).
Proof.
  intros Hq p Hp. cbn. split; [|reflexivity].
  apply lookup_insert_ne. intros ->. congruence.
Qed.

Lemma touches_set_file_opt q n (w : World F) :
  under dir q = true -> touches_only dir w (set_file_opt q n w).
Proof. destruct n; [apply touches_set_file|intros _; apply touches_refl]. Qed.

End Touches.

Section Paths2.

Lemma prefix_append (s t : string) : String.prefix s (s +:+ t) = true.
Proof.
  induction s as [|a s IH]; [destruct t; reflexivity|].
  change (String a s +:+ t) with (String a (s +:+ t)).
  cbn [String.prefix]. destruct (ascii_dec a a); [exact IH|contradiction].
Qed.

Lemma append_assoc3 (d name : string) : d +:+ "/" +:+ name = (d +:+ "/") +:+ name.
Proof.
  induction d as [|a d IH]; [reflexivity|].
  change (String a d +:+ "/" +:+ name) with (String a (d +:+ "/" +:+ name)).
  rewrite IH. reflexivity.
Qed.

(** A file of the session directory lies below it. *)
Lemma under_joinpath d name : under d (d </> name) = true.
Proof.
  unfold under, joinpath. apply orb_true_iff. right.
  rewrite append_assoc3. apply prefix_append.
Qed.

End Paths2.

(** ** More on the encoder *)

Section EncoderEvents.
Context {F : Type} {num : NumOps F} (env : Env F).
Variables (image_path : string) (audio_path : option string)
          (output_path : string) (duration : F).

Lemma adds_weaken (P Q : event F -> Prop) (w w' : World F) :
  (forall ev, P ev -> Q ev) -> adds P w w' -> adds Q w w'.
Proof.
  intros H (evs & E & HP). exists evs. split; [exact E|].
  eapply Forall_impl; [exact HP|exact H].
Qed.

Lemma keeps_weaken {A} (P Q : event F -> Prop) (m : M F A) :
  (forall ev, P ev -> Q ev) -> keeps (adds P) m -> keeps (adds Q) m.
Proof. intros H Hm w r w' E. apply (adds_weaken P Q _ _ H), (Hm _ _ _ E). Qed.

Lemma adds_run_ffmpeg (P : event F -> Prop) cmd :
  P (Ran_ffmpeg cmd) -> keeps (adds P) (subprocess_run_ffmpeg env cmd).
Proof.
  intros Hcmd w r w'. unfold subprocess_run_ffmpeg.
  assert (forall n, adds P w
            (set_file_opt (plan_output cmd) n
               {| dirs := dirs w; files := files w;
                  trace := trace w ++ [Ran_ffmpeg cmd] |})) as Hn.
  { intros [n|]; exists [Ran_ffmpeg cmd]; (split; [reflexivity|]);
      (constructor; [exact Hcmd|constructor]). }
  destruct (run_ffmpeg env (ffmpeg_runs (trace w)) cmd) as [rc n|n|e];
    intros [= _ <-]; try apply Hn.
  apply (Hn None).
Qed.

Lemma present_true p (w w' : World F) b :
  present p w = (Ok b, w') -> b = true -> p <> None.
Proof. destruct p; [discriminate|]. intros [= <- _] [=]. Qed.

Lemma ffmpeg_cmd_ok subtitle_path (with_audio burn : bool) :
  (with_audio = true -> audio_path <> None) ->
  cmd_ok image_path audio_path subtitle_path output_path duration
    (ffmpeg_cmd image_path audio_path with_audio
       (if burn then subtitle_path else None) output_path duration).
Proof.
  intros Ha. unfold cmd_ok, ffmpeg_cmd.
  destruct with_audio; cbn [plan_image plan_output plan_timeout plan_audio
                            plan_audio_bitrate plan_t plan_filters].
  - repeat split; [left; repeat split; auto|].
    repeat constructor. destruct burn, subtitle_path; repeat constructor.
  - repeat split; [right; repeat split|].
    repeat constructor. destruct burn, subtitle_path; repeat constructor.
Qed.

Lemma simple_cmd_ok subtitle_path (with_audio : bool) :
  (with_audio = true -> audio_path <> None) ->
  cmd_ok image_path audio_path subtitle_path output_path duration
    (simple_cmd image_path audio_path with_audio output_path duration).
Proof.
  intros Ha. unfold cmd_ok, simple_cmd.
  destruct with_audio; cbn [plan_image plan_output plan_timeout plan_audio
                            plan_audio_bitrate plan_t plan_filters].
  - repeat split; [left; repeat split; auto|constructor].
  - repeat split; [right; repeat split|constructor].
Qed.

Let ok (subtitle_path : option string) : event F -> Prop :=
  encoder_event (cmd_ok image_path audio_path subtitle_path output_path duration).

Lemma simple_video_events subtitle_path :
  keeps (adds (ok subtitle_path))
    (_create_simple_video env image_path audio_path output_path duration).
Proof.
  pose proof (adds_refl (ok subtitle_path)) as Hr.
  pose proof (adds_trans (ok subtitle_path)) as Ht.
  unfold _create_simple_video.
  apply keeps_try_except; try assumption.
  - apply keeps_bind; try assumption; [apply keeps_of_error, Hr|intros _].
    apply keeps_bind; try assumption; [apply keeps_of_result, Hr|intros _].
    apply (keeps_bind_post _ Ht (fun b => b = true -> audio_path <> None));
      [intros w a w' E; exact (present_true _ _ _ _ E)|apply keeps_present, Hr|].
    intros with_audio Ha.
    apply keeps_bind; try assumption;
      [apply adds_run_ffmpeg, (simple_cmd_ok subtitle_path), Ha|intros rc].
    apply keeps_bind; try assumption; [apply keeps_exists_, Hr|intros made].
    apply keeps_ret, Hr.
  - intros e. apply keeps_bind; try assumption; [apply adds_log; exact I|intros _].
    apply keeps_ret, Hr.
Qed.

Lemma cmd_ok_without_captions subtitle_path ev :
  ok None ev -> ok subtitle_path ev.
Proof.
  destruct ev as [| p | |]; cbn; try tauto.
  intros (H1 & H2 & H3 & H4 & H5). repeat split; try assumption.
  eapply Forall_impl; [exact H5|]. intros [] Hf; try exact Hf. discriminate Hf.
Qed.

Lemma ffmpeg_events depth : forall subtitle_path,
  keeps (adds (ok subtitle_path))
    (_create_video_ffmpeg_rec env depth image_path audio_path subtitle_path
       output_path duration).
Proof.
  induction depth as [|depth IH]; intros subtitle_path.
  { apply keeps_raise, adds_refl. }
  pose proof (adds_refl (ok subtitle_path)) as Hr.
  pose proof (adds_trans (ok subtitle_path)) as Ht.
  cbn [_create_video_ffmpeg_rec].
  apply keeps_try_except; try assumption.
  - apply keeps_bind; try assumption; [apply keeps_of_error, Hr|intros _].
    apply keeps_bind; try assumption; [apply keeps_of_result, Hr|intros _].
    apply keeps_bind; try assumption; [apply keeps_present, Hr|intros burn].
    apply (keeps_bind_post _ Ht (fun b => b = true -> audio_path <> None));
      [intros w a w' E; exact (present_true _ _ _ _ E)|apply keeps_present, Hr|].
    intros with_audio Ha.
    apply keeps_bind; try assumption; [apply adds_log; exact I|intros _].
    apply keeps_bind; try assumption;
      [apply adds_run_ffmpeg, (ffmpeg_cmd_ok subtitle_path), Ha|intros rc].
    apply keeps_bind; try assumption; [apply keeps_exists_, Hr|intros made].
    destruct ((rc =? 0)%Z && made); [apply keeps_ret, Hr|].
    apply keeps_bind; try assumption; [apply adds_log; exact I|intros _].
    destruct subtitle_path as [srt|].
    + apply keeps_bind; try assumption; [apply adds_log; exact I|intros _].
      apply (keeps_weaken (ok None)); [apply cmd_ok_without_captions|apply IH].
    + apply simple_video_events.
  - intros e. apply keeps_bind; try assumption; [apply adds_log; exact I|intros _].
    apply keeps_ret, Hr.
Qed.

End EncoderEvents.

(** X9.  Every encoder command of an invocation reads the given image and
    writes the given output under the time-out of 300 seconds; it has the
    given audio as input or else an explicit [-t duration] (so that the
    looped image cannot run on for ever); its filters use the canonical
    frame size, and a caption filter appears only for the caption file
    that was passed in.  The invocation runs nothing but the encoder. *)
Theorem encoder_commands_well_formed {F : Type} {num : NumOps F} (env : Env F)
    (image_path : string) (audio_path subtitle_path : option string)
    (output_path : string) (duration : F) (w : World F) :
  adds (encoder_event
          (cmd_ok image_path audio_path subtitle_path output_path duration))
    w (_create_video_ffmpeg env image_path audio_path subtitle_path
         output_path duration w).2.
Proof.
  destruct (_create_video_ffmpeg env image_path audio_path subtitle_path
              output_path duration w) as [r w'] eqn:E.
  exact (ffmpeg_events env image_path audio_path output_path duration 2
           subtitle_path w r w' E).
Qed.

Section EncoderCount.
Context {F : Type} {num : NumOps F} (env : Env F).
Variables (image_path : string) (audio_path subtitle_path : option string)
          (output_path : string) (duration : F).

(** An attempt is one run. *)
Lemma attempt_runs cmd (w : World F) :
  ffmpeg_runs (trace (attempt env output_path cmd w).2)
  = ffmpeg_runs (trace w) ++ [cmd].
Proof.
  unfold attempt, subprocess_run_ffmpeg.
  destruct (run_ffmpeg env (ffmpeg_runs (trace w)) cmd) as [rc [n|]|[n|]|e];
    try destruct e; cbn [snd set_file_opt set_file trace];
    rewrite ffmpeg_runs_app; reflexivity.
Qed.

(** The chain runs one command per tier it visits. *)
Lemma chain_runs advances tiers : forall w : World F,
  exists new,
    ffmpeg_runs (trace (degradation_chain env image_path audio_path subtitle_path
                          output_path duration advances tiers w).2)
    = ffmpeg_runs (trace w) ++ new
    /\ length new <= length tiers.
Proof.
  induction tiers as [|t rest IH]; intros w.
  - exists []. split; [symmetry; apply app_nil_r|reflexivity].
  - cbn [degradation_chain].
    pose proof (attempt_runs
                  (tier_plan image_path audio_path subtitle_path output_path
                     duration t w) w) as Hrun.
    destruct (attempt env output_path
                (tier_plan image_path audio_path subtitle_path output_path
                   duration t w) w) as [st w1].
    cbn [snd] in Hrun.
    destruct (is_succeeded st); [|destruct (advances st)].
    + eexists. split; [exact Hrun|cbn; lia].
    + destruct (IH w1) as (new & E & Hlen).
      exists (tier_plan image_path audio_path subtitle_path output_path
                duration t w :: new).
      split; [rewrite E, Hrun, <- app_assoc; reflexivity|cbn; lia].
    + eexists. split; [exact Hrun|cbn; lia].
Qed.

(** Without the encoder nothing is run. *)
Lemma ffmpeg_rec_missing depth (w : World F) :
  encoder_missing env ->
  exists e,
    _create_video_ffmpeg_rec env (S depth) image_path audio_path subtitle_path
      output_path duration w
    = (Ok false,
       {| dirs := dirs w; files := files w;
          trace := trace w ++ [Printed (FFmpeg_video_creation_failed e)] |}).
Proof.
  intros Hmiss. cbn [_create_video_ffmpeg_rec].
  unfold try_except, import, of_error, of_result.
  cbv beta iota zeta delta [bind].
  destruct (import_module env "imageio_ffmpeg") as [e|] eqn:Himp;
    [exists e; reflexivity|].
  destruct Hmiss as [[e He]|[e He]]; [congruence|].
  rewrite He. exists e. reflexivity.
Qed.

End EncoderCount.

(** X10.  In every environment an encoder invocation returns normally
    after at most three encoder runs, and after at most two when no
    caption file is passed. *)
Theorem encoder_runs_bounded {F : Type} {num : NumOps F} (env : Env F)
    (image_path : string) (audio_path subtitle_path : option string)
    (output_path : string) (duration : F) (w : World F) :
  exists b w' new,
    _create_video_ffmpeg env image_path audio_path subtitle_path output_path
      duration w = (Ok b, w')
    /\ ffmpeg_runs (trace w') = ffmpeg_runs (trace w) ++ new
    /\ length new <= match subtitle_path with Some _ => 3 | None => 2 end.
Proof.
  destruct (import_module env "imageio_ffmpeg") as [e|] eqn:Himp.
  { destruct (ffmpeg_rec_missing env image_path audio_path subtitle_path
                output_path duration 1 w) as [e' E].
    { left. rewrite Himp. eauto. }
    eexists _, _, []. split; [exact E|]. cbn [trace].
    rewrite ffmpeg_runs_app. split; [reflexivity|destruct subtitle_path; cbn; lia]. }
  destruct (get_ffmpeg_exe env) as [exe|e] eqn:Hexe.
  2:{ destruct (ffmpeg_rec_missing env image_path audio_path subtitle_path
                  output_path duration 1 w) as [e' E].
      { right. eauto. }
      eexists _, _, []. split; [exact E|]. cbn [trace].
      rewrite ffmpeg_runs_app. split; [reflexivity|destruct subtitle_path; cbn; lia]. }
  assert (encoder_available env) as Havail by (split; eauto).
  assert (exists w',
             _create_video_ffmpeg env image_path audio_path subtitle_path
               output_path duration w
             = (Ok (degradation_chain env image_path audio_path subtitle_path
                      output_path duration advances_on_exit
                      (tiers_from subtitle_path) (encoder_view w)).1, w')
             /\ encoder_view w'
                = (degradation_chain env image_path audio_path subtitle_path
                     output_path duration advances_on_exit
                     (tiers_from subtitle_path) (encoder_view w)).2)
    as (w' & E & Hview).
  { destruct subtitle_path as [srt|].
    - apply (ffmpeg_with_captions env image_path audio_path output_path duration
               srt 0 w Havail).
    - apply (ffmpeg_without_captions env image_path audio_path output_path
               duration None 1 w Havail). }
  destruct (chain_runs env image_path audio_path subtitle_path output_path
              duration advances_on_exit (tiers_from subtitle_path)
              (encoder_view w)) as (new & Hnew & Hlen).
  eexists _, w', new. split; [exact E|]. split.
  - rewrite <- Hview in Hnew. unfold encoder_view in Hnew. cbn [trace] in Hnew.
    rewrite !ffmpeg_runs_view in Hnew. exact Hnew.
  - destruct subtitle_path; exact Hlen.
Qed.

(** X11.  Without the encoder (its module cannot be imported, or the
    executable cannot be found) the invocation returns failure after
    printing the error: nothing is run and no file changes. *)
Theorem encoder_missing_fails {F : Type} {num : NumOps F} (env : Env F)
    (image_path : string) (audio_path subtitle_path : option string)
    (output_path : string) (duration : F) (w : World F) :
  encoder_missing env ->
  exists e,
    _create_video_ffmpeg env image_path audio_path subtitle_path output_path
      duration w
    = (Ok false,
       {| dirs := dirs w; files := files w;
          trace := trace w ++ [Printed (FFmpeg_video_creation_failed e)] |}).
Proof.
  intros Hmiss.
  apply (ffmpeg_rec_missing env image_path audio_path subtitle_path output_path
           duration 1 w Hmiss).
Qed.

(** Witness of X11. *)
Lemma encoder_missing_fails_witness :
  exists e,
    _create_video_ffmpeg (F:=Q) env_no_encoder
      "/tmp/kathachitra/0000/story_image.png"
      (Some "/tmp/kathachitra/0000/story_narration.mp3") None
      "/tmp/kathachitra/0000/story_video.mp4" 32%Q session_world
    = (Ok false,
       {| dirs := dirs (session_world (F:=Q)); files := files (session_world (F:=Q));
          trace := [Printed (FFmpeg_video_creation_failed e)] |}).
Proof.
  apply (encoder_missing_fails (F:=Q) env_no_encoder
           "/tmp/kathachitra/0000/story_image.png"
           (Some "/tmp/kathachitra/0000/story_narration.mp3") None
           "/tmp/kathachitra/0000/story_video.mp4" 32%Q session_world).
  right. exists RuntimeError. reflexivity.
Defined.

(** ** What a composition does *)

Section StoryEvents.
Context {F : Type} {num : NumOps F} (env : Env F) (D : F -> Prop).
Context (HD : forall audio_path w d w',
            video_duration env audio_path w = (Ok d, w') -> D d).
Variables (image_base64 audio_path : option string) (story_text title : str)
          (session_dir : string) (enable_captions : bool).

Let P : event F -> Prop :=
  story_video_event D audio_path story_text session_dir enable_captions.









End StoryEvents.


Section WellTimed.



End WellTimed.


(** ** Where a composition writes *)

Ltac walk Hr Ht :=
  repeat first
    [ apply (keeps_ret _ Hr) | apply (keeps_raise _ Hr)
    | apply (keeps_of_result _ Hr) | apply (keeps_of_error _ Hr)
    | apply (keeps_exists_ _ Hr) | apply (keeps_st_size _ Hr)
    | apply (keeps_present _ Hr)
    | apply (keeps_try_except _ Ht) | apply (keeps_bind _ Ht)
    | match goal with |- forall _, _ => intro end
    | match goal with
      | |- keeps _ (if ?c then _ else _) => destruct c
      | |- keeps _ (match ?c with _ => _ end) => destruct c
      end ].

(** A relation between worlds that holds across every print, probe or
    encoder event, and across a write to a path that [okpath] allows,
    holds across a whole composition that writes to such paths only. *)
Section Walk.
Context {F : Type} {num : NumOps F} (env : Env F).
Context (R : World F -> World F -> Prop) (okpath : string -> Prop).
Context (Hr : forall w, R w w)
        (Ht : forall w1 w2 w3, R w1 w2 -> R w2 w3 -> R w1 w3)
        (Hlog : forall ev w,
            R w {| dirs := dirs w; files := files w; trace := trace w ++ [ev] |})
        (Hfile : forall p n w, okpath p -> R w (set_file p n w)).

Lemma walk_log ev : keeps R (log ev).
Proof using Hlog. intros w r w' [= _ <-]. apply Hlog. Qed.

Lemma walk_file_opt p n w : okpath p -> R w (set_file_opt p n w).
Proof using Hr Hfile. destruct n; [apply Hfile|intros _; apply Hr]. Qed.

Lemma walk_save img out : okpath out -> keeps R (save env img out).
Proof using Hr Hfile.
  intros Hout w r w'. unfold save.
  destruct (Image_save env img out); intros [= _ <-];
    [apply Hfile|apply walk_file_opt]; exact Hout.
Qed.

Lemma walk_write_captions path track :
  okpath path -> keeps R (write_captions env path track).
Proof using Hr Ht Hlog Hfile.
  intros Hp w r w'. unfold write_captions.
  destruct (write_srt env path track) as [n|e]; intros [= _ <-]; [|apply Hr].
  apply (Ht _ _ _ (Hlog (Wrote_srt path track) w)).
  exact (Hfile path n
           {| dirs := dirs w; files := files w;
              trace := trace w ++ [Wrote_srt path track] |} Hp).
Qed.

Lemma walk_run_ffmpeg cmd :
  okpath (plan_output cmd) -> keeps R (subprocess_run_ffmpeg env cmd).
Proof using Hr Ht Hlog Hfile.
  intros Hout w r w'. unfold subprocess_run_ffmpeg.
  assert (forall n, R w
            (set_file_opt (plan_output cmd) n
               {| dirs := dirs w; files := files w;
                  trace := trace w ++ [Ran_ffmpeg cmd] |})) as Hn.
  { intros n. apply (Ht _ _ _ (Hlog (Ran_ffmpeg cmd) w)).
    apply walk_file_opt, Hout. }
  destruct (run_ffmpeg env (ffmpeg_runs (trace w)) cmd) as [rc n|n|e];
    intros [= _ <-]; try apply Hn.
  apply (Hn None).
Qed.

Lemma plan_output_ffmpeg_cmd image audio (wa : bool) burn out (d : F) :
  plan_output (ffmpeg_cmd image audio wa burn out d) = out.
Proof. unfold ffmpeg_cmd. destruct wa; reflexivity. Qed.

Lemma plan_output_simple_cmd image audio (wa : bool) out (d : F) :
  plan_output (simple_cmd image audio wa out d) = out.
Proof. unfold simple_cmd. destruct wa; reflexivity. Qed.

Lemma walk_simple_video image audio out d :
  okpath out -> keeps R (_create_simple_video env image audio out d).
Proof using Hr Ht Hlog Hfile.
  intros Hout. unfold _create_simple_video, import, print. walk Hr Ht.
  - apply walk_run_ffmpeg. rewrite plan_output_simple_cmd. exact Hout.
  - apply walk_log.
Qed.

Lemma walk_ffmpeg depth image audio out d : forall subtitle,
  okpath out ->
  keeps R (_create_video_ffmpeg_rec env depth image audio subtitle out d).
Proof using Hr Ht Hlog Hfile.
  induction depth as [|depth IH]; intros subtitle Hout.
  { apply keeps_raise, Hr. }
  cbn [_create_video_ffmpeg_rec]. unfold import, print.
  apply keeps_try_except; try assumption;
    [|intros e; apply keeps_bind; try assumption;
      [apply walk_log|intros _; apply keeps_ret, Hr]].
  apply keeps_bind; try assumption; [apply keeps_of_error, Hr|intros _].
  apply keeps_bind; try assumption; [apply keeps_of_result, Hr|intros _].
  apply keeps_bind; try assumption; [apply keeps_present, Hr|intros burn].
  apply keeps_bind; try assumption; [apply keeps_present, Hr|intros wa].
  apply keeps_bind; try assumption; [apply walk_log|intros _].
  apply keeps_bind; try assumption;
    [apply walk_run_ffmpeg; rewrite plan_output_ffmpeg_cmd; exact Hout|intros rc].
  apply keeps_bind; try assumption; [apply keeps_exists_, Hr|intros made].
  destruct ((rc =? 0)%Z && made); [apply keeps_ret, Hr|].
  apply keeps_bind; try assumption; [apply walk_log|intros _].
  destruct subtitle as [srt|].
  - apply keeps_bind; try assumption; [apply walk_log|intros _]. apply IH, Hout.
  - apply walk_simple_video, Hout.
Qed.

Lemma walk_probe a : keeps R (_get_audio_duration env a).
Proof using Hr Ht Hlog.
  unfold _get_audio_duration, import, subprocess_run_ffprobe, float_of, print.
  walk Hr Ht; apply walk_log.
Qed.

Lemma walk_video_duration ap : keeps R (video_duration env ap).
Proof using Hr Ht Hlog.
  unfold video_duration.
  apply keeps_bind; try assumption; [apply keeps_present, Hr|intros wa].
  destruct ap as [a|]; [|apply keeps_ret, Hr].
  destruct wa; [|apply keeps_ret, Hr].
  apply keeps_bind; try assumption; [apply walk_probe|intros probed].
  apply keeps_ret, Hr.
Qed.

Lemma walk_save_image image_base64 out :
  okpath out -> keeps R (_save_base64_image env image_base64 out).
Proof using Hr Ht Hlog Hfile.
  intros Hout. unfold _save_base64_image, import, print. walk Hr Ht.
  - apply walk_save, Hout.
  - apply walk_log.
Qed.

Lemma walk_subtitle_file story_text d session_dir :
  okpath (session_dir </> "captions.srt") ->
  keeps R (_create_subtitle_file env story_text d session_dir).
Proof using Hr Ht Hlog Hfile.
  intros Hp. unfold _create_subtitle_file, print. walk Hr Ht.
  - apply walk_write_captions, Hp.
  - apply walk_log.
  - apply walk_log.
Qed.

Lemma walk_create_story_video image_base64 audio_path story_text title
    session_dir enable_captions :
  (forall name, okpath (session_dir </> name)) ->
  keeps R (create_story_video env image_base64 audio_path story_text title
             session_dir enable_captions).
Proof using Hr Ht Hlog Hfile.
  intros Hok. unfold create_story_video, print.
  apply keeps_try_except; try assumption;
    [|intros e; apply keeps_bind; try assumption;
      [apply walk_log|intros _; apply keeps_ret, Hr]].
  apply keeps_bind; try assumption; [apply walk_save_image, Hok|intros _].
  apply keeps_bind; try assumption; [apply keeps_exists_, Hr|intros saved].
  destruct (negb saved).
  { apply keeps_bind; try assumption; [apply walk_log|intros _; apply keeps_ret, Hr]. }
  apply keeps_bind; try assumption; [apply walk_video_duration|intros d].
  apply keeps_bind; try assumption; [apply walk_log|intros _].
  apply keeps_bind; try assumption.
  { destruct (enable_captions && _); [apply walk_subtitle_file, Hok|apply keeps_ret, Hr]. }
  intros sp. apply keeps_bind; try assumption; [apply walk_ffmpeg, Hok|intros success].
  apply keeps_bind; try assumption;
    [destruct success; [apply keeps_exists_, Hr|apply keeps_ret, Hr]|intros made].
  destruct (success && made); [|apply keeps_ret, Hr].
  apply keeps_bind; try assumption; [apply keeps_st_size, Hr|intros size].
  apply keeps_bind; try assumption; [apply walk_log|intros _; apply keeps_ret, Hr].
Qed.

Lemma walk_narration story_text language session_dir voice_style :
  okpath (session_dir </> "story_narration.mp3") ->
  keeps R (generate_full_narration env story_text language session_dir voice_style).
Proof using Hr Ht Hlog Hfile.
  intros Hp. unfold generate_full_narration, print.
  destruct (tts_output env story_text language voice_style) as [size|].
  - apply keeps_bind; try assumption.
    + intros w r w' [= _ <-]. apply Hfile, Hp.
    + intros _. destruct (0 <? size)%N; [apply keeps_ret, Hr|].
      apply keeps_bind; try assumption; [apply walk_log|intros _; apply keeps_ret, Hr].
  - apply keeps_bind; try assumption; [apply walk_log|intros _; apply keeps_ret, Hr].
Qed.

End Walk.

Section Instances.
Context {F : Type} {num : NumOps F} (env : Env F).

Lemma touches_create_story_video image_base64 audio_path story_text title
    session_dir enable_captions :
  keeps (touches_only session_dir)
    (create_story_video env image_base64 audio_path story_text title
       session_dir enable_captions).
Proof.
  apply (walk_create_story_video env (touches_only session_dir)
           (fun p => under session_dir p = true)).
  - apply touches_refl.
  - apply touches_trans.
  - intros ev w p _. split; reflexivity.
  - intros p n w Hp. apply touches_set_file, Hp.
  - intros name. apply under_joinpath.
Qed.

Lemma same_dirs_create_story_video image_base64 audio_path story_text title
    session_dir enable_captions :
  keeps same_dirs
    (create_story_video env image_base64 audio_path story_text title
       session_dir enable_captions).
Proof.
  apply (walk_create_story_video env same_dirs (fun _ => True)).
  - reflexivity.
  - unfold same_dirs. intros w1 w2 w3 H1 H2. congruence.
  - reflexivity.
  - reflexivity.
  - intros name. exact I.
Qed.

End Instances.

(** X14.  [create_story_video] stays inside its session directory: in
    every environment, no file and no directory outside [session_dir] is
    created, changed or removed. *)
Theorem create_story_video_stays_in_session {F : Type} {num : NumOps F}
    (env : Env F) (image_base64 audio_path : option string)
    (story_text title : str) (session_dir : string) (enable_captions : bool)
    (w : World F) :
  touches_only session_dir w
    (create_story_video env image_base64 audio_path story_text title
       session_dir enable_captions w).2.
Proof.
  destruct (create_story_video env image_base64 audio_path story_text title
              session_dir enable_captions w) as [r w'] eqn:E.
  exact (touches_create_story_video env image_base64 audio_path story_text
           title session_dir enable_captions w r w' E).
Qed.

(** ** Sessions *)

Section Session.
Context {F : Type} {num : NumOps F} (env : Env F).

Lemma create_session_dir_Ok (w : World F) :
  Path_mkdir env (base_dir </> uuid_uuid4 env w) = None ->
  create_session_dir env w
  = (Ok (base_dir </> uuid_uuid4 env w),
     {| dirs := {[base_dir </> uuid_uuid4 env w]} ∪ dirs w;
        files := files w; trace := trace w |}).
Proof. intros H. unfold create_session_dir, bind, mkdir. rewrite H. reflexivity. Qed.

Lemma create_session_dir_Raise (w : World F) e :
  Path_mkdir env (base_dir </> uuid_uuid4 env w) = Some e ->
  create_session_dir env w = (Raise e, w).
Proof. intros H. unfold create_session_dir, bind, mkdir. rewrite H. reflexivity. Qed.

(** After the cleanup the directory is not there, whether the removal
    succeeded on an existing directory or there was nothing to remove. *)
Lemma cleanup_session_removed session_dir (w : World F) :
  (forall v, shutil_rmtree env v session_dir = Removed) ->
  exists w',
    cleanup_session env session_dir w = (Ok tt, w')
    /\ (session_dir ∉ dirs w') /\ files w' !! session_dir = None
    /\ (path_exists w session_dir = true ->
        forall p, under session_dir p = true -> files w' !! p = None)
    /\ touches_only session_dir w w' /\ trace w' = trace w.
Proof.
  intros Hrm. unfold cleanup_session, try_except, bind, exists_.
  destruct (path_exists w session_dir) eqn:Hex.
  - unfold rmtree. rewrite Hrm. eexists. split; [reflexivity|]. cbn [dirs files trace].
    split; [rewrite elem_of_filter, under_refl; intros [[=] _]|].
    split; [apply map_lookup_filter_None_2; right; intros n _; cbn;
            rewrite under_refl; discriminate|].
    split; [intros _ p Hp; apply map_lookup_filter_None_2; right; intros n _; cbn;
            rewrite Hp; discriminate|].
    split; [|reflexivity].
    intros q Hq. cbn [dirs files]. split.
    + destruct (files w !! q) as [n|] eqn:Eq.
      * apply map_lookup_filter_Some_2; [exact Eq|exact Hq].
      * apply map_lookup_filter_None_2. left. exact Eq.
    + rewrite elem_of_filter. tauto.
  - exists w. split; [reflexivity|]. unfold path_exists in Hex.
    apply orb_false_iff in Hex as [Hd Hf].
    apply bool_decide_eq_false in Hd, Hf.
    split; [exact Hd|].
    split; [destruct (files w !! session_dir); [exfalso; apply Hf; eauto|reflexivity]|].
    split; [discriminate|]. split; [apply touches_refl|reflexivity].
Qed.

End Session.

(** X15.  [with session() as d: body(d)]: when the directory can be made
    and removed, the block returns or raises exactly what the body returns
    or raises, and afterwards the session directory is gone, with all that
    was below it, also when the body raised; the cleanup touches nothing
    outside the session.  When the directory cannot be made, the error
    propagates and the body does not run. *)
Theorem with_session_cleans_up {F A : Type} {num : NumOps F} (env : Env F)
    (body : string -> M F A) (w : World F) :
  let session_dir := base_dir </> uuid_uuid4 env w in
  (forall v, shutil_rmtree env v session_dir = Removed) ->
  match Path_mkdir env session_dir with
  | Some e => with_session env body w = (Raise e, w)
  | None =>
      exists r w1 w',
        body session_dir
          {| dirs := {[session_dir]} ∪ dirs w; files := files w; trace := trace w |}
        = (r, w1)
        /\ with_session env body w = (r, w')
        /\ (session_dir ∉ dirs w')
        /\ (path_exists w1 session_dir = true ->
            forall p, under session_dir p = true -> files w' !! p = None)
        /\ touches_only session_dir w1 w'
  end.
Proof.
  intros session_dir Hrm. unfold with_session.
  destruct (Path_mkdir env session_dir) as [e|] eqn:Hmk.
  - rewrite (bind_run_Raise _ _ _ _ _ (create_session_dir_Raise env w e Hmk)).
    reflexivity.
  - rewrite (bind_run_Ok _ _ _ _ _ (create_session_dir_Ok env w Hmk)).
    fold session_dir. unfold try_finally.
    destruct (body session_dir _) as [r w1] eqn:Eb.
    destruct (cleanup_session_removed env session_dir w1 Hrm)
      as (w' & Ec & Hd & _ & Hunder & Htouch & _).
    exists r, w1, w'. rewrite Ec. repeat split; try assumption.
    + apply Htouch. assumption.
    + apply Htouch. assumption.
    + apply Htouch. assumption.
Qed.

(** Witness of X15: a body that saves nothing and raises. *)
Lemma with_session_cleans_up_witness :
  exists w',
    with_session (F:=Q) (A:=unit) env_no_tool (fun _ => raise ValueError) empty_world
    = (Raise ValueError, w')
    /\ ("/tmp/kathachitra/0000" ∉ dirs w').
Proof.
  pose proof (with_session_cleans_up (F:=Q) (A:=unit) env_no_tool
                (fun _ => raise ValueError) empty_world) as H.
  cbv zeta in H. specialize (H (fun v => eq_refl)).
  change (Path_mkdir (F:=Q) env_no_tool (base_dir </> uuid_uuid4 env_no_tool empty_world))
    with (@None exn) in H. cbv beta iota in H.
  destruct H as (r & w1 & w' & Eb & E & Hd & _).
  injection Eb as <- _. exists w'. split; [exact E|exact Hd].
Defined.

(** ** The endpoint *)

Section EndpointOutcomes.
Context {F : Type} {num : NumOps F} (env : Env F).

(** A path is returned only for an output file that is there. *)
Lemma create_story_video_Some image_base64 audio_path story_text title
    session_dir enable_captions (w w' : World F) p :
  create_story_video env image_base64 audio_path story_text title
    session_dir enable_captions w = (Ok (Some p), w') ->
  p = session_dir </> "story_video.mp4" /\ is_Some (files w' !! p).
Proof.
  intros E.
  apply try_except_result in E as [(a & E & [= <-])|(e & w1 & _ & E)].
  - apply bind_Ok in E as (_ & w1 & _ & E).
    apply bind_Ok in E as (saved & w2 & _ & E).
    destruct (negb saved).
    { apply bind_Ok in E as (_ & ? & _ & [= ]). }
    apply bind_Ok in E as (duration & w3 & _ & E).
    apply bind_Ok in E as (_ & w4 & _ & E).
    apply bind_Ok in E as (subtitle_path & w5 & _ & E).
    apply bind_Ok in E as (success & w6 & _ & E).
    apply bind_Ok in E as (made & w7 & _ & E).
    destruct (success && made); [|discriminate].
    apply bind_Ok in E as (size & w8 & Hsize & E).
    apply bind_Ok in E as (u & w9 & Hprint & E).
    apply ret_Ok in E as [[= <-] <-].
    apply st_size_Ok in Hsize as [-> Hsize].
    apply print_Ok in Hprint as (_ & -> & _).
    split; [reflexivity|]. rewrite Hsize. eauto.
  - apply bind_Ok in E as (_ & ? & _ & [=]).
Qed.

(** The four ways a request can end. *)
Lemma generate_video_cases (request : VideoGenerateRequest) (w : World F) :
  let session_dir := base_dir </> uuid_uuid4 env w in
  let run := generate_video env request w in
  (story_text request = []
   /\ run = (Raise (HTTPException 400 "Story text required"), w))
  \/ (story_text request <> []
      /\ exists e, Path_mkdir env session_dir = Some e /\ run = (Raise e, w))
  \/ (story_text request <> [] /\ Path_mkdir env session_dir = None
      /\ exists w',
           run = (Ok {| body_path := session_dir </> "story_video.mp4";
                        background_cleanup := session_dir |}, w')
           /\ is_Some (files w' !! (session_dir </> "story_video.mp4"))
           /\ session_dir ∈ dirs w')
  \/ (story_text request <> [] /\ Path_mkdir env session_dir = None
      /\ exists w',
           run = (Raise (HTTPException 500 "Failed to create video"), w')
           /\ ((forall v, shutil_rmtree env v session_dir = Removed) ->
               (session_dir ∉ dirs w')
               /\ forall p, under session_dir p = true -> files w' !! p = None)).
Proof.
  intros session_dir run. subst run. unfold generate_video.
  destruct (bool_decide (story_text request = [])) eqn:Htext.
  { left. apply bool_decide_eq_true in Htext. split; [exact Htext|reflexivity]. }
  apply bool_decide_eq_false in Htext. right.
  destruct (Path_mkdir env session_dir) as [e|] eqn:Hmk.
  { left. split; [exact Htext|]. exists e. split; [reflexivity|].
    rewrite (bind_run_Raise _ _ _ _ _ (create_session_dir_Raise env w e Hmk)).
    reflexivity. }
  right. rewrite (bind_run_Ok _ _ _ _ _ (create_session_dir_Ok env w Hmk)).
  fold session_dir.
  set (w1 := {| dirs := {[session_dir]} ∪ dirs w; files := files w; trace := trace w |}).
  set (w2 := {| dirs := dirs w1; files := files w1;
                trace := trace w1 ++ [Printed Generating_narration] |}).
  destruct (narration_effect env (story_text request) (language request)
              session_dir (voice_style request) w2)
    as (audio_path & w3 & Enarr & Hd3 & _ & _).
  set (w4 := {| dirs := dirs w3; files := files w3;
                trace := trace w3 ++ [Printed Creating_video_stage] |}).
  destruct (create_story_video_total env (video_image request) audio_path
              (story_text request) (title request) session_dir
              (enable_captions request) w4) as (v & w5 & Ecsv).
  pose proof (same_dirs_create_story_video env _ _ _ _ _ _ _ _ _ Ecsv) as Hd5.
  unfold same_dirs in Hd5.
  assert (session_dir ∈ dirs w5) as Hin.
  { rewrite Hd5. cbn [dirs w4]. rewrite Hd3. cbn [dirs w2 w1].
    apply elem_of_union. left. apply elem_of_singleton. reflexivity. }
  assert (forall k : option string -> M F StreamingResponse,
    (print Generating_narration ;;;
     audio_path <- generate_full_narration env (story_text request)
                     (language request) session_dir (voice_style request) ;;
     print Creating_video_stage ;;;
     video_path <- create_story_video env (video_image request) audio_path
                     (story_text request) (title request) session_dir
                     (enable_captions request) ;;
     k video_path) w1 = k v w5) as Hbody.
  { intros k. unfold bind at 1. unfold print at 1, log at 1. fold w2.
    rewrite (bind_run_Ok _ _ _ _ _ Enarr).
    unfold bind at 1. unfold print at 1, log at 1. fold w4.
    rewrite (bind_run_Ok _ _ _ _ _ Ecsv). reflexivity. }
  unfold try_except.
  rewrite (Hbody (fun video_path =>
             made <- present video_path ;;
             match video_path, made with
             | Some p, true =>
                 ret {| body_path := p; background_cleanup := session_dir |}
             | _, _ => raise (HTTPException 500 "Failed to create video")
             end)).
  assert (forall w6 : World F,
             (cleanup_session env session_dir ;;;
              raise (A:=StreamingResponse)
                (HTTPException 500 "Failed to create video")) w5
             = (Raise (HTTPException 500 "Failed to create video"), w6) ->
             (forall v, shutil_rmtree env v session_dir = Removed) ->
             (session_dir ∉ dirs w6)
             /\ forall p, under session_dir p = true -> files w6 !! p = None)
    as Hclean.
  { intros w6 E Hrm.
    destruct (cleanup_session_removed env session_dir w5 Hrm)
      as (w' & Ec & Hgone & _ & Hunder & _).
    rewrite (bind_run_Ok _ _ _ _ _ Ec) in E. injection E as <-.
    split; [exact Hgone|]. apply Hunder. unfold path_exists.
    rewrite (bool_decide_eq_true_2 _ Hin). reflexivity. }
  assert (exists w6,
             (cleanup_session env session_dir ;;;
              raise (A:=StreamingResponse)
                (HTTPException 500 "Failed to create video")) w5
             = (Raise (HTTPException 500 "Failed to create video"), w6))
    as (w6 & Efail).
  { destruct (cleanup_session_total env session_dir w5) as ([] & w6 & Ec).
    exists w6. rewrite (bind_run_Ok _ _ _ _ _ Ec). reflexivity. }
  destruct v as [p|].
  - destruct (create_story_video_Some _ _ _ _ _ _ _ _ _ Ecsv) as [-> Hfile].
    unfold bind at 1, present, exists_, path_exists.
    destruct Hfile as [n Hn]. rewrite Hn.
    rewrite (bool_decide_eq_true_2 (is_Some (Some n))) by eauto.
    rewrite orb_true_r. cbv beta iota.
    left. split; [exact Htext|]. split; [reflexivity|].
    exists w5. split; [reflexivity|]. split; [rewrite Hn; eauto|exact Hin].
  - unfold bind at 1, present, ret. cbv beta iota. unfold raise at 1.
    right. split; [exact Htext|]. split; [reflexivity|].
    exists w6. split; [exact Efail|]. apply Hclean, Efail.
Qed.

End EndpointOutcomes.

(** X16.  A request to [/generate-video] ends in one of four ways: with
    an empty story text, error 400 and nothing done; when the session
    directory cannot be made, that error, raw, and nothing done; a
    streamed response whose file is the session's [story_video.mp4], which
    exists, with the session directory still there for the background
    cleanup; or error 500 "Failed to create video", after which, when the
    removal works, the session directory and all below it are gone.  The
    handler's second branch ("Video generation failed") is never taken. *)
Theorem generate_video_outcomes {F : Type} {num : NumOps F} (env : Env F)
    (request : VideoGenerateRequest) (w : World F) :
  let session_dir := base_dir </> uuid_uuid4 env w in
  let run := generate_video env request w in
  (story_text request = []
   /\ run = (Raise (HTTPException 400 "Story text required"), w))
  \/ (story_text request <> []
      /\ exists e, Path_mkdir env session_dir = Some e /\ run = (Raise e, w))
  \/ (story_text request <> [] /\ Path_mkdir env session_dir = None
      /\ exists w',
           run = (Ok {| body_path := session_dir </> "story_video.mp4";
                        background_cleanup := session_dir |}, w')
           /\ is_Some (files w' !! (session_dir </> "story_video.mp4"))
           /\ session_dir ∈ dirs w')
  \/ (story_text request <> [] /\ Path_mkdir env session_dir = None
      /\ exists w',
           run = (Raise (HTTPException 500 "Failed to create video"), w')
           /\ ((forall v, shutil_rmtree env v session_dir = Removed) ->
               (session_dir ∉ dirs w')
               /\ forall p, under session_dir p = true -> files w' !! p = None)).
Proof. exact (generate_video_cases env request w). Qed.

(** X17.  After a streamed response, running the background task (the
    cleanup of the session that the response names) removes the session
    directory and everything below it, the streamed video included, when
    the removal works. *)
Theorem background_cleanup_removes_session {F : Type} {num : NumOps F}
    (env : Env F) (request : VideoGenerateRequest) (w w' : World F)
    (response : StreamingResponse) :
  generate_video env request w = (Ok response, w') ->
  (forall v, shutil_rmtree env v (background_cleanup response) = Removed) ->
  exists w'',
    cleanup_session env (background_cleanup response) w' = (Ok tt, w'')
    /\ (background_cleanup response ∉ dirs w'')
    /\ files w'' !! body_path response = None
    /\ forall p, under (background_cleanup response) p = true ->
                 files w'' !! p = None.
Proof.
  intros E Hrm.
  destruct (generate_video_cases env request w)
    as [[_ E1]|[(_ & e & _ & E1)|[(_ & _ & w1 & E1 & Hfile & Hin)|(_ & _ & w1 & E1 & _)]]];
    rewrite E in E1; try discriminate.
  injection E1 as -> <-. cbn [background_cleanup body_path] in *.
  destruct (cleanup_session_removed env _ w' Hrm)
    as (w'' & Ec & Hgone & _ & Hunder & _).
  assert (path_exists w' (base_dir </> uuid_uuid4 env w) = true) as Hex.
  { unfold path_exists. rewrite (bool_decide_eq_true_2 _ Hin). reflexivity. }
  exists w''. split; [exact Ec|]. split; [exact Hgone|].
  split; [apply (Hunder Hex), under_joinpath|apply (Hunder Hex)].
Qed.

(** Witness of X17. *)
Lemma background_cleanup_removes_session_witness :
  exists w' w'',
    generate_video (F:=Q) env_no_tool fox_request empty_world
    = (Ok {| body_path := "/tmp/kathachitra/0000/story_video.mp4";
             background_cleanup := "/tmp/kathachitra/0000" |}, w')
    /\ cleanup_session env_no_tool "/tmp/kathachitra/0000" w' = (Ok tt, w'')
    /\ files w'' !! "/tmp/kathachitra/0000/story_video.mp4" = None.
Proof.
  destruct (generate_video (F:=Q) env_no_tool fox_request empty_world)
    as [r w'] eqn:E.
  assert (r = Ok {| body_path := "/tmp/kathachitra/0000/story_video.mp4";
                    background_cleanup := "/tmp/kathachitra/0000" |}) as ->.
  { apply (f_equal fst) in E. cbn [fst] in E. rewrite <- E. vm_compute. reflexivity. }
  destruct (background_cleanup_removes_session (F:=Q) env_no_tool fox_request
              empty_world w' _ E) as (w'' & Ec & _ & Hf & _).
  - intros v. reflexivity.
  - exists w', w''. split; [reflexivity|]. split; [exact Ec|exact Hf].
Defined.

Section EndpointFiles.
Context {F : Type} {num : NumOps F} (env : Env F).

Lemma touches_cleanup_session session_dir :
  keeps (touches_only session_dir) (cleanup_session env session_dir).
Proof.
  pose proof (touches_refl (F:=F) session_dir) as Hr.
  pose proof (touches_trans (F:=F) session_dir) as Ht.
  unfold cleanup_session, print.
  apply keeps_try_except; try assumption.
  - apply keeps_bind; try assumption; [apply keeps_exists_, Hr|intros there].
    destruct there; [|apply keeps_ret, Hr].
    intros w r w' E q Hq.
    destruct (rmtree_local env _ _ _ _ _ E Hq) as (H1 & H2 & _). split; assumption.
  - intros e w r w' [= _ <-] q _. split; reflexivity.
Qed.

End EndpointFiles.

(** X18.  A request touches nothing outside its own session directory: in
    every environment, whatever the outcome, no file or directory that is
    not the session directory or below it is created, changed or removed. *)
Theorem generate_video_stays_in_session {F : Type} {num : NumOps F}
    (env : Env F) (request : VideoGenerateRequest) (w : World F) :
  touches_only (base_dir </> uuid_uuid4 env w) w
    (generate_video env request w).2.
Proof.
  set (session_dir := base_dir </> uuid_uuid4 env w).
  pose proof (touches_refl (F:=F) session_dir) as Hr.
  pose proof (touches_trans (F:=F) session_dir) as Ht.
  unfold generate_video.
  destruct (bool_decide (story_text request = [])); [apply Hr|].
  destruct (Path_mkdir env session_dir) as [e|] eqn:Hmk.
  { rewrite (bind_run_Raise _ _ _ _ _ (create_session_dir_Raise env w e Hmk)).
    apply Hr. }
  rewrite (bind_run_Ok _ _ _ _ _ (create_session_dir_Ok env w Hmk)).
  fold session_dir.
  apply (Ht _ {| dirs := {[session_dir]} ∪ dirs w; files := files w;
                 trace := trace w |}).
  { intros q Hq. cbn [dirs files]. split; [reflexivity|].
    rewrite elem_of_union, elem_of_singleton. split; [|tauto].
    intros [->|H]; [|exact H]. rewrite under_refl in Hq. discriminate. }
  match goal with
  | |- touches_only _ ?v (?m ?v).2 =>
      destruct (m v) as [r w'] eqn:E; revert E; generalize v;
      intros v0 E; revert v0 r w' E;
      change (keeps (touches_only session_dir) m)
  end.
  assert (forall name, under session_dir (session_dir </> name) = true) as Hok
    by (intros; apply under_joinpath).
  assert (forall ev (v : World F),
             touches_only session_dir v
               {| dirs := dirs v; files := files v; trace := trace v ++ [ev] |})
    as Hlog by (intros ev v q _; split; reflexivity).
  assert (forall p n (v : World F), under session_dir p = true ->
             touches_only session_dir v (set_file p n v)) as Hfile
    by (intros; apply touches_set_file; assumption).
  unfold print.
  apply keeps_try_except; try assumption.
  - apply keeps_bind; try assumption; [apply walk_log, Hlog|intros _].
    apply keeps_bind; try assumption;
      [apply (walk_narration env _ (fun p => under session_dir p = true));
       auto|intros audio_path].
    apply keeps_bind; try assumption; [apply walk_log, Hlog|intros _].
    apply keeps_bind; try assumption;
      [apply touches_create_story_video|intros video_path].
    apply keeps_bind; try assumption; [apply keeps_present, Hr|intros made].
    destruct video_path, made; first [apply keeps_ret, Hr|apply keeps_raise, Hr].
  - intros e. destruct e;
      (apply keeps_bind; try assumption; [apply touches_cleanup_session|intros _]);
      first [apply keeps_raise, Hr
            |apply keeps_bind; try assumption;
             [apply walk_log, Hlog|intros _; apply keeps_raise, Hr]].
Qed.

(** ** The sweep of old session directories *)

Section SweepProofs.
Context {F : Type} {num : NumOps F} (env : Env F) (host : Host F).

(** A removal only removes. *)
Lemma rmtree_shrinks p r (w w' : World F) :
  rmtree env p w = (r, w') ->
  (forall q, q ∈ dirs w' -> q ∈ dirs w)
  /\ (forall q n, files w' !! q = Some n -> files w !! q = Some n).
Proof.
  unfold rmtree. intros E.
  destruct (shutil_rmtree env w p) as [|e gone]; injection E as <- <-;
    cbn [dirs files]; split.
  - intros q Hq. apply elem_of_filter in Hq. tauto.
  - intros q n Hq. apply map_lookup_filter_Some in Hq. tauto.
  - intros q Hq. apply elem_of_filter in Hq. tauto.
  - intros q n Hq. apply map_lookup_filter_Some in Hq. tauto.
Qed.

Lemma doomed_cons limit (w : World F) a rest q :
  doomed host limit w (a :: rest) q
  <-> (a ∈ dirs w /\ expired host limit a /\ under a q = true)
      \/ doomed host limit w rest q.
Proof.
  unfold doomed. split.
  - intros (i & [<-|Hi] & H); [left; exact H|right; exists i; tauto].
  - intros [H|(i & Hi & H)]; [exists a|exists i]; (split; [|exact H]);
      [left; reflexivity|right; exact Hi].
Qed.

(** Whatever happens, the loop only removes, and only in or below listed
    directories that have expired. *)
Lemma sweep_safe limit items : forall w : World F,
  exists r w',
    sweep env host (time_time host) (of_int limit) items w = (r, w')
    /\ trace w' = trace w
    /\ (forall q, q ∈ dirs w' -> q ∈ dirs w)
    /\ (forall q n, files w' !! q = Some n -> files w !! q = Some n)
    /\ (forall q, ~ doomed host limit w items q ->
                  (q ∈ dirs w' <-> q ∈ dirs w) /\ files w' !! q = files w !! q).
Proof.
  induction items as [|a rest IH]; intros w.
  - exists (Ok tt), w. repeat split; auto.
  - cbn [sweep]. unfold bind at 1. unfold bind at 1, is_dir.
    destruct (bool_decide (a ∈ dirs w)) eqn:Ha.
    + apply bool_decide_eq_true in Ha.
      unfold bind at 1, of_result.
      destruct (stat_st_mtime host a) as [mt|e] eqn:Hmt.
      * destruct (gtb (sub (time_time host) mt) (of_int limit)) eqn:Hold.
        -- assert (expired host limit a) as Hexp by (exists mt; split; assumption).
           destruct (rmtree env a w) as [r1 w1] eqn:E1.
           destruct (rmtree_shrinks _ _ _ _ E1) as [Hd1 Hf1].
           assert (forall q, ~ doomed host limit w (a :: rest) q ->
                     (q ∈ dirs w1 <-> q ∈ dirs w) /\ files w1 !! q = files w !! q
                     /\ trace w1 = trace w) as Hloc.
           { intros q Hq. apply (rmtree_local env a q r1 w w1 E1).
             destruct (under a q) eqn:Hu; [|reflexivity].
             exfalso. apply Hq, doomed_cons. left. repeat split; assumption. }
           assert (trace w1 = trace w) as Ht1.
           { revert E1. unfold rmtree.
             destruct (shutil_rmtree env w a); intros [= _ <-]; reflexivity. }
           destruct r1 as [[]|e].
           ++ destruct (IH w1) as (r & w' & E & Ht & Hd & Hf & Hsame).
              exists r, w'. split; [exact E|]. split; [congruence|].
              split; [auto|]. split; [auto|].
              intros q Hq. destruct (Hloc q Hq) as (Hq1 & Hq2 & _).
              destruct (Hsame q) as [Hq3 Hq4].
              { intros (i & Hi & Hin & Hexp' & Hu). apply Hq, doomed_cons. right.
                exists i. repeat split; auto. }
              split; [rewrite Hq3; exact Hq1|congruence].
           ++ exists (Raise e), w1. split; [reflexivity|]. split; [exact Ht1|].
              split; [exact Hd1|]. split; [exact Hf1|].
              intros q Hq. destruct (Hloc q Hq) as (Hq1 & Hq2 & _). tauto.
        -- unfold ret at 1.
           destruct (IH w) as (r & w' & E & Ht & Hd & Hf & Hsame).
           exists r, w'. repeat (split; [assumption|]).
           intros q Hq. apply Hsame. intros H. apply Hq, doomed_cons. right. exact H.
      * exists (Raise e), w. repeat split; auto.
    + unfold ret at 1.
      destruct (IH w) as (r & w' & E & Ht & Hd & Hf & Hsame).
      exists r, w'. repeat (split; [assumption|]).
      intros q Hq. apply Hsame. intros H. apply Hq, doomed_cons. right. exact H.
Qed.

(** With the modification times readable and the removals working, the loop
    removes what lies in or below an expired directory of the listing, and
    nothing else. *)
Lemma sweep_removes limit items : forall w : World F,
  independent items ->
  (forall item, In item items -> item ∈ dirs w ->
                exists mtime, stat_st_mtime host item = Ok mtime) ->
  (forall v p, shutil_rmtree env v p = Removed) ->
  exists w',
    sweep env host (time_time host) (of_int limit) items w = (Ok tt, w')
    /\ (forall q, q ∈ dirs w' <-> q ∈ dirs w /\ ~ doomed host limit w items q)
    /\ (forall q, doomed host limit w items q -> files w' !! q = None)
    /\ (forall q, files w !! q = None -> files w' !! q = None).
Proof.
  induction items as [|a rest IH]; intros w Hind Hstat Hrm.
  - exists w. split; [reflexivity|]. split; [|split].
    + intros q. split; [intros H; split; [exact H|intros (i & [] & _)]|tauto].
    + intros q (i & [] & _).
    + auto.
  - cbn [sweep]. unfold bind at 1. unfold bind at 1, is_dir.
    assert (independent rest) as Hind'.
    { intros x y Hx Hy. apply Hind; right; assumption. }
    assert (forall w0 : World F,
              (forall q, q ∈ dirs w0 -> q ∈ dirs w) ->
              forall item, In item rest -> item ∈ dirs w0 ->
                           exists mtime, stat_st_mtime host item = Ok mtime) as Hstat'.
    { intros w0 Hsub item Hi Hin. apply Hstat; [right; exact Hi|auto]. }
    destruct (bool_decide (a ∈ dirs w)) eqn:Ha.
    + apply bool_decide_eq_true in Ha.
      destruct (Hstat a (or_introl eq_refl) Ha) as [mt Hmt].
      unfold bind at 1, of_result. rewrite Hmt.
      destruct (gtb (sub (time_time host) mt) (of_int limit)) eqn:Hold.
      * (* expired: removed *)
        unfold rmtree at 1. rewrite Hrm.
        set (w1 := {| dirs := filter (fun q => under a q = false) (dirs w);
                      files := filter (fun kv => under a kv.1 = false) (files w);
                      trace := trace w |}).
        assert (expired host limit a) as Hexp by (exists mt; split; assumption).
        assert (forall q, q ∈ dirs w1 <-> q ∈ dirs w /\ under a q = false) as Hd1.
        { intros q. cbn [dirs w1]. rewrite elem_of_filter. tauto. }
        assert (forall b, In b rest -> b ∈ dirs w1 <-> b ∈ dirs w /\ b <> a) as Hrest.
        { intros b Hb. rewrite Hd1. split.
          - intros [Hin Hu]. split; [exact Hin|]. intros ->.
            rewrite under_refl in Hu. discriminate.
          - intros [Hin Hne]. split; [exact Hin|].
            apply Hind; [left; reflexivity|right; exact Hb|congruence]. }
        destruct (IH w1 Hind') as (w' & E & Hd & Hf1 & Hf2).
        { apply Hstat'. intros q Hq. apply Hd1 in Hq. tauto. }
        { exact Hrm. }
        exists w'. split; [exact E|].
        assert (forall q, doomed host limit w (a :: rest) q
                          <-> under a q = true \/ doomed host limit w1 rest q) as Hdoom.
        { intros q. rewrite doomed_cons. split.
          - intros [(_ & _ & Hu)|(i & Hi & Hin & Hexp' & Hu)]; [left; exact Hu|].
            destruct (decide (i = a)) as [->|Hne]; [left; exact Hu|].
            right. exists i. split; [exact Hi|]. split; [|split; assumption].
            apply (Hrest i Hi). split; assumption.
          - intros [Hu|(i & Hi & Hin & Hexp' & Hu)]; [left; repeat split; assumption|].
            right. exists i. split; [exact Hi|]. split; [|split; assumption].
            apply (Hrest i Hi), Hin. }
        assert (forall q, under a q = true -> files w1 !! q = None) as Hgone.
        { intros q Hu. cbn [files w1]. apply map_lookup_filter_None_2. right.
          intros n _. cbn. rewrite Hu. discriminate. }
        assert (forall q, files w !! q = None -> files w1 !! q = None) as Hmono.
        { intros q Hq. cbn [files w1]. apply map_lookup_filter_None_2. left. exact Hq. }
        split; [|split].
        -- intros q. rewrite Hd, Hdoom, Hd1.
           destruct (under a q).
           ++ split; [intros [[_ [=]] _]|].
              intros [_ H]. exfalso. apply H. left. reflexivity.
           ++ split.
              ** intros [[H1 _] H2]. split; [exact H1|].
                 intros [[=]|H3]. exact (H2 H3).
              ** intros [H1 H2]. split; [split; [exact H1|reflexivity]|].
                 intros H3. apply H2. right. exact H3.
        -- intros q Hq. apply Hdoom in Hq. destruct Hq as [Hu|Hq].
           ++ apply Hf2, Hgone, Hu.
           ++ apply Hf1, Hq.
        -- intros q Hq. apply Hf2, Hmono, Hq.
      * (* not older than the limit: kept *)
        unfold ret at 1.
        destruct (IH w Hind') as (w' & E & Hd & Hf1 & Hf2).
        { apply Hstat'. auto. }
        { exact Hrm. }
        exists w'. split; [exact E|].
        assert (forall q, doomed host limit w (a :: rest) q
                          <-> doomed host limit w rest q) as Hdoom.
        { intros q. rewrite doomed_cons. split; [|tauto].
          intros [(_ & (mt' & Hmt' & Hold') & _)|H]; [|exact H].
          rewrite Hmt in Hmt'. injection Hmt' as <-. congruence. }
        split; [|split].
        -- intros q. rewrite Hd, Hdoom. reflexivity.
        -- intros q Hq. apply Hf1, Hdoom, Hq.
        -- exact Hf2.
    + (* not a directory: skipped *)
      apply bool_decide_eq_false in Ha. unfold ret at 1.
      destruct (IH w Hind') as (w' & E & Hd & Hf1 & Hf2).
      { apply Hstat'. auto. }
      { exact Hrm. }
      exists w'. split; [exact E|].
      assert (forall q, doomed host limit w (a :: rest) q
                        <-> doomed host limit w rest q) as Hdoom.
      { intros q. rewrite doomed_cons. tauto. }
      split; [|split].
      -- intros q. rewrite Hd, Hdoom. reflexivity.
      -- intros q Hq. apply Hf1, Hdoom, Hq.
      -- exact Hf2.
Qed.

End SweepProofs.

(** X19.  The sweep of old session directories never raises, in any
    environment: a failure of the listing, of reading a modification time
    or of a removal is caught.  It logs nothing, creates no file and no
    directory, and leaves alone every path that is not in or below a listed
    directory older than the limit. *)
Theorem cleanup_old_files_safe {F : Type} {num : NumOps F}
    (env : Env F) (host : Host F) (max_age_seconds : option Z) (w : World F) :
  exists warning w',
    cleanup_old_files env host max_age_seconds w = (Ok warning, w')
    /\ trace w' = trace w
    /\ (forall q, q ∈ dirs w' -> q ∈ dirs w)
    /\ (forall q n, files w' !! q = Some n -> files w !! q = Some n)
    /\ (forall q,
          (forall items, Path_iterdir host base_dir = Ok items ->
                         ~ doomed host (age_limit max_age_seconds) w items q) ->
          (q ∈ dirs w' <-> q ∈ dirs w) /\ files w' !! q = files w !! q).
Proof.
  unfold cleanup_old_files, try_except. unfold bind at 1, of_result.
  fold (age_limit max_age_seconds).
  destruct (Path_iterdir host base_dir) as [items|e] eqn:Hl.
  - destruct (sweep_safe env host (age_limit max_age_seconds) items w)
      as (r & w' & E & Ht & Hd & Hf & Hsame).
    unfold bind at 1. rewrite E.
    assert (forall q,
              (forall items0, Ok items = Ok items0 ->
                  ~ doomed host (age_limit max_age_seconds) w items0 q) ->
              (q ∈ dirs w' <-> q ∈ dirs w) /\ files w' !! q = files w !! q) as Hq.
    { intros q H. apply Hsame, H. reflexivity. }
    destruct r as [[]|e].
    + exists None, w'. repeat (split; [first [reflexivity|assumption]|]). exact Hq.
    + exists (Some e), w'. repeat (split; [first [reflexivity|assumption]|]). exact Hq.
  - exists (Some e), w. repeat split; auto.
Qed.

(** X20.  When no listed item lies below another, the modification times
    of the listed directories can be read and removals work, the sweep
    ends without a warning and removes exactly the listed directories
    older than the limit with everything below them: a directory remains
    iff it was there and is not in or below such a directory, no file
    remains in or below one, and an age equal to the limit does not
    count as older. *)
Theorem cleanup_old_files_removes_expired {F : Type} {num : NumOps F}
    (env : Env F) (host : Host F) (max_age_seconds : option Z) (w : World F)
    (items : list string) :
  Path_iterdir host base_dir = Ok items ->
  independent items ->
  (forall item, In item items -> item ∈ dirs w ->
                exists mtime, stat_st_mtime host item = Ok mtime) ->
  (forall v p, shutil_rmtree env v p = Removed) ->
  exists w',
    cleanup_old_files env host max_age_seconds w = (Ok None, w')
    /\ (forall q, q ∈ dirs w'
                  <-> q ∈ dirs w
                      /\ ~ doomed host (age_limit max_age_seconds) w items q)
    /\ (forall q, doomed host (age_limit max_age_seconds) w items q ->
                  files w' !! q = None)
    /\ (forall q, ~ doomed host (age_limit max_age_seconds) w items q ->
                  files w' !! q = files w !! q).
Proof.
  intros Hl Hind Hstat Hrm.
  destruct (sweep_removes env host (age_limit max_age_seconds) items w Hind Hstat Hrm)
    as (w' & E & Hd & Hf & _).
  destruct (sweep_safe env host (age_limit max_age_seconds) items w)
    as (r & w2 & E2 & _ & _ & _ & Hsame).
  rewrite E in E2. injection E2 as <- <-.
  exists w'. split.
  - unfold cleanup_old_files, try_except. unfold bind at 1, of_result.
    rewrite Hl. fold (age_limit max_age_seconds). unfold bind at 1. rewrite E.
    reflexivity.
  - split; [exact Hd|]. split; [exact Hf|]. intros q Hq. apply (Hsame q Hq).
Qed.

(** Witness of X20. *)
Lemma cleanup_old_files_removes_expired_witness :
  exists w',
    cleanup_old_files env_no_tool two_sessions_host None two_sessions_world
    = (Ok None, w')
    /\ ("/tmp/kathachitra/old" ∉ dirs w')
    /\ files w' !! "/tmp/kathachitra/old/story_video.mp4" = None
    /\ files w' !! "/tmp/kathachitra/new/story_video.mp4" = Some 6000%N.
Proof.
  destruct (cleanup_old_files_removes_expired (F:=Q) env_no_tool two_sessions_host
              None two_sessions_world
              ["/tmp/kathachitra/old"; "/tmp/kathachitra/new"]%string)
    as (w' & E & Hd & Hgone & Hkept).
  - reflexivity.
  - intros a b [<-|[<-|[]]] [<-|[<-|[]]] Hne; try reflexivity; contradiction.
  - intros item [<-|[<-|[]]] _; eexists; reflexivity.
  - intros v p. reflexivity.
  - assert (forall q, under "/tmp/kathachitra/old" q = true ->
              doomed two_sessions_host (age_limit None) two_sessions_world
                ["/tmp/kathachitra/old"; "/tmp/kathachitra/new"]%string q) as Hold.
    { intros q Hq. exists "/tmp/kathachitra/old"%string.
      split; [left; reflexivity|]. split; [|split; [|exact Hq]].
      - cbn [dirs two_sessions_world]. apply elem_of_union. left.
        apply elem_of_singleton. reflexivity.
      - exists 100%Q. split; reflexivity. }
    exists w'. split; [exact E|]. split; [|split].
    + intros H. apply Hd in H. destruct H as [_ H]. apply H, Hold. reflexivity.
    + apply Hgone, Hold. reflexivity.
    + rewrite Hkept; [reflexivity|].
      intros (item & [<-|[<-|[]]] & _ & (mt & Hmt & Hlt) & Hu).
      * discriminate Hu.
      * injection Hmt as <-. discriminate Hlt.
Defined.

(** X21.  A removal that fails ends the sweep: when the first listed item
    is an expired directory whose removal raises, the sweep ends with that
    error as its warning, the directory itself is still there, and nothing
    outside it has changed, so that the later items of the listing, expired
    or not, are left in place. *)
Theorem cleanup_old_files_stops_at_failure {F : Type} {num : NumOps F}
    (env : Env F) (host : Host F) (max_age_seconds : option Z) (w : World F)
    (item : string) (rest : list string) (e : exn) (gone : gset string) :
  Path_iterdir host base_dir = Ok (item :: rest) ->
  item ∈ dirs w ->
  expired host (age_limit max_age_seconds) item ->
  shutil_rmtree env w item = Rmtree_raises e gone ->
  exists w',
    cleanup_old_files env host max_age_seconds w = (Ok (Some e), w')
    /\ item ∈ dirs w'
    /\ touches_only item w w'.
Proof.
  intros Hl Hin (mt & Hmt & Hold) Hrm.
  destruct (rmtree env item w) as [r w'] eqn:E.
  assert (r = Raise e /\ item ∈ dirs w') as [-> Hstill].
  { revert E. unfold rmtree. rewrite Hrm. intros [= <- <-]. split; [reflexivity|].
    cbn [dirs]. apply elem_of_filter. split; [|exact Hin].
    intros (_ & Hne & _). apply Hne. reflexivity. }
  exists w'. split; [|split; [exact Hstill|]].
  - unfold cleanup_old_files, try_except. unfold bind at 1, of_result.
    rewrite Hl. fold (age_limit max_age_seconds). unfold bind at 1.
    cbn [sweep]. unfold bind at 1. unfold bind at 1, is_dir.
    rewrite (bool_decide_eq_true_2 _ Hin).
    unfold bind at 1, of_result. rewrite Hmt.
    unfold age_limit in Hold. unfold age_limit. rewrite Hold, E. reflexivity.
  - intros q Hq. destruct (rmtree_local env _ _ _ _ _ E Hq) as (H1 & H2 & _).
    split; assumption.
Qed.

(** Witness of X21. *)
Lemma cleanup_old_files_stops_at_failure_witness :
  exists w',
    cleanup_old_files env_locked_session two_old_sessions_host None
      two_sessions_world = (Ok (Some OSError), w')
    /\ "/tmp/kathachitra/old" ∈ dirs w'
    /\ "/tmp/kathachitra/new" ∈ dirs w'.
Proof.
  destruct (cleanup_old_files_stops_at_failure (F:=Q) env_locked_session
              two_old_sessions_host None two_sessions_world
              "/tmp/kathachitra/old" ["/tmp/kathachitra/new"]%string OSError ∅)
    as (w' & E & Hold & Hrest).
  - reflexivity.
  - cbn [dirs two_sessions_world]. apply elem_of_union. left.
    apply elem_of_singleton. reflexivity.
  - exists 100%Q. split; reflexivity.
  - reflexivity.
  - exists w'. split; [exact E|]. split; [exact Hold|].
    apply (Hrest "/tmp/kathachitra/new"%string); [reflexivity|].
    cbn [dirs two_sessions_world]. apply elem_of_union. right.
    apply elem_of_singleton. reflexivity.
Defined.

(** ** The file name offered for the download *)

Lemma title_char_plain c : title_char c = true <-> plain_char c.
Proof.
  unfold title_char, ascii_isalnum, plain_char. cbn [existsb of_string map
    list_ascii_of_string N_of_ascii N_of_digits].
  rewrite !andb_true_iff, !orb_true_iff, !andb_true_iff, !N.leb_le, !N.eqb_eq,
    N.ltb_lt.
  cbn. lia.
Qed.

Lemma Forall_title_filter title :
  Forall plain_char (List.filter title_char title).
Proof.
  apply List.Forall_forall. intros c Hc. apply List.filter_In in Hc.
  apply title_char_plain, Hc.
Qed.

Lemma filter_title_id s :
  Forall plain_char s -> List.filter title_char s = s.
Proof.
  induction 1 as [|c s Hc _ IH]; [reflexivity|]. cbn [List.filter].
  apply title_char_plain in Hc. rewrite Hc, IH. reflexivity.
Qed.

Lemma safe_title_fixed s :
  s <> [] -> length s <= 50 -> Forall plain_char s -> safe_title s = s.
Proof.
  intros Hne Hlen Hall. unfold safe_title. rewrite (filter_title_id s Hall).
  rewrite firstn_all2 by exact Hlen. destruct s; [contradiction|reflexivity].
Qed.

Lemma safe_title_shape title :
  safe_title title <> [] /\ length (safe_title title) <= 50
  /\ Forall plain_char (safe_title title).
Proof.
  unfold safe_title.
  destruct (firstn 50 (List.filter title_char title)) as [|c s] eqn:E.
  - split; [discriminate|]. split; [vm_compute; lia|].
    apply List.Forall_forall. intros c Hc. apply title_char_plain.
    revert c Hc. apply forallb_forall. vm_compute. reflexivity.
  - split; [discriminate|]. split.
    + rewrite <- E, length_firstn. lia.
    + rewrite <- E. apply Forall_take, Forall_title_filter.
Qed.

(** X22.  The file name that the endpoint offers for the download is never
    empty, is at most 50 characters long and consists of digits, ASCII
    letters, spaces, hyphens and underscores only, whatever the title
    (so no quote, separator or line break of the title reaches the
    header); it is the default name, or the characters of that kind of
    the title in their order. *)
Theorem safe_title_is_plain (title : str) :
  safe_title title <> []
  /\ length (safe_title title) <= 50
  /\ Forall plain_char (safe_title title)
  /\ (safe_title title = of_string "cultural_story"
      \/ sublist (safe_title title) title).
Proof.
  destruct (safe_title_shape title) as (H1 & H2 & H3).
  split; [exact H1|]. split; [exact H2|]. split; [exact H3|].
  unfold safe_title.
  destruct (firstn 50 (List.filter title_char title)) as [|c s] eqn:E;
    [left; reflexivity|right].
  rewrite <- E. transitivity (List.filter title_char title).
  - apply sublist_take.
  - clear. induction title as [|c t IH]; [constructor|]. cbn [List.filter].
    destruct (title_char c); [apply sublist_skip, IH|apply sublist_cons, IH].
Qed.

(** X23.  A title is kept as it is exactly when it is not empty, has at
    most 50 characters and consists of digits, ASCII letters, spaces,
    hyphens and underscores; so cleaning a title twice gives the same as
    cleaning it once. *)
Theorem safe_title_idempotent (title : str) :
  (safe_title title = title
   <-> title <> [] /\ length title <= 50 /\ Forall plain_char title)
  /\ safe_title (safe_title title) = safe_title title.
Proof.
  split.
  - split.
    + intros E. rewrite <- E. apply safe_title_shape.
    + intros (H1 & H2 & H3). apply safe_title_fixed; assumption.
  - destruct (safe_title_shape title) as (H1 & H2 & H3).
    apply safe_title_fixed; assumption.
Qed.

(** ** The text handed to the speech engines *)

Lemma utf8_round_trip_char c bs :
  code_point c ->
  utf8_decode_ignore (utf8_encode_char c ++ bs)
  = (if is_surrogate c then [] else [c]) ++ utf8_decode_ignore bs.
Proof.
  unfold code_point, utf8_encode_char, is_surrogate. intros Hc.
  pose proof (N.div_mod c 64 ltac:(lia)) as E1.
  pose proof (N.mod_lt c 64 ltac:(lia)) as L1.
  pose proof (N.div_mod (c / 64) 64 ltac:(lia)) as E2.
  pose proof (N.mod_lt (c / 64) 64 ltac:(lia)) as L2.
  pose proof (N.div_mod (c / 64 / 64) 64 ltac:(lia)) as E3.
  pose proof (N.mod_lt (c / 64 / 64) 64 ltac:(lia)) as L3.
  replace (c / 4096)%N with (c / 64 / 64)%N
    by (rewrite N.Div0.div_div; reflexivity).
  replace (c / 262144)%N with (c / 64 / 64 / 64)%N
    by (rewrite !N.Div0.div_div; reflexivity).
  set (r1 := (c mod 64)%N) in *. set (q1 := (c / 64)%N) in *.
  set (r2 := (q1 mod 64)%N) in *. set (q2 := (q1 / 64)%N) in *.
  set (r3 := (q2 mod 64)%N) in *. set (q3 := (q2 / 64)%N) in *.
  destruct (c <? 128)%N eqn:H1.
  { cbn [app utf8_decode_ignore]. rewrite H1.
    apply N.ltb_lt in H1.
    replace ((55296 <=? c) && (c <=? 57343))%N with false; [reflexivity|].
    symmetry. apply andb_false_iff. left. apply N.leb_gt. lia. }
  apply N.ltb_ge in H1.
  destruct (c <? 2048)%N eqn:H2.
  { apply N.ltb_lt in H2. cbn [app utf8_decode_ignore].
    replace (192 + q1 <? 128)%N with false by (symmetry; apply N.ltb_ge; lia).
    replace ((194 <=? 192 + q1) && (192 + q1 <=? 223))%N with true
      by (symmetry; apply andb_true_iff; rewrite !N.leb_le; lia).
    replace (is_continuation (128 + r1)) with true
      by (symmetry; apply andb_true_iff; rewrite !N.leb_le; lia).
    replace ((55296 <=? c) && (c <=? 57343))%N with false
      by (symmetry; apply andb_false_iff; left; apply N.leb_gt; lia).
    cbn [app]. f_equal. lia. }
  apply N.ltb_ge in H2.
  destruct ((55296 <=? c) && (c <=? 57343))%N eqn:H3; [reflexivity|].
  assert (c < 55296 \/ 57343 < c)%N as H3'.
  { apply andb_false_iff in H3. rewrite !N.leb_gt in H3. exact H3. }
  destruct (c <? 65536)%N eqn:H4.
  { apply N.ltb_lt in H4. cbn [app utf8_decode_ignore].
    replace (224 + q2 <? 128)%N with false by (symmetry; apply N.ltb_ge; lia).
    replace ((194 <=? 224 + q2) && (224 + q2 <=? 223))%N with false
      by (symmetry; apply andb_false_iff; right; apply N.leb_gt; lia).
    replace ((224 <=? 224 + q2) && (224 + q2 <=? 239))%N with true
      by (symmetry; apply andb_true_iff; rewrite !N.leb_le; lia).
    replace (second_of_three (224 + q2) (128 + r2)) with true.
    2:{ symmetry. unfold second_of_three, is_continuation.
        rewrite !andb_true_iff, !negb_true_iff, !andb_false_iff, !N.leb_le,
          !N.eqb_neq, N.ltb_ge, N.leb_gt. lia. }
    replace (is_continuation (128 + r1)) with true
      by (symmetry; apply andb_true_iff; rewrite !N.leb_le; lia).
    cbn [app]. f_equal. lia. }
  apply N.ltb_ge in H4. cbn [app utf8_decode_ignore].
  replace (240 + q3 <? 128)%N with false by (symmetry; apply N.ltb_ge; lia).
  replace ((194 <=? 240 + q3) && (240 + q3 <=? 223))%N with false
    by (symmetry; apply andb_false_iff; right; apply N.leb_gt; lia).
  replace ((224 <=? 240 + q3) && (240 + q3 <=? 239))%N with false
    by (symmetry; apply andb_false_iff; right; apply N.leb_gt; lia).
  replace ((240 <=? 240 + q3) && (240 + q3 <=? 244))%N with true
    by (symmetry; apply andb_true_iff; rewrite !N.leb_le; lia).
  replace (second_of_four (240 + q3) (128 + r3)) with true.
  2:{ symmetry. unfold second_of_four, is_continuation.
      rewrite !andb_true_iff, !negb_true_iff, !andb_false_iff, !N.leb_le,
        !N.eqb_neq, N.ltb_ge, N.leb_gt. lia. }
  replace (is_continuation (128 + r2)) with true
    by (symmetry; apply andb_true_iff; rewrite !N.leb_le; lia).
  replace (is_continuation (128 + r1)) with true
    by (symmetry; apply andb_true_iff; rewrite !N.leb_le; lia).
  cbn [app]. f_equal. lia.
Qed.

Lemma utf8_round_trip s :
  Forall code_point s ->
  utf8_decode_ignore (utf8_encode_ignore s)
  = List.filter (fun c => negb (is_surrogate c)) s.
Proof.
  induction 1 as [|c s Hc _ IH]; [reflexivity|].
  unfold utf8_encode_ignore. cbn [flat_map List.filter].
  rewrite (utf8_round_trip_char c _ Hc). fold (utf8_encode_ignore s).
  rewrite IH. destruct (is_surrogate c); reflexivity.
Qed.

Lemma replace_char_flat_map old new (g : char -> str) t :
  replace_char old new (flat_map g t)
  = flat_map (fun c => replace_char old new (g c)) t.
Proof.
  unfold replace_char. induction t as [|c t IH]; [reflexivity|].
  change (flat_map g (c :: t)) with (g c ++ flat_map g t).
  rewrite List.flat_map_app. cbn [flat_map]. f_equal. exact IH.
Qed.

Lemma fold_replace_flat_map rs : forall (g : char -> str) t,
  fold_left (fun text r => replace_char r.1 r.2 text) rs (flat_map g t)
  = flat_map
      (fun c => fold_left (fun text r => replace_char r.1 r.2 text) rs (g c)) t.
Proof.
  induction rs as [|r rs IH]; intros g t; [reflexivity|].
  cbn [fold_left]. rewrite replace_char_flat_map, IH. reflexivity.
Qed.

Lemma replace_char_one old new c :
  replace_char old new [c] = if (c =? old)%N then new else [c].
Proof. unfold replace_char. cbn [flat_map]. apply app_nil_r. Qed.

(** The replacements one after the other amount to one look-up in the
    table: what a replacement puts in is not replaced later. *)
Lemma fold_replace_one c :
  fold_left (fun text r => replace_char r.1 r.2 text) replacements [c]
  = match replacement_of c with Some new => new | None => [c] end.
Proof.
  unfold replacement_of, replacements.
  cbn [fold_left List.find fst snd fmap option_fmap option_map].
  repeat (rewrite replace_char_one;
          match goal with
          | |- context [(c =? ?k)%N] =>
              destruct (c =? k)%N; [vm_compute; reflexivity|]
          end).
  reflexivity.
Qed.

Lemma replacements_ascii c new :
  replacement_of c = Some new -> Forall (fun d => (d <= 127)%N) new.
Proof.
  unfold replacement_of, replacements.
  cbn [List.find fst snd fmap option_fmap option_map].
  repeat match goal with
         | |- context [(c =? ?k)%N] =>
             destruct (c =? k)%N;
             [cbn; intros [= <-]; apply List.Forall_forall;
              intros d Hd; apply N.leb_le; revert d Hd; apply forallb_forall;
              vm_compute; reflexivity|]
         end.
  cbn. discriminate.
Qed.

Lemma filter_flat_map {A B} (f : B -> bool) (g : A -> list B) l :
  List.filter f (flat_map g l) = flat_map (fun a => List.filter f (g a)) l.
Proof.
  induction l as [|a l IH]; [reflexivity|].
  cbn [flat_map]. rewrite List.filter_app, IH. reflexivity.
Qed.

Lemma filter_ascii run :
  Forall (fun d => (d <= 127)%N) run ->
  List.filter (fun c => negb (is_surrogate c)) run = run.
Proof.
  induction 1 as [|c run Hc _ IH]; [reflexivity|]. cbn [List.filter].
  replace (is_surrogate c) with false; [cbn [negb]; rewrite IH; reflexivity|].
  symmetry. apply andb_false_iff. left. apply N.leb_gt. lia.
Qed.

Lemma reencode_run run :
  Forall (fun c => (127 < c)%N) run -> Forall code_point run ->
  match run with [] => [] | _ => reencode run end
  = List.filter (fun c => negb (is_surrogate c)) run.
Proof.
  intros Hhigh Hcp. destruct run as [|c run]; [reflexivity|].
  unfold reencode. cbn [existsb].
  replace (127 <? c)%N with true.
  - cbn [orb]. apply utf8_round_trip, Hcp.
  - symmetry. apply N.ltb_lt. inversion Hhigh. assumption.
Qed.

Lemma re_sub_reencode text : forall run,
  Forall (fun c => (127 < c)%N) run -> Forall code_point run ->
  Forall code_point text ->
  re_sub_non_ascii reencode run text
  = List.filter (fun c => negb (is_surrogate c)) (run ++ text).
Proof.
  induction text as [|c text IH]; intros run Hhigh Hrun Htext.
  - cbn [re_sub_non_ascii]. rewrite app_nil_r. apply reencode_run; assumption.
  - cbn [re_sub_non_ascii]. inversion Htext as [|? ? Hc Htext']; subst.
    destruct (c <=? 127)%N eqn:E.
    + rewrite List.filter_app. f_equal; [exact (reencode_run run Hhigh Hrun)|].
      cbn [List.filter].
      replace (is_surrogate c) with false.
      * cbn [negb]. f_equal.
        exact (IH [] (List.Forall_nil _) (List.Forall_nil _) Htext').
      * symmetry. apply andb_false_iff. left. apply N.leb_gt.
        apply N.leb_le in E. lia.
    + rewrite IH; [rewrite <- app_assoc; reflexivity|..|exact Htext'].
      * apply Forall_app. split; [exact Hhigh|].
        constructor; [|constructor]. apply N.leb_gt in E. exact E.
      * apply Forall_app. split; [exact Hrun|]. constructor; [exact Hc|constructor].
Qed.

Lemma sanitize_text_flat_map text :
  Forall code_point text -> _sanitize_text text = flat_map sanitized_char text.
Proof.
  intros Hcp. unfold _sanitize_text.
  assert (fold_left (fun text r => replace_char r.1 r.2 text) replacements text
          = flat_map (fun c => match replacement_of c with
                               | Some new => new | None => [c] end) text) as ->.
  { transitivity
      (flat_map (fun c => fold_left (fun text r => replace_char r.1 r.2 text)
                            replacements [c]) text).
    - rewrite <- (fold_replace_flat_map replacements (fun c => [c]) text).
      f_equal. clear. induction text as [|c t IH]; [reflexivity|].
      cbn [flat_map app]. f_equal. exact IH.
    - apply flat_map_ext. intros c. apply fold_replace_one. }
  rewrite (re_sub_reencode _ [] (List.Forall_nil _) (List.Forall_nil _)).
  - cbn [app]. rewrite filter_flat_map. apply flat_map_ext. intros c.
    unfold sanitized_char. destruct (replacement_of c) as [new|] eqn:E.
    + apply filter_ascii, (replacements_ascii c), E.
    + cbn [List.filter]. destruct (is_surrogate c); reflexivity.
  - clear -Hcp. induction Hcp as [|c t Hc _ IH]; [constructor|].
    cbn [flat_map]. apply Forall_app. split; [|exact IH].
    destruct (replacement_of c) as [new|] eqn:E.
    + apply replacements_ascii in E. eapply Forall_impl; [exact E|].
      intros d Hd. unfold code_point. cbn beta in Hd. lia.
    + constructor; [exact Hc|constructor].
Qed.

Lemma reencode_filter run :
  Forall code_point run ->
  reencode run = List.filter (fun c => negb (is_surrogate c)) run.
Proof.
  intros Hcp. unfold reencode.
  destruct (existsb (fun c => (127 <? c)%N) run) eqn:E.
  - apply utf8_round_trip, Hcp.
  - symmetry. apply filter_ascii. apply List.Forall_forall. intros c Hc.
    destruct (127 <? c)%N eqn:Ec; [|apply N.ltb_ge in Ec; lia].
    assert (existsb (fun c => (127 <? c)%N) run = true) as E'.
    { apply existsb_exists. exists c. split; assumption. }
    congruence.
Qed.

Lemma clean_char_dec c :
  clean_char c
  <-> match replacement_of c with
      | Some _ => false
      | None => negb (is_surrogate c)
      end = true.
Proof.
  unfold clean_char. destruct (replacement_of c); [split; [intros [[=] _]|discriminate]|].
  rewrite negb_true_iff. tauto.
Qed.

Lemma sanitized_char_clean c : Forall clean_char (sanitized_char c).
Proof.
  unfold sanitized_char. destruct (replacement_of c) as [new|] eqn:E.
  - revert E. unfold replacement_of at 1, replacements.
    cbn [List.find fst snd].
    repeat match goal with
           | |- context [(c =? ?k)%N] =>
               destruct (c =? k)%N;
               [cbn; intros [= <-]; apply List.Forall_forall;
                intros d Hd; apply clean_char_dec; revert d Hd;
                apply forallb_forall; vm_compute; reflexivity|]
           end.
    cbn. discriminate.
  - destruct (is_surrogate c) eqn:Es; [constructor|].
    constructor; [split; assumption|constructor].
Qed.

Lemma sanitized_clean text : Forall clean_char (flat_map sanitized_char text).
Proof.
  induction text as [|c t IH]; [constructor|].
  cbn [flat_map]. apply Forall_app. split; [apply sanitized_char_clean|exact IH].
Qed.

Lemma clean_fixed text :
  Forall clean_char text -> flat_map sanitized_char text = text.
Proof.
  induction 1 as [|c t [Hr Hs] _ IH]; [reflexivity|].
  cbn [flat_map]. unfold sanitized_char at 1. rewrite Hr, Hs, IH. reflexivity.
Qed.

Lemma sanitized_code_points text :
  Forall code_point text -> Forall code_point (flat_map sanitized_char text).
Proof.
  induction 1 as [|c t Hc _ IH]; [constructor|].
  cbn [flat_map]. apply Forall_app. split; [|exact IH].
  unfold sanitized_char. destruct (replacement_of c) as [new|] eqn:E.
  - apply replacements_ascii in E. eapply Forall_impl; [exact E|].
    intros d Hd. unfold code_point. cbn beta in Hd. lia.
  - destruct (is_surrogate c); constructor; [exact Hc|constructor].
Qed.

(** X24.  Encoding a run of characters as UTF-8 with errors ignored and
    decoding the bytes again, as the substitution step of [_sanitize_text]
    does for every run of non-ASCII characters, loses the surrogate code
    points of the run and nothing else: every other character, non-ASCII
    ones included, comes back, in place. *)
Theorem reencode_drops_surrogates_only (run : str) :
  Forall code_point run ->
  utf8_decode_ignore (utf8_encode_ignore run)
  = List.filter (fun c => negb (is_surrogate c)) run
  /\ reencode run = List.filter (fun c => negb (is_surrogate c)) run.
Proof.
  intros Hcp. split; [apply utf8_round_trip, Hcp|apply reencode_filter, Hcp].
Qed.

(** Witness of X24: a Devanagari letter, an unpaired surrogate, a bullet. *)
Lemma reencode_drops_surrogates_only_witness :
  utf8_decode_ignore (utf8_encode_ignore [2325; 55357; 8226]%N)
  = [2325; 8226]%N.
Proof.
  destruct (reencode_drops_surrogates_only [2325; 55357; 8226]%N) as [E _].
  - repeat (apply List.Forall_cons; [reflexivity|]). apply List.Forall_nil.
  - rewrite E. reflexivity.
Defined.

(** X25.  [_sanitize_text] works character by character: a character of
    the table is replaced by its entry (the ellipsis by three full stops,
    the soft hyphen by nothing), a surrogate is dropped, and every other
    character, ASCII or not, is kept.  The replacements made one after
    the other do not interfere, and splitting the text into runs of
    non-ASCII characters has no effect on the result. *)
Theorem sanitize_text_per_character (text : str) :
  Forall code_point text ->
  _sanitize_text text = flat_map sanitized_char text.
Proof. apply sanitize_text_flat_map. Qed.

(** Witness of X25: typographic quotes and an ellipsis around two letters. *)
Lemma sanitize_text_per_character_witness :
  _sanitize_text [8220; 72; 105; 8230; 8221]%N
  = [34; 72; 105; 46; 46; 46; 34]%N.
Proof.
  rewrite (sanitize_text_per_character [8220; 72; 105; 8230; 8221]%N).
  - reflexivity.
  - repeat (apply List.Forall_cons; [reflexivity|]). apply List.Forall_nil.
Defined.

(** X26.  The text that [_sanitize_text] returns holds no character of
    the table and no surrogate; a text is returned unchanged exactly when
    it holds none, so text in a non-Latin script passes unchanged; and
    sanitising twice gives the same as sanitising once. *)
Theorem sanitize_text_idempotent (text : str) :
  Forall code_point text ->
  Forall clean_char (_sanitize_text text)
  /\ (_sanitize_text text = text <-> Forall clean_char text)
  /\ _sanitize_text (_sanitize_text text) = _sanitize_text text.
Proof.
  intros Hcp. rewrite (sanitize_text_flat_map text Hcp).
  pose proof (sanitized_clean text) as Hclean.
  split; [exact Hclean|]. split.
  - split; [intros E; rewrite <- E; exact Hclean|apply clean_fixed].
  - rewrite (sanitize_text_flat_map _ (sanitized_code_points text Hcp)).
    apply clean_fixed, Hclean.
Qed.

(** Witness of X26: a word in Devanagari. *)
Lemma sanitize_text_idempotent_witness :
  _sanitize_text [2325; 2341; 2366]%N = [2325; 2341; 2366]%N.
Proof.
  destruct (sanitize_text_idempotent [2325; 2341; 2366]%N) as (_ & [_ H] & _).
  - repeat (apply List.Forall_cons; [reflexivity|]). apply List.Forall_nil.
  - apply H. repeat (apply List.Forall_cons; [split; reflexivity|]).
    apply List.Forall_nil.
Defined.
